(** * Corpus extension: the editor-side synchronization controller

    A shallow embedding of [extension/src/ui/sync_controller.js]
    ([createSyncController] and its helpers) together with the properties
    its specification states about coalescing, trailing passes, conflict
    recovery, status reporting and crash-safe drafts.  The lifecycle
    trigger of [extension/src/ui/lifecycle_flush.js] and the handler of
    [onState] that the editor ([ui/app.js]) hands to the controller are
    embedded beside it.

    The controller is a closure over mutable variables that runs on one
    event loop.  It is embedded as a record of those variables and a total
    step function: one step is one event-loop turn, that is a call of a
    controller method, the firing of one of its timers, or the resumption
    of a suspended call at one of its awaits on the remote store or on the
    storage adapter.  An event that is not enabled (a completion for a call
    that does not wait for it, a timer that is not armed) changes nothing.

    What the embedding takes from the environment:
    - [sendCommand] answers each command with a response, whose [state]
      may be missing, or throws an error with a [code];
    - the storage adapter, when there is one, applies a write when it is
      issued and never fails; its completion is a later turn.  A run of
      the embedding is a run of the code in which no storage operation
      rejects;
    - [nowMs] is the default [Date.now]: one clock, read when needed and
      moved by the environment;
    - the callbacks [onStatus], [onState] and [onError] observe and do not
      call back into the controller ([stepWith] lifts this for [onState]);
    - the values handed to the controller have the shape the code expects:
      a payload is a JSON value, what storage holds under the drafts key
      is a map of draft records, a remote state lists CV types with a
      string [id];
    - objects are read by their own keys, in insertion order, which is
      what JavaScript does for the identifiers called ordinary below
      ([ordinaryId]); the properties that depend on it carry the
      hypothesis. *)

From Stdlib Require Import List String Ascii ZArith Bool Lia Permutation Sorted.
Import ListNotations.
Local Open Scope string_scope.
Local Open Scope list_scope.
Local Open Scope Z_scope.

(** ** JSON payloads *)

(** The payload of a CV type is a JSON value; [deepClone] is
    [JSON.parse (JSON.stringify value)], a structural copy on such values. *)
#[warnings="-register-all"]
Inductive Json : Type :=
| JNull
| JBool (b : bool)
| JNum (z : Z)
| JStr (s : string)
| JArr (items : list Json)
| JObj (fields : list (string * Json)).

Fixpoint deepClone (value : Json) : Json :=
  match value with
  | JNull => JNull
  | JBool b => JBool b
  | JNum z => JNum z
  | JStr s => JStr s
  | JArr items => JArr (map deepClone items)
  | JObj fields => JObj (map (fun kv => (fst kv, deepClone (snd kv))) fields)
  end.

(** ** JavaScript objects used as maps *)

(** A plain object whose keys are ordinary identifiers ([ordinaryId]
    below: no array index, no name inherited from [Object.prototype])
    keeps its keys in insertion order and is read by its own keys, so it
    is an association list: assigning an existing key updates in place,
    assigning a new key appends, [delete] removes. *)
Module Obj.
Definition t (V : Type) : Type := list (string * V).

Fixpoint get {V} (k : string) (o : t V) : option V :=
  match o with
  | [] => None
  | (k', v) :: rest => if String.eqb k k' then Some v else get k rest
  end.

Fixpoint set {V} (k : string) (v : V) (o : t V) : t V :=
  match o with
  | [] => [(k, v)]
  | (k', v') :: rest =>
      if String.eqb k k' then (k', v) :: rest else (k', v') :: set k v rest
  end.

Fixpoint remove {V} (k : string) (o : t V) : t V :=
  match o with
  | [] => []
  | (k', v') :: rest =>
      if String.eqb k k' then rest else (k', v') :: remove k rest
  end.

Definition keys {V} (o : t V) : list string := map fst o.
Definition values {V} (o : t V) : list V := map snd o.
Definition isEmpty {V} (o : t V) : bool :=
  match o with [] => true | _ => false end.
End Obj.

(** ** Data model *)

Inductive Status : Type := Saved | Pending | Saving | Error.

Definition Status_eqb (a b : Status) : bool :=
  match a, b with
  | Saved, Saved | Pending, Pending | Saving, Saving | Error, Error => true
  | _, _ => false
  end.

Record Draft : Type := mkDraft {
  cvTypeId : string;
  data : Json;
  localUpdatedAtMs : Z;
  baseRemoteUpdatedAt : string;
  dirty : bool
}.

Module CvType.
Record t : Type := mk { id : string; data : Json }.
End CvType.

(** The remote envelope.  [cvTypes = None] stands for a state whose
    [cvTypes] is not an array. *)
Record RemoteState : Type := mkRemote {
  updatedAt : string;
  cvTypes : option (list CvType.t)
}.

(** What [storageArea] holds under [LOCAL_DRAFTS_KEY] and [SYNC_META_KEY]. *)
Record Storage : Type := mkStorage {
  storedDrafts : option (Obj.t Draft);
  storedMeta : option (Status * Z)
}.

Inductive Command : Type :=
| CV_UPDATE_TYPE (cvTypeId : string) (data : Json) (syncReason : string)
| STATE_LOAD.

(** Outcome of one [sendCommand] call: a response, whose [state] may be
    missing, or a thrown error with its [code]. *)
Inductive NetReply : Type :=
| NetOk (state : option RemoteState)
| NetError (code : string).

Record FlushResult : Type := mkResult {
  ok : bool;
  reason : option string;
  resultStatus : Status
}.

(** Everything the controller does to its collaborators, in order. *)
Inductive Obs : Type :=
| OStatus (s : Status)
| OState (state : RemoteState) (source : string) (cvTypeId : string)
| OError (code : string)
| OSend (task : nat) (cmd : Command)
| OStore (drafts : Obj.t Draft) (s : Status) (updatedAtMs : Z)
| OFlushReturn (task : nat) (res : FlushResult)
| ORestoreReturn (task : nat) (merged : option RemoteState).

(** Where a suspended asynchronous call waits: [flush] for its first
    storage write, [syncEntry] for its write or its reload (with the entry,
    the entries left in the pass and the [recoveredConflict] flag),
    [performFlush] for the storage write of its [finally] block,
    [restoreDrafts] for its load or its storage write. *)
Inductive Pc : Type :=
| FlushPersisting (reason : string)
| SyncWriting (reason : string) (entry : Draft) (rest : list Draft)
    (recoveredConflict : bool)
| SyncReloading (reason : string) (entry : Draft) (rest : list Draft)
| FlushFinishing (reason : string)
| RestoreLoading (remoteState : option RemoteState)
    (raw : option (Obj.t Draft))
| RestorePersisting (merged : option RemoteState).

(** The variables of the closure, then its surroundings: the storage
    adapter ([None] when [storageArea] is missing), the clock, the calls
    that are suspended, and what the collaborators have seen so far.  A
    timer variable tells whether its timeout is pending. *)
Record World : Type := mkWorld {
  drafts : Obj.t Draft;
  status : Status;
  idleTimer : bool;
  localPersistTimer : bool;
  flushing : bool;
  needsTrailingFlush : bool;
  destroyed : bool;
  storageArea : option Storage;
  nowMs : Z;
  tasks : list (nat * Pc);
  nextTask : nat;
  trace : list Obs
}.

(** One turn of the event loop. *)
Inductive Event : Type :=
| EvClock (t : Z)
| EvScheduleTypeSave (cvTypeId : string) (data : Json)
    (baseRemoteUpdatedAt : string)
| EvFlush (reason : string)
| EvDestroy
| EvAbsorbRemoteState (remoteState : option RemoteState)
| EvRestoreDrafts (remoteState : option RemoteState)
| EvIdleTimer
| EvLocalPersistTimer
| EvStorageDone (task : nat)
| EvNetReply (task : nat) (reply : NetReply).

(** ** Helpers outside the closure *)

(** [Object.values(drafts).sort((a, b) => a.localUpdatedAtMs - b.localUpdatedAtMs)]:
    a stable sort, oldest edit first. *)
Fixpoint insertByTime (d : Draft) (l : list Draft) : list Draft :=
  match l with
  | [] => [d]
  | x :: xs =>
      if localUpdatedAtMs d <=? localUpdatedAtMs x
      then d :: x :: xs
      else x :: insertByTime d xs
  end.

Definition sortByTime (l : list Draft) : list Draft :=
  fold_right insertByTime [] l.

(** [normalizeDraftMap] on a candidate whose entries are draft records:
    entries with an empty key or without the [dirty] flag are skipped; a
    zero timestamp is replaced by the current time.  ([None] stands for a
    candidate that is missing or not an object.) *)
Definition normalizeDraft (dateNow : Z) (k : string) (value : Draft) : Draft :=
  {| cvTypeId := k;
     data := deepClone (data value);
     localUpdatedAtMs :=
       if localUpdatedAtMs value =? 0 then dateNow else localUpdatedAtMs value;
     baseRemoteUpdatedAt := baseRemoteUpdatedAt value;
     dirty := true |}.

Definition normalizeEntries (dateNow : Z) (entries : list (string * Draft))
  : Obj.t Draft :=
  fold_left
    (fun output kv =>
       let '(k, value) := kv in
       if String.eqb k "" then output
       else if negb (dirty value) then output
       else Obj.set k (normalizeDraft dateNow k value) output)
    entries [].

Definition normalizeDraftMap (dateNow : Z) (candidate : option (Obj.t Draft))
  : Obj.t Draft :=
  match candidate with
  | None => []
  | Some o => normalizeEntries dateNow o
  end.

Definition knownTypeIds (types : list CvType.t) : list string :=
  map CvType.id types.

Definition hasId (ids : list string) (k : string) : bool :=
  existsb (String.eqb k) ids.

(** [pruneDraftsAgainstRemote]: without a [cvTypes] array the map is
    copied; otherwise only drafts of known types are kept. *)
Definition pruneDraftsAgainstRemote (draftMap : Obj.t Draft)
    (remoteState : option RemoteState) : Obj.t Draft :=
  match remoteState with
  | Some {| cvTypes := Some types |} =>
      fold_left
        (fun output kv =>
           if hasId (knownTypeIds types) (fst kv)
           then Obj.set (fst kv) (snd kv) output
           else output)
        draftMap []
  | _ => draftMap
  end.

(** [applyDraftsToRemoteState]: the remote state with the payload of every
    type that has a draft replaced by the draft's payload.  The lookup
    [draftMap[cvType.id]] is read as a lookup of own keys, which it is
    when no type is filed under a name inherited from [Object.prototype]
    ([ordinaryState] below). *)
Definition cloneType (c : CvType.t) : CvType.t :=
  CvType.mk (CvType.id c) (deepClone (CvType.data c)).

Definition applyDraft (draftMap : Obj.t Draft) (c : CvType.t) : CvType.t :=
  match Obj.get (CvType.id c) draftMap with
  | Some draft => CvType.mk (CvType.id c) (deepClone (data draft))
  | None => c
  end.

Definition applyDraftsToRemoteState (remoteState : option RemoteState)
    (draftMap : Obj.t Draft) : option RemoteState :=
  match remoteState with
  | None => None
  | Some r =>
      Some {| updatedAt := updatedAt r;
              cvTypes :=
                option_map
                  (fun types => map (applyDraft draftMap) (map cloneType types))
                  (cvTypes r) |}
  end.

(** ** The closure of [createSyncController] *)

(** Assignments to the closure's variables and to the collaborators. *)
Definition withDrafts (v : Obj.t Draft) (w : World) : World :=
  mkWorld v (status w) (idleTimer w) (localPersistTimer w) (flushing w)
    (needsTrailingFlush w) (destroyed w) (storageArea w) (nowMs w) (tasks w)
    (nextTask w) (trace w).

Definition withStatus (v : Status) (w : World) : World :=
  mkWorld (drafts w) v (idleTimer w) (localPersistTimer w) (flushing w)
    (needsTrailingFlush w) (destroyed w) (storageArea w) (nowMs w) (tasks w)
    (nextTask w) (trace w).

Definition withIdleTimer (v : bool) (w : World) : World :=
  mkWorld (drafts w) (status w) v (localPersistTimer w) (flushing w)
    (needsTrailingFlush w) (destroyed w) (storageArea w) (nowMs w) (tasks w)
    (nextTask w) (trace w).

Definition withLocalPersistTimer (v : bool) (w : World) : World :=
  mkWorld (drafts w) (status w) (idleTimer w) v (flushing w)
    (needsTrailingFlush w) (destroyed w) (storageArea w) (nowMs w) (tasks w)
    (nextTask w) (trace w).

Definition withFlushing (v : bool) (w : World) : World :=
  mkWorld (drafts w) (status w) (idleTimer w) (localPersistTimer w) v
    (needsTrailingFlush w) (destroyed w) (storageArea w) (nowMs w) (tasks w)
    (nextTask w) (trace w).

Definition withNeedsTrailingFlush (v : bool) (w : World) : World :=
  mkWorld (drafts w) (status w) (idleTimer w) (localPersistTimer w)
    (flushing w) v (destroyed w) (storageArea w) (nowMs w) (tasks w)
    (nextTask w) (trace w).

Definition withDestroyed (v : bool) (w : World) : World :=
  mkWorld (drafts w) (status w) (idleTimer w) (localPersistTimer w)
    (flushing w) (needsTrailingFlush w) v (storageArea w) (nowMs w) (tasks w)
    (nextTask w) (trace w).

Definition withStorageArea (v : option Storage) (w : World) : World :=
  mkWorld (drafts w) (status w) (idleTimer w) (localPersistTimer w)
    (flushing w) (needsTrailingFlush w) (destroyed w) v (nowMs w) (tasks w)
    (nextTask w) (trace w).

Definition withNowMs (v : Z) (w : World) : World :=
  mkWorld (drafts w) (status w) (idleTimer w) (localPersistTimer w)
    (flushing w) (needsTrailingFlush w) (destroyed w) (storageArea w) v
    (tasks w) (nextTask w) (trace w).

Definition withTasks (v : list (nat * Pc)) (w : World) : World :=
  mkWorld (drafts w) (status w) (idleTimer w) (localPersistTimer w)
    (flushing w) (needsTrailingFlush w) (destroyed w) (storageArea w)
    (nowMs w) v (nextTask w) (trace w).

Definition withNextTask (v : nat) (w : World) : World :=
  mkWorld (drafts w) (status w) (idleTimer w) (localPersistTimer w)
    (flushing w) (needsTrailingFlush w) (destroyed w) (storageArea w)
    (nowMs w) (tasks w) v (trace w).

Definition emit (o : Obs) (w : World) : World :=
  mkWorld (drafts w) (status w) (idleTimer w) (localPersistTimer w)
    (flushing w) (needsTrailingFlush w) (destroyed w) (storageArea w)
    (nowMs w) (tasks w) (nextTask w) (trace w ++ [o]).

(** The suspended calls. *)
Fixpoint getTask (t : nat) (l : list (nat * Pc)) : option Pc :=
  match l with
  | [] => None
  | (t', pc) :: rest => if Nat.eqb t t' then Some pc else getTask t rest
  end.

Fixpoint dropTask (t : nat) (l : list (nat * Pc)) : list (nat * Pc) :=
  match l with
  | [] => []
  | (t', pc) :: rest =>
      if Nat.eqb t t' then dropTask t rest else (t', pc) :: dropTask t rest
  end.

Definition suspend (t : nat) (pc : Pc) (w : World) : World :=
  withTasks ((t, pc) :: dropTask t (tasks w)) w.

Definition finish (t : nat) (w : World) : World :=
  withTasks (dropTask t (tasks w)) w.

Definition setStatus (nextStatus : Status) (w : World) : World :=
  if Status_eqb (status w) nextStatus then w
  else emit (OStatus nextStatus) (withStatus nextStatus w).

Definition hasPendingDrafts (w : World) : bool :=
  negb (Obj.isEmpty (drafts w)).

Definition clearIdleTimer (w : World) : World := withIdleTimer false w.
Definition clearLocalPersistTimer (w : World) : World :=
  withLocalPersistTimer false w.
Definition scheduleIdleFlush (w : World) : World :=
  withIdleTimer true (clearIdleTimer w).
Definition scheduleLocalPersist (w : World) : World :=
  withLocalPersistTimer true (clearLocalPersistTimer w).

(** [persistDrafts] up to its await: the write is handed to the storage
    adapter at once, with the drafts and the status of that moment.  The
    adapter is taken not to fail: [storageSet] resolves. *)
Definition persistDrafts (w : World) : World :=
  match storageArea w with
  | None => w
  | Some _ =>
      let cleanDrafts := normalizeDraftMap (nowMs w) (Some (drafts w)) in
      emit (OStore cleanDrafts (status w) (nowMs w))
        (withStorageArea
           (Some {| storedDrafts := Some cleanDrafts;
                    storedMeta := Some (status w, nowMs w) |}) w)
  end.

Definition scheduleTypeSave (cvTypeId : string) (data : Json)
    (baseRemoteUpdatedAt : string) (w : World) : World :=
  if String.eqb cvTypeId "" then w
  else
    let w := withDrafts
               (Obj.set cvTypeId
                  {| cvTypeId := cvTypeId;
                     data := deepClone data;
                     localUpdatedAtMs := nowMs w;
                     baseRemoteUpdatedAt := baseRemoteUpdatedAt;
                     dirty := true |} (drafts w)) w in
    let w := setStatus Pending w in
    let w := scheduleLocalPersist w in
    let w := scheduleIdleFlush w in
    if flushing w then withNeedsTrailingFlush true w else w.

Definition absorbRemoteState (remoteState : option RemoteState) (w : World)
  : World :=
  let w := withDrafts (pruneDraftsAgainstRemote (drafts w) remoteState) w in
  if negb (hasPendingDrafts w) && negb (flushing w)
  then setStatus Saved w else w.

Definition destroy (w : World) : World :=
  clearLocalPersistTimer (clearIdleTimer (withDestroyed true w)).

(** *** [flush], [performFlush], [syncDirtyDrafts] and [syncEntry]

    Each definition below is the code between two awaits; a suspended
    call resumes when its storage operation or its command completes. *)

Definition flushReturn (t : nat) (w : World) : World :=
  finish t
    (emit (OFlushReturn t {| ok := negb (Status_eqb (status w) Error);
                             reason := None;
                             resultStatus := status w |}) w).

Definition sendWrite (t : nat) (reason : string) (entry : Draft)
    (rest : list Draft) (recoveredConflict : bool) (w : World) : World :=
  suspend t (SyncWriting reason entry rest recoveredConflict)
    (emit (OSend t (CV_UPDATE_TYPE (cvTypeId entry) (data entry) reason)) w).

(** The [finally] block of [performFlush]. *)
Definition finallyPersist (t : nat) (reason : string) (w : World) : World :=
  suspend t (FlushFinishing reason) (persistDrafts (withFlushing false w)).

(** After the do-while loop. *)
Definition drainSucceeded (t : nat) (reason : string) (w : World) : World :=
  finallyPersist t reason
    (if hasPendingDrafts w then setStatus Pending w else setStatus Saved w).

(** The [catch] block of [performFlush]. *)
Definition drainFailed (t : nat) (reason code : string) (w : World) : World :=
  finallyPersist t reason (emit (OError code) (setStatus Error w)).

(** One iteration of the do-while loop, up to the first command of
    [syncDirtyDrafts].  Without entries nothing is awaited and the loop
    condition reads the flag that was just cleared. *)
Definition startPass (t : nat) (reason : string) (w : World) : World :=
  let w := withNeedsTrailingFlush false w in
  match sortByTime (Obj.values (drafts w)) with
  | [] => drainSucceeded t reason w
  | entry :: rest => sendWrite t reason entry rest false w
  end.

(** After [syncEntry] returned: the next entry, or the loop condition. *)
Definition nextEntry (t : nat) (reason : string) (rest : list Draft)
    (w : World) : World :=
  match rest with
  | entry :: rest' => sendWrite t reason entry rest' false w
  | [] =>
      if needsTrailingFlush w then startPass t reason w
      else drainSucceeded t reason w
  end.

(** [syncEntry] after a successful write: the draft is removed unless a
    newer edit replaced it during the call. *)
Definition settleDraft (entry : Draft) (w : World) : World :=
  match Obj.get (cvTypeId entry) (drafts w) with
  | Some latestDraft =>
      if localUpdatedAtMs latestDraft <=? localUpdatedAtMs entry
      then withDrafts (Obj.remove (cvTypeId entry) (drafts w)) w
      else withNeedsTrailingFlush true w
  | None => withDrafts (Obj.remove (cvTypeId entry) (drafts w)) w
  end.

Definition writeSucceeded (t : nat) (reason : string) (entry : Draft)
    (rest : list Draft) (state : option RemoteState) (w : World) : World :=
  let w := settleDraft entry w in
  let w := match state with
           | Some s =>
               absorbRemoteState (Some s)
                 (emit (OState s "sync" (cvTypeId entry)) w)
           | None => w
           end in
  nextEntry t reason rest w.

Definition writeFailed (t : nat) (reason : string) (entry : Draft)
    (rest : list Draft) (recoveredConflict : bool) (code : string)
    (w : World) : World :=
  if String.eqb code "STATE_CONFLICT" && negb recoveredConflict
  then suspend t (SyncReloading reason entry rest) (emit (OSend t STATE_LOAD) w)
  else drainFailed t reason code w.

Definition reloadSucceeded (t : nat) (reason : string) (entry : Draft)
    (rest : list Draft) (state : option RemoteState) (w : World) : World :=
  let w := match state with
           | Some s => emit (OState s "conflict-reload" (cvTypeId entry)) w
           | None => w
           end in
  sendWrite t reason entry rest true w.

Definition performFlush (t : nat) (reason : string) (w : World) : World :=
  if flushing w then flushReturn t (withNeedsTrailingFlush true w)
  else if negb (hasPendingDrafts w)
  then flushReturn t
         (if Status_eqb (status w) Error then w else setStatus Saved w)
  else startPass t reason (setStatus Saving (withFlushing true w)).

Definition flush (reason : string) (w : World) : World :=
  let t := nextTask w in
  let w := withNextTask (S t) w in
  if destroyed w
  then emit (OFlushReturn t {| ok := false;
                               reason := Some "destroyed";
                               resultStatus := status w |}) w
  else suspend t (FlushPersisting reason) (persistDrafts (clearIdleTimer w)).

(** *** [restoreDrafts] *)

Definition restoreDrafts (remoteState : option RemoteState) (w : World)
  : World :=
  let t := nextTask w in
  let w := withNextTask (S t) w in
  suspend t
    (RestoreLoading remoteState
       (match storageArea w with
        | Some store => storedDrafts store
        | None => None
        end)) w.

Definition restoreLoaded (t : nat) (remoteState : option RemoteState)
    (raw : option (Obj.t Draft)) (w : World) : World :=
  let w := withDrafts (normalizeDraftMap (nowMs w) raw) w in
  let w := withDrafts (pruneDraftsAgainstRemote (drafts w) remoteState) w in
  let merged := applyDraftsToRemoteState remoteState (drafts w) in
  let w := if hasPendingDrafts w
           then scheduleIdleFlush (setStatus Pending w)
           else setStatus Saved w in
  suspend t (RestorePersisting merged) (persistDrafts w).

(** ** The event loop *)

Definition step (w : World) (ev : Event) : World :=
  match ev with
  | EvClock t => withNowMs t w
  | EvScheduleTypeSave k d b => scheduleTypeSave k d b w
  | EvFlush r => flush r w
  | EvDestroy => destroy w
  | EvAbsorbRemoteState r => absorbRemoteState r w
  | EvRestoreDrafts r => restoreDrafts r w
  | EvIdleTimer =>
      if idleTimer w then flush "idle" (withIdleTimer false w) else w
  | EvLocalPersistTimer =>
      if localPersistTimer w
      then persistDrafts (withLocalPersistTimer false w) else w
  | EvStorageDone t =>
      match getTask t (tasks w) with
      | Some (FlushPersisting r) => performFlush t r w
      | Some (FlushFinishing r) => flushReturn t w
      | Some (RestoreLoading remote raw) => restoreLoaded t remote raw w
      | Some (RestorePersisting merged) =>
          finish t (emit (ORestoreReturn t merged) w)
      | _ => w
      end
  | EvNetReply t reply =>
      match getTask t (tasks w), reply with
      | Some (SyncWriting r e rest rc), NetOk st =>
          writeSucceeded t r e rest st w
      | Some (SyncWriting r e rest rc), NetError c =>
          writeFailed t r e rest rc c w
      | Some (SyncReloading r e rest), NetOk st =>
          reloadSucceeded t r e rest st w
      | Some (SyncReloading r e rest), NetError c => drainFailed t r c w
      | _, _ => w
      end
  end.

Definition run (w : World) (evs : list Event) : World := fold_left step evs w.

(** A controller as [createSyncController] returns it. *)
Definition createSyncController (storage : option Storage) (clock : Z)
  : World :=
  mkWorld [] Saved false false false false false storage clock [] 0 [].

Inductive reachable : World -> Prop :=
| reachable_init storage clock : reachable (createSyncController storage clock)
| reachable_step w ev : reachable w -> reachable (step w ev).

(** ** What a trace shows *)

Definition statusesOf (tr : list Obs) : list Status :=
  flat_map (fun o => match o with OStatus s => [s] | _ => [] end) tr.

Definition commandsOf (tr : list Obs) : list Command :=
  flat_map (fun o => match o with OSend _ c => [c] | _ => [] end) tr.

Definition returnsOf (tr : list Obs) : list FlushResult :=
  flat_map (fun o => match o with OFlushReturn _ r => [r] | _ => [] end) tr.

Definition errorsOf (tr : list Obs) : list string :=
  flat_map (fun o => match o with OError c => [c] | _ => [] end) tr.

Definition restoredOf (tr : list Obs) : list (option RemoteState) :=
  flat_map (fun o => match o with ORestoreReturn _ m => [m] | _ => [] end) tr.

(** ** Predicates used by the properties *)

(** Every draft sits under its own identifier, once, and is dirty. *)
Definition wellKeyed (o : Obj.t Draft) : Prop :=
  NoDup (Obj.keys o) /\
  forall k d, In (k, d) o -> k <> "" /\ cvTypeId d = k /\ dirty d = true.

(** Whether a newer edit replaced [entry] while it was being written:
    the test of [syncEntry] after a successful write. *)
Definition superseded (entry : Draft) (o : Obj.t Draft) : bool :=
  match Obj.get (cvTypeId entry) o with
  | Some latestDraft =>
      negb (localUpdatedAtMs latestDraft <=? localUpdatedAtMs entry)
  | None => false
  end.

(** Whether a remote state keeps the drafts of entity [k] when it is
    absorbed: it lists the entity, or it has no [cvTypes] array at all and
    prunes nothing. *)
Definition lists (remoteState : option RemoteState) (k : string) : bool :=
  match remoteState with
  | Some {| cvTypes := Some types |} => hasId (knownTypeIds types) k
  | _ => true
  end.

(** The turns of one call of [flush] that runs undisturbed: the call, the
    completion of its first storage write, the replies to its commands and
    the completion of its last storage write. *)
Definition flushTurns (t : nat) (r : string) (replies : list NetReply)
  : list Event :=
  EvFlush r :: EvStorageDone t :: map (EvNetReply t) replies
  ++ [EvStorageDone t].

(** A burst of edits of one entity: each edit is made at its own reading
    of the clock, with its own payload and base version. *)
Definition editTurns (k : string) (edits : list (Z * Json * string))
  : list Event :=
  flat_map
    (fun e => [EvClock (fst (fst e)); EvScheduleTypeSave k (snd (fst e)) (snd e)])
    edits.

(** A suspended call is draining when it waits for the remote store. *)
Definition draining (pc : Pc) : bool :=
  match pc with
  | SyncWriting _ _ _ _ | SyncReloading _ _ _ => true
  | _ => false
  end.

(** At most one suspended call is draining, and only while the flushing
    flag is up. *)
Definition oneDrain (w : World) : Prop :=
  (flushing w = false ->
   forall t pc, getTask t (tasks w) = Some pc -> draining pc = false)
  /\ (forall t1 t2 pc1 pc2,
        getTask t1 (tasks w) = Some pc1 -> getTask t2 (tasks w) = Some pc2 ->
        draining pc1 = true -> draining pc2 = true -> t1 = t2).

(** Every suspended call carries an identifier that was handed out. *)
Definition freshIds (w : World) : Prop :=
  forall t pc, getTask t (tasks w) = Some pc -> (t < nextTask w)%nat.

(** What the callback [onStatus] has been told, starting from status [s]:
    the status after the calls, if each call announced a change. *)
Fixpoint lastChange (s : Status) (l : list Status) : option Status :=
  match l with
  | [] => Some s
  | x :: l' => if Status_eqb s x then None else lastChange x l'
  end.

(** Whether a suspended call is a [restoreDrafts]. *)
Definition restoring (pc : Pc) : bool :=
  match pc with
  | RestoreLoading _ _ | RestorePersisting _ => true
  | _ => false
  end.

(** The entries a draining call still has to write in its pass, the one
    in flight first. *)
Definition entriesOf (pc : Pc) : list Draft :=
  match pc with
  | SyncWriting _ e rest _ | SyncReloading _ e rest => e :: rest
  | _ => []
  end.

(** A call of [flush] is on its way to [performFlush]. *)
Definition queuedIn (l : list (nat * Pc)) : Prop :=
  exists t r, getTask t l = Some (FlushPersisting r).

(** A flush will start without anyone asking: the idle timer is armed or
    a call is on its way. *)
Definition scheduled (w : World) : Prop :=
  idleTimer w = true \/ queuedIn (tasks w).

(** Every draft of the store belongs to an entity the running pass still
    has to write. *)
Definition coveredBy (o : Obj.t Draft) (l : list (nat * Pc)) : Prop :=
  forall t pc, getTask t l = Some pc -> draining pc = true ->
  forall k, In k (Obj.keys o) -> In k (map cvTypeId (entriesOf pc)).

(** No draft is left behind: outside a drain a store with drafts has a
    flush scheduled unless the status is error; inside a drain the drafts
    are covered by the pass, or a trailing pass or a later flush will
    pick them up. *)
Definition watched (w : World) : Prop :=
  destroyed w = false ->
  (flushing w = false -> drafts w <> [] -> status w <> Error -> scheduled w)
  /\ (flushing w = true -> needsTrailingFlush w = false ->
      scheduled w \/ coveredBy (drafts w) (tasks w)).

(** ** The lifecycle trigger ([ui/lifecycle_flush.js])

    [registerLifecycleFlush] hangs three listeners on the document and on
    the window.  An event target is the list of its listeners in the order
    they were added; [addEventListener] ignores a listener that is already
    there and [removeEventListener] takes the listener away, as the DOM
    does.  The closures made by one call of [registerLifecycleFlush] are
    told apart from those of another call by the number [reg] of the
    call; [Foreign] stands for the listeners of other code. *)
Inductive Handler : Type :=
| OnVisibilityChange (reg : nat)
| OnPageHide (reg : nat)
| OnBeforeUnload (reg : nat)
| Foreign (n : nat).

Definition Handler_eqb (a b : Handler) : bool :=
  match a, b with
  | OnVisibilityChange n, OnVisibilityChange m
  | OnPageHide n, OnPageHide m
  | OnBeforeUnload n, OnBeforeUnload m
  | Foreign n, Foreign m => Nat.eqb n m
  | _, _ => false
  end.

Definition Target : Type := list (string * Handler).

Definition sameListener (type : string) (h : Handler)
    (l : string * Handler) : bool :=
  String.eqb type (fst l) && Handler_eqb h (snd l).

Definition addEventListener (type : string) (h : Handler) (t : Target)
  : Target :=
  if existsb (sameListener type h) t then t else t ++ [(type, h)].

Definition removeEventListener (type : string) (h : Handler) (t : Target)
  : Target :=
  filter (fun l => negb (sameListener type h l)) t.

(** [documentRef] and [windowRef]; [None] stands for a reference that is
    missing or has no [addEventListener]. *)
Record Page : Type := mkPage {
  documentRef : option Target;
  visibilityState : string;
  windowRef : option Target
}.

(** How a call completes: normally with a value, or by throwing. *)
Inductive Completion (A : Type) : Type :=
| Normal (a : A)
| Throw.
Arguments Normal {A} a.
Arguments Throw {A}.

Definition tryCatch {A} (body : Completion A) (handler : Completion A)
  : Completion A :=
  match body with
  | Normal a => Normal a
  | Throw => handler
  end.

(** What [onFlush] returns: a falsy value, a value without a [catch]
    method, or a value with one, whose call may itself throw. *)
Inductive Returned : Type :=
| Falsy
| Plain
| Thenable (catchThrows : bool).

(** One call of [onFlush] as [flushSafely] leaves it: the reason it was
    given, and whether a rejection handler was attached to its result. *)
Record Attempt : Type := mkAttempt {
  attemptReason : string;
  rejectionHandled : bool
}.

Definition flushSafely (onFlush : string -> Completion Returned)
    (reason : string) : Completion Attempt :=
  tryCatch
    (match onFlush reason with
     | Normal (Thenable catchThrows) =>
         if catchThrows then Throw else Normal (mkAttempt reason true)
     | Normal _ => Normal (mkAttempt reason false)
     | Throw => Throw
     end)
    (Normal (mkAttempt reason false)).

(** The body of a listener: the calls of [flushSafely] it makes. *)
Definition runHandler (onFlush : string -> Completion Returned) (p : Page)
    (h : Handler) : list (Completion Attempt) :=
  match h with
  | OnVisibilityChange _ =>
      if String.eqb (visibilityState p) "hidden"
      then [flushSafely onFlush "visibilitychange"] else []
  | OnPageHide _ => [flushSafely onFlush "pagehide"]
  | OnBeforeUnload _ => [flushSafely onFlush "beforeunload"]
  | Foreign _ => []
  end.

(** Dispatching an event of some type on a target runs its listeners of
    that type in order. *)
Definition dispatch (onFlush : string -> Completion Returned) (p : Page)
    (t : option Target) (type : string) : list (Completion Attempt) :=
  match t with
  | Some listeners =>
      flat_map
        (fun l => if String.eqb type (fst l)
                  then runHandler onFlush p (snd l) else [])
        listeners
  | None => []
  end.

(** The entries of [unsubs]. *)
Inductive Unsub : Type :=
| FromDocument (type : string) (h : Handler)
| FromWindow (type : string) (h : Handler).

(** [registerLifecycleFlush]: the page with the listeners added, and the
    list [unsubs] its result closes over.  [onFlushIsFunction] is the test
    [typeof onFlush === 'function']. *)
Definition registerLifecycleFlush (onFlushIsFunction : bool) (reg : nat)
    (p : Page) : Page * list Unsub :=
  if negb onFlushIsFunction then (p, [])
  else
    let '(p, unsubs) :=
      match documentRef p with
      | Some d =>
          (mkPage
             (Some (addEventListener "visibilitychange"
                      (OnVisibilityChange reg) d))
             (visibilityState p) (windowRef p),
           [FromDocument "visibilitychange" (OnVisibilityChange reg)])
      | None => (p, [])
      end in
    match windowRef p with
    | Some w =>
        (mkPage (documentRef p) (visibilityState p)
           (Some (addEventListener "beforeunload" (OnBeforeUnload reg)
                    (addEventListener "pagehide" (OnPageHide reg) w))),
         unsubs ++ [FromWindow "pagehide" (OnPageHide reg);
                    FromWindow "beforeunload" (OnBeforeUnload reg)])
    | None => (p, unsubs)
    end.

(** The function [registerLifecycleFlush] returns: every entry of
    [unsubs] is run, in order. *)
Definition unsubscribe (unsubs : list Unsub) (p : Page) : Page :=
  fold_left
    (fun p u =>
       match u with
       | FromDocument type h =>
           mkPage (option_map (removeEventListener type h) (documentRef p))
             (visibilityState p) (windowRef p)
       | FromWindow type h =>
           mkPage (documentRef p) (visibilityState p)
             (option_map (removeEventListener type h) (windowRef p))
       end)
    unsubs p.

(** A listener that a call numbered [reg] made. *)
Definition madeBy (reg : nat) (h : Handler) : bool :=
  match h with
  | OnVisibilityChange n | OnPageHide n | OnBeforeUnload n => Nat.eqb n reg
  | Foreign _ => false
  end.

(** No listener of the page was made by the call numbered [reg]. *)
Definition freshFor (reg : nat) (p : Page) : Prop :=
  forall t, documentRef p = Some t \/ windowRef p = Some t ->
  forall l, In l t -> madeBy reg (snd l) = false.

(** ** The controller with a handler of [onState] that calls back

    The editor ([ui/app.js]) passes an [onState] that hands the state to
    [setAppState], which calls [absorbRemoteState] on the controller.
    [stepWith] is [step] with such a handler run where [syncEntry] calls
    [onState]. *)
Definition writeSucceededWith (onState : RemoteState -> World -> World)
    (t : nat) (reason : string) (entry : Draft) (rest : list Draft)
    (state : option RemoteState) (w : World) : World :=
  let w := settleDraft entry w in
  let w := match state with
           | Some s =>
               absorbRemoteState (Some s)
                 (onState s (emit (OState s "sync" (cvTypeId entry)) w))
           | None => w
           end in
  nextEntry t reason rest w.

Definition reloadSucceededWith (onState : RemoteState -> World -> World)
    (t : nat) (reason : string) (entry : Draft) (rest : list Draft)
    (state : option RemoteState) (w : World) : World :=
  let w := match state with
           | Some s =>
               onState s (emit (OState s "conflict-reload" (cvTypeId entry)) w)
           | None => w
           end in
  sendWrite t reason entry rest true w.

Definition stepWith (onState : RemoteState -> World -> World) (w : World)
    (ev : Event) : World :=
  match ev with
  | EvNetReply t (NetOk st) =>
      match getTask t (tasks w) with
      | Some (SyncWriting r e rest rc) => writeSucceededWith onState t r e rest st w
      | Some (SyncReloading r e rest) => reloadSucceededWith onState t r e rest st w
      | _ => w
      end
  | _ => step w ev
  end.

(** The editor's handler, as far as the controller is concerned:
    [setAppState (nextState)] with a state that is there. *)
Definition editorOnState (nextState : RemoteState) (w : World) : World :=
  absorbRemoteState (Some nextState) w.

(** Successful replies to the commands of call [t], carrying the states
    [states from], [states (from + 1)], ... *)
Definition okReplies (t : nat) (states : nat -> option RemoteState)
    (from n : nat) : list Event :=
  map (fun i => EvNetReply t (NetOk (states i))) (seq from n).

(** ** Ordinary identifiers

    The draft store, the draft map read from storage and the lookup of
    [applyDraftsToRemoteState] are plain JavaScript objects, and [Obj]
    reads them by their own keys, in insertion order.  JavaScript does so
    for every key but two kinds.  The names a plain object inherits from
    [Object.prototype] behave differently: assigning [__proto__] stores no
    key, and looking up [constructor] or [toString] in an object that does
    not hold them finds the inherited value, which [syncEntry] takes for a
    newer draft and on which [applyDraftsToRemoteState] throws.  Keys that
    are array indices enumerate before all others.  An identifier is
    ordinary when it is neither. *)
Definition inheritedNames : list string :=
  ["__proto__"; "constructor"; "hasOwnProperty"; "isPrototypeOf";
   "propertyIsEnumerable"; "toLocaleString"; "toString"; "valueOf";
   "__defineGetter__"; "__defineSetter__"; "__lookupGetter__";
   "__lookupSetter__"].

Definition isDigit (c : ascii) : bool :=
  (48 <=? nat_of_ascii c)%nat && (nat_of_ascii c <=? 57)%nat.

(** A canonical numeric string: digits only, without a leading zero. *)
Definition integerLike (k : string) : bool :=
  match k with
  | EmptyString => false
  | String c rest =>
      forallb isDigit (list_ascii_of_string k)
      && (negb (Ascii.eqb c "0") || String.eqb rest "")
  end.

Definition ordinaryId (k : string) : bool :=
  negb (hasId inheritedNames k) && negb (integerLike k).

(** A remote state whose types [applyDraftsToRemoteState] can look up:
    none is filed under an inherited name. *)
Definition ordinaryState (remoteState : option RemoteState) : bool :=
  match remoteState with
  | Some {| cvTypes := Some types |} =>
      forallb (fun k => negb (hasId inheritedNames k)) (knownTypeIds types)
  | _ => true
  end.

(** What reaches the objects of the controller from outside: the
    identifier of an edit, the state a restore merges the drafts into,
    and the keys of the draft map found in storage. *)
Definition ordinaryEvent (ev : Event) : bool :=
  match ev with
  | EvScheduleTypeSave k _ _ => ordinaryId k
  | EvRestoreDrafts remoteState => ordinaryState remoteState
  | _ => true
  end.

Definition ordinaryStorage (storage : option Storage) : bool :=
  match storage with
  | Some {| storedDrafts := Some o |} => forallb ordinaryId (Obj.keys o)
  | _ => true
  end.

(** The states a controller reaches when every identifier it is given is
    ordinary. *)
Inductive ordinary : World -> Prop :=
| ordinary_init storage clock :
    ordinaryStorage storage = true ->
    ordinary (createSyncController storage clock)
| ordinary_step w ev :
    ordinary w -> ordinaryEvent ev = true -> ordinary (step w ev).

(** ** The replies to the commands of one entry *)

(** The write of an entry succeeds at once, or at the second attempt
    after a version conflict and a reload that answered. *)
Inductive Success : Type :=
| AtOnce (state : option RemoteState)
| Recovered (reloaded state : option RemoteState).

Definition repliesOf (s : Success) : list NetReply :=
  match s with
  | AtOnce state => [NetOk state]
  | Recovered reloaded state =>
      [NetError "STATE_CONFLICT"; NetOk reloaded; NetOk state]
  end.

(** The state [syncEntry] absorbs when the write has succeeded. *)
Definition absorbedOf (s : Success) : option RemoteState :=
  match s with
  | AtOnce state | Recovered _ state => state
  end.

Definition commandsFor (r : string) (e : Draft) (s : Success)
  : list Command :=
  match s with
  | AtOnce _ => [CV_UPDATE_TYPE (cvTypeId e) (data e) r]
  | Recovered _ _ =>
      [CV_UPDATE_TYPE (cvTypeId e) (data e) r; STATE_LOAD;
       CV_UPDATE_TYPE (cvTypeId e) (data e) r]
  end.

(** The write of an entry fails for good: on an error that is not a
    first version conflict, on the reload after a conflict, or on the
    second attempt. *)
Inductive Failure : Type :=
| WriteFails (code : string)
| ReloadFails (code : string)
| RetryFails (reloaded : option RemoteState) (code : string).

Definition failureReplies (f : Failure) : list NetReply :=
  match f with
  | WriteFails code => [NetError code]
  | ReloadFails code => [NetError "STATE_CONFLICT"; NetError code]
  | RetryFails reloaded code =>
      [NetError "STATE_CONFLICT"; NetOk reloaded; NetError code]
  end.

Definition failureCommands (r : string) (e : Draft) (f : Failure)
  : list Command :=
  match f with
  | WriteFails _ => [CV_UPDATE_TYPE (cvTypeId e) (data e) r]
  | ReloadFails _ => [CV_UPDATE_TYPE (cvTypeId e) (data e) r; STATE_LOAD]
  | RetryFails _ _ =>
      [CV_UPDATE_TYPE (cvTypeId e) (data e) r; STATE_LOAD;
       CV_UPDATE_TYPE (cvTypeId e) (data e) r]
  end.

Definition failureCode (f : Failure) : string :=
  match f with
  | WriteFails code | ReloadFails code | RetryFails _ code => code
  end.

(** A failure of the first kind is not a first version conflict. *)
Definition isFailure (f : Failure) : bool :=
  match f with
  | WriteFails code => negb (String.eqb code "STATE_CONFLICT")
  | _ => true
  end.

(** The payloads of the writes of entity [k] among some commands. *)
Definition writesOf (k : string) (cmds : list Command) : list Json :=
  flat_map
    (fun c => match c with
              | CV_UPDATE_TYPE k' d _ => if String.eqb k' k then [d] else []
              | STATE_LOAD => []
              end)
    cmds.

(** Whether every state of a list keeps the drafts of entity [k]. *)
Definition listedBy (states : list (option RemoteState)) (k : string) : bool :=
  forallb (fun st => lists st k) states.

(** * Properties *)

(** ** States reached through ordinary identifiers *)

Lemma ordinary_reachable w : ordinary w -> reachable w.
Proof.
  induction 1 as [storage clock Hs | w ev Hw IH Hev].
  - apply reachable_init.
  - now apply reachable_step.
Qed.

Lemma ordinary_run evs : forall w,
  ordinary w -> forallb ordinaryEvent evs = true -> ordinary (run w evs).
Proof.
  induction evs as [ | ev evs IH]; intros w Hw Hevs; [exact Hw | ].
  cbn [forallb] in Hevs. apply Bool.andb_true_iff in Hevs.
  destruct Hevs as [Hev Hevs]. apply (IH (step w ev)); [ | exact Hevs].
  now apply ordinary_step.
Qed.

(** ** JSON values and objects *)

Lemma deepClone_id : forall value, deepClone value = value.
Proof.
  fix IH 1. intros [ | b | z | s | items | fields]; simpl; try reflexivity.
  - f_equal. induction items as [ | x xs IHxs]; simpl.
    + reflexivity.
    + rewrite IH, IHxs. reflexivity.
  - f_equal. induction fields as [ | [k v] xs IHxs]; simpl.
    + reflexivity.
    + rewrite IH, IHxs. reflexivity.
Qed.

Module ObjFacts.
Import Obj.

Section WithValues.
Context {V : Type}.
Implicit Types (o : t V) (k : string) (v : V).

Lemma get_set_same k v o : get k (set k v o) = Some v.
Proof.
  induction o as [ | [k' v'] rest IH]; simpl.
  - now rewrite String.eqb_refl.
  - destruct (String.eqb k k') eqn:E; simpl; rewrite E; auto.
Qed.

Lemma get_set_other k k' v o : k' <> k -> get k' (set k v o) = get k' o.
Proof.
  intros Hne. induction o as [ | [k0 v0] rest IH]; simpl.
  - apply String.eqb_neq in Hne. now rewrite Hne.
  - destruct (String.eqb k k0) eqn:E; simpl.
    + apply String.eqb_eq in E. subst k0.
      apply String.eqb_neq in Hne. now rewrite Hne.
    + now rewrite IH.
Qed.

Lemma get_None_iff k o : get k o = None <-> ~ In k (keys o).
Proof.
  induction o as [ | [k' v'] rest IH]; simpl.
  - tauto.
  - destruct (String.eqb k k') eqn:E.
    + apply String.eqb_eq in E. subst. split; [discriminate | tauto].
    + apply String.eqb_neq in E. rewrite IH. split.
      * intros H [H1 | H1]; [congruence | tauto].
      * tauto.
Qed.

Lemma get_In k v o : get k o = Some v -> In (k, v) o.
Proof.
  induction o as [ | [k' v'] rest IH]; simpl; [discriminate | ].
  destruct (String.eqb k k') eqn:E.
  - apply String.eqb_eq in E. intros [= ->]. subst. now left.
  - auto.
Qed.

Lemma In_get k v o : NoDup (keys o) -> In (k, v) o -> get k o = Some v.
Proof.
  induction o as [ | [k' v'] rest IH]; simpl; [tauto | ].
  intros Hnd [H | H]; inversion Hnd; subst.
  - injection H as -> ->. now rewrite String.eqb_refl.
  - destruct (String.eqb k k') eqn:E.
    + apply String.eqb_eq in E. subst k'.
      exfalso. apply H2. change k with (fst (k, v)). now apply in_map.
    + auto.
Qed.

Lemma keys_set k v o :
  keys (set k v o) =
    match get k o with Some _ => keys o | None => keys o ++ [k] end.
Proof.
  induction o as [ | [k' v'] rest IH]; simpl.
  - reflexivity.
  - destruct (String.eqb k k') eqn:E; simpl.
    + reflexivity.
    + rewrite IH. now destruct (get k rest).
Qed.

Lemma NoDup_keys_set k v o : NoDup (keys o) -> NoDup (keys (set k v o)).
Proof.
  intros Hnd. rewrite keys_set. destruct (get k o) eqn:E; [assumption | ].
  apply get_None_iff in E.
  apply NoDup_app; [assumption | repeat constructor; simpl; tauto | ].
  intros x Hx [<- | []]. contradiction.
Qed.

Lemma length_set k v o :
  List.length (set k v o) =
    match get k o with
    | Some _ => List.length o
    | None => S (List.length o)
    end.
Proof.
  induction o as [ | [k' v'] rest IH]; simpl.
  - reflexivity.
  - destruct (String.eqb k k') eqn:E; simpl.
    + reflexivity.
    + rewrite IH. now destruct (get k rest).
Qed.

Lemma In_keys_remove k k' o : In k' (keys (remove k o)) -> In k' (keys o).
Proof.
  induction o as [ | [k0 v0] rest IH]; simpl; [tauto | ].
  destruct (String.eqb k k0); simpl; tauto.
Qed.

Lemma In_remove k kv o : In kv (remove k o) -> In kv o.
Proof.
  induction o as [ | [k0 v0] rest IH]; simpl; [tauto | ].
  destruct (String.eqb k k0); simpl; tauto.
Qed.

Lemma NoDup_keys_remove k o : NoDup (keys o) -> NoDup (keys (remove k o)).
Proof.
  induction o as [ | [k0 v0] rest IH]; simpl; [auto | ].
  intros Hnd. inversion Hnd; subst.
  destruct (String.eqb k k0); simpl; [assumption | ].
  constructor; [ | auto].
  intros H. now apply In_keys_remove in H.
Qed.

Lemma get_remove_same k o : NoDup (keys o) -> get k (remove k o) = None.
Proof.
  induction o as [ | [k0 v0] rest IH]; simpl; [auto | ].
  intros Hnd. inversion Hnd; subst.
  destruct (String.eqb k k0) eqn:E; simpl.
  - apply String.eqb_eq in E. subst. now apply get_None_iff.
  - rewrite E. auto.
Qed.

Lemma get_remove_other k k' o : k' <> k -> get k' (remove k o) = get k' o.
Proof.
  intros Hne. induction o as [ | [k0 v0] rest IH]; simpl; [auto | ].
  destruct (String.eqb k k0) eqn:E; simpl.
  - apply String.eqb_eq in E. subst k0.
    apply String.eqb_neq in Hne. now rewrite Hne.
  - now rewrite IH.
Qed.

Lemma set_app_fresh k v o : get k o = None -> set k v o = o ++ [(k, v)].
Proof.
  induction o as [ | [k0 v0] rest IH]; simpl; [auto | ].
  destruct (String.eqb k k0); [discriminate | ].
  intros H. now rewrite IH.
Qed.
End WithValues.
End ObjFacts.

(** ** The draft store is keyed by entity *)

Section DraftMaps.
Import Obj ObjFacts.

Lemma In_set (k k' : string) (v v' : Draft) o :
  In (k', v') (set k v o) -> (k', v') = (k, v) \/ In (k', v') o.
Proof.
  induction o as [ | [k0 v0] rest IH]; simpl.
  - intros [H | []]. now left.
  - destruct (String.eqb k k0) eqn:E; simpl.
    + apply String.eqb_eq in E. subst k0. intros [H | H]; auto.
    + intros [H | H]; auto. destruct (IH H); auto.
Qed.

Lemma wellKeyed_nil : wellKeyed [].
Proof. split; [constructor | intros k d []]. Qed.

Lemma wellKeyed_set k d o :
  k <> "" -> cvTypeId d = k -> dirty d = true ->
  wellKeyed o -> wellKeyed (set k d o).
Proof.
  intros Hk Hid Hd [Hnd Hall]. split.
  - now apply NoDup_keys_set.
  - intros k' d' Hin. apply In_set in Hin. destruct Hin as [[= -> ->] | Hin]; auto.
Qed.

Lemma wellKeyed_remove k o : wellKeyed o -> wellKeyed (remove k o).
Proof.
  intros [Hnd Hall]. split.
  - now apply NoDup_keys_remove.
  - intros k' d' Hin. apply In_remove in Hin. auto.
Qed.

Lemma wellKeyed_filter (p : string * Draft -> bool) o :
  wellKeyed o -> wellKeyed (filter p o).
Proof.
  intros [Hnd Hall]. split.
  - clear Hall. induction o as [ | [k0 v0] rest IH]; simpl; [constructor | ].
    inversion Hnd; subst. destruct (p (k0, v0)); simpl; auto.
    constructor; auto. intros Hin. apply H1.
    unfold keys in *. apply in_map_iff in Hin. destruct Hin as [kv [<- Hkv]].
    apply filter_In in Hkv. now apply in_map.
  - intros k d Hin. apply filter_In in Hin. now apply Hall.
Qed.

(** On a keyed map the pruning loop is a filter. *)
Lemma prune_loop_filter (ids : list string) (draftMap output : t Draft) :
  NoDup (keys output ++ keys draftMap) ->
  fold_left
    (fun output kv =>
       if hasId ids (fst kv) then set (fst kv) (snd kv) output else output)
    draftMap output
  = output ++ filter (fun kv => hasId ids (fst kv)) draftMap.
Proof.
  revert output. induction draftMap as [ | [k v] rest IH]; intros output Hnd; simpl.
  - now rewrite app_nil_r.
  - simpl in Hnd. destruct (hasId ids k) eqn:E.
    + rewrite IH.
      * rewrite set_app_fresh.
        -- now rewrite <- app_assoc.
        -- apply get_None_iff. intros Hin.
           apply NoDup_remove_2 in Hnd. apply Hnd. apply in_or_app. now left.
      * rewrite set_app_fresh.
        -- unfold keys in *. rewrite map_app. simpl. rewrite <- app_assoc. exact Hnd.
        -- apply get_None_iff. intros Hin.
           apply NoDup_remove_2 in Hnd. apply Hnd. apply in_or_app. now left.
    + apply IH. now apply NoDup_remove_1 in Hnd.
Qed.

Lemma pruneDraftsAgainstRemote_filter draftMap r types :
  NoDup (keys draftMap) -> cvTypes r = Some types ->
  pruneDraftsAgainstRemote draftMap (Some r)
  = filter (fun kv => hasId (knownTypeIds types) (fst kv)) draftMap.
Proof.
  intros Hnd Ht. destruct r as [u c]. simpl in Ht. subst c. simpl.
  now rewrite prune_loop_filter.
Qed.

Lemma wellKeyed_prune draftMap remoteState :
  wellKeyed draftMap ->
  wellKeyed (pruneDraftsAgainstRemote draftMap remoteState).
Proof.
  intros H. destruct remoteState as [[u [types | ]] | ]; try exact H.
  rewrite (pruneDraftsAgainstRemote_filter _ (mkRemote u (Some types)) types);
    [ | apply H | reflexivity].
  now apply wellKeyed_filter.
Qed.

Lemma get_filter_keys (p : string -> bool) k (o : t Draft) :
  get k (filter (fun kv => p (fst kv)) o) = if p k then get k o else None.
Proof.
  induction o as [ | [k0 v0] rest IH]; simpl.
  - now destruct (p k).
  - destruct (p k0) eqn:E0; simpl; destruct (String.eqb k k0) eqn:E.
    + apply String.eqb_eq in E. subst. now rewrite E0.
    + exact IH.
    + apply String.eqb_eq in E. subst. rewrite E0 in *. exact IH.
    + exact IH.
Qed.

Lemma wellKeyed_normalizeEntries dateNow entries :
  wellKeyed (normalizeEntries dateNow entries).
Proof.
  unfold normalizeEntries.
  assert (G : forall output, wellKeyed output ->
    wellKeyed (fold_left
      (fun output kv =>
         let '(k, value) := kv in
         if String.eqb k "" then output
         else if negb (dirty value) then output
         else set k (normalizeDraft dateNow k value) output) entries output)).
  { induction entries as [ | [k v] rest IH]; intros output Hout; simpl; auto.
    apply IH. destruct (String.eqb k "") eqn:E; auto.
    destruct (negb (dirty v)); auto.
    apply wellKeyed_set; auto. now apply String.eqb_neq. }
  apply G, wellKeyed_nil.
Qed.

(** On a keyed map normalisation keeps every draft where it is. *)
Lemma normalize_loop_map dateNow (entries output : t Draft) :
  NoDup (keys output ++ keys entries) ->
  (forall k d, In (k, d) entries -> k <> "" /\ dirty d = true) ->
  fold_left
    (fun output kv =>
       let '(k, value) := kv in
       if String.eqb k "" then output
       else if negb (dirty value) then output
       else set k (normalizeDraft dateNow k value) output) entries output
  = output ++ map (fun kv => (fst kv, normalizeDraft dateNow (fst kv) (snd kv)))
                entries.
Proof.
  revert output. induction entries as [ | [k v] rest IH]; intros output Hnd Hall; simpl.
  - now rewrite app_nil_r.
  - destruct (Hall k v (or_introl eq_refl)) as [Hk Hd].
    apply String.eqb_neq in Hk. rewrite Hk, Hd. simpl.
    assert (Hfresh : get k output = None).
    { apply get_None_iff. intros Hin. simpl in Hnd.
      apply NoDup_remove_2 in Hnd. apply Hnd. apply in_or_app. now left. }
    rewrite IH.
    + rewrite set_app_fresh by assumption. now rewrite <- app_assoc.
    + rewrite set_app_fresh by assumption.
      unfold keys in *. rewrite map_app. simpl. rewrite <- app_assoc. exact Hnd.
    + intros k' d' Hin. apply Hall. now right.
Qed.

Lemma normalizeDraftMap_keyed dateNow o :
  wellKeyed o ->
  normalizeDraftMap dateNow (Some o)
  = map (fun kv => (fst kv, normalizeDraft dateNow (fst kv) (snd kv))) o.
Proof.
  intros [Hnd Hall]. simpl. unfold normalizeEntries.
  rewrite normalize_loop_map; auto.
  intros k d Hin. destruct (Hall k d Hin) as (? & ? & ?). auto.
Qed.

Lemma get_map_values {A B} (f : string -> A -> B) k (o : t A) :
  get k (map (fun kv => (fst kv, f (fst kv) (snd kv))) o)
  = option_map (f k) (get k o).
Proof.
  induction o as [ | [k0 v0] rest IH]; simpl; auto.
  destruct (String.eqb k k0) eqn:E; auto.
  apply String.eqb_eq in E. now subst.
Qed.
End DraftMaps.

(** ** Each primitive as one assignment to the closure

    The primitives below branch on the closure's variables; here each is
    rewritten as a single record whose fields carry the branches, so that
    a sequence of them can be evaluated on a symbolic controller. *)

Lemma World_eta w :
  w = mkWorld (drafts w) (status w) (idleTimer w) (localPersistTimer w)
        (flushing w) (needsTrailingFlush w) (destroyed w) (storageArea w)
        (nowMs w) (tasks w) (nextTask w) (trace w).
Proof. now destruct w. Qed.

Lemma setStatus_eq s w :
  setStatus s w =
  mkWorld (drafts w) s (idleTimer w) (localPersistTimer w)
    (flushing w) (needsTrailingFlush w) (destroyed w) (storageArea w)
    (nowMs w) (tasks w) (nextTask w)
    (trace w ++ if Status_eqb (status w) s then [] else [OStatus s]).
Proof.
  unfold setStatus. destruct (Status_eqb (status w) s) eqn:E.
  - rewrite app_nil_r. destruct w as [dr s0 it lt fl nt de sa now tk nx tr].
    cbn [status] in E. cbn. f_equal. now destruct s0, s.
  - reflexivity.
Qed.

Lemma persistDrafts_eq w :
  persistDrafts w =
  mkWorld (drafts w) (status w) (idleTimer w) (localPersistTimer w)
    (flushing w) (needsTrailingFlush w) (destroyed w)
    (match storageArea w with
     | Some _ =>
         Some {| storedDrafts := Some (normalizeDraftMap (nowMs w) (Some (drafts w)));
                 storedMeta := Some (status w, nowMs w) |}
     | None => None
     end)
    (nowMs w) (tasks w) (nextTask w)
    (trace w ++
     match storageArea w with
     | Some _ => [OStore (normalizeDraftMap (nowMs w) (Some (drafts w))) (status w) (nowMs w)]
     | None => []
     end).
Proof.
  unfold persistDrafts. destruct (storageArea w) eqn:E.
  - reflexivity.
  - rewrite app_nil_r. rewrite <- E. apply World_eta.
Qed.

Lemma settleDraft_eq entry w :
  settleDraft entry w =
  mkWorld (if superseded entry (drafts w) then drafts w
           else Obj.remove (cvTypeId entry) (drafts w))
    (status w) (idleTimer w) (localPersistTimer w) (flushing w)
    (if superseded entry (drafts w) then true else needsTrailingFlush w)
    (destroyed w) (storageArea w) (nowMs w) (tasks w) (nextTask w) (trace w).
Proof.
  unfold settleDraft, superseded.
  destruct (Obj.get (cvTypeId entry) (drafts w)) as [l | ]; [ | reflexivity].
  destruct (localUpdatedAtMs l <=? localUpdatedAtMs entry); reflexivity.
Qed.

Lemma absorbRemoteState_eq remoteState w :
  absorbRemoteState remoteState w =
  let pruned := pruneDraftsAgainstRemote (drafts w) remoteState in
  let idle := Obj.isEmpty pruned && negb (flushing w) in
  mkWorld pruned (if idle then Saved else status w)
    (idleTimer w) (localPersistTimer w) (flushing w) (needsTrailingFlush w)
    (destroyed w) (storageArea w) (nowMs w) (tasks w) (nextTask w)
    (trace w ++ if idle && negb (Status_eqb (status w) Saved)
                then [OStatus Saved] else []).
Proof.
  unfold absorbRemoteState, hasPendingDrafts. cbn [drafts withDrafts flushing].
  rewrite Bool.negb_involutive.
  destruct (Obj.isEmpty _ && negb (flushing w)).
  - rewrite setStatus_eq. cbn. now destruct (Status_eqb (status w) Saved).
  - cbn. now rewrite app_nil_r.
Qed.

Lemma scheduleTypeSave_eq k d b w :
  k <> "" ->
  scheduleTypeSave k d b w =
  mkWorld (Obj.set k (mkDraft k d (nowMs w) b true) (drafts w)) Pending
    true true (flushing w) (flushing w || needsTrailingFlush w)
    (destroyed w) (storageArea w) (nowMs w) (tasks w) (nextTask w)
    (trace w ++ if Status_eqb (status w) Pending then [] else [OStatus Pending]).
Proof.
  intros Hk. apply String.eqb_neq in Hk. unfold scheduleTypeSave. rewrite Hk.
  rewrite setStatus_eq, deepClone_id.
  unfold scheduleLocalPersist, scheduleIdleFlush, clearIdleTimer, clearLocalPersistTimer.
  cbn. now destruct (flushing w).
Qed.

Create HintDb blocks.
#[local] Hint Unfold flush restoreDrafts restoreLoaded performFlush
  writeSucceeded writeFailed reloadSucceeded nextEntry startPass drainFailed
  drainSucceeded finallyPersist sendWrite flushReturn destroy scheduleIdleFlush
  scheduleLocalPersist clearIdleTimer clearLocalPersistTimer hasPendingDrafts
  : blocks.

Ltac fields :=
  cbn [drafts status idleTimer localPersistTimer flushing needsTrailingFlush
       destroyed storageArea nowMs tasks nextTask trace].

Ltac is_base w :=
  first [ is_var w
        | match w with mkWorld _ _ _ _ _ _ _ _ _ _ _ _ => idtac end ].

(** One assignment, applied to a world whose fields are known. *)
Ltac assign :=
  match goal with
  | |- context [?f ?w] =>
      match type of w with World => idtac end;
      is_base w;
      match type of (f w) with World => idtac end;
      first
        [ rewrite (setStatus_eq _ w)
        | rewrite (persistDrafts_eq w)
        | rewrite (settleDraft_eq _ w)
        | rewrite (absorbRemoteState_eq _ w)
        | let t := eval cbv beta delta
                     [withDrafts withStatus withIdleTimer withLocalPersistTimer
                      withFlushing withNeedsTrailingFlush withDestroyed
                      withStorageArea withNowMs withTasks withNextTask emit
                      suspend finish] in (f w) in
          progress change (f w) with t ];
      cbv zeta; fields
  end.

Ltac norm := autounfold with blocks; cbv zeta; fields; repeat assign.

Ltac split_world :=
  match goal with
  | |- context [match ?c with Some _ => _ | None => ?b end] =>
      is_var c; match type of b with World => destruct c eqn:? end
  | |- context [match ?c with [] => ?a | _ :: _  => _ end] =>
      is_var c; match type of a with World => destruct c eqn:? end
  | |- context [if ?c then ?a else ?b] =>
      match type of a with World => is_base a; is_base b; destruct c eqn:? end
  | |- context [match ?c with Some _ => _ | None => ?b end] =>
      match type of b with World => is_base b; destruct c eqn:? end
  | |- context [match ?c with [] => ?a | _ :: _  => _ end] =>
      match type of a with World => is_base a; destruct c eqn:? end
  end.

(** ** Tearing down *)

Lemma destroyed_step w ev : destroyed w = true -> destroyed (step w ev) = true.
Proof.
  intros H. destruct ev; unfold step, scheduleTypeSave.
  all: try (destruct (getTask task (tasks w)) as [[] | ]; try destruct reply).
  all: norm; repeat (split_world; norm); congruence.
Qed.

Lemma destroyed_run evs : forall w,
  destroyed w = true -> destroyed (run w evs) = true.
Proof.
  induction evs as [ | ev evs IH]; intros w H; simpl; auto.
  apply IH. now apply destroyed_step.
Qed.

(** C10.  Once [destroy()] has been called, whatever happens afterwards,
    a call of [flush] returns [{ok: false, reason: 'destroyed', status}]
    in the same turn: nothing is sent, nothing is stored, no call is left
    suspended, and the drafts and the status are as before. *)
Theorem flush_after_destroy_returns_destroyed w evs r :
  let w1 := run (step w EvDestroy) evs in
  let w2 := step w1 (EvFlush r) in
  w2 = emit (OFlushReturn (nextTask w1)
               {| ok := false;
                  reason := Some "destroyed";
                  resultStatus := status w1 |})
         (withNextTask (S (nextTask w1)) w1)
  /\ commandsOf (trace w2) = commandsOf (trace w1)
  /\ storageArea w2 = storageArea w1
  /\ tasks w2 = tasks w1
  /\ drafts w2 = drafts w1
  /\ status w2 = status w1.
Proof.
  intros w1 w2.
  assert (Hd : destroyed w1 = true).
  { apply destroyed_run. unfold step, destroy. norm. reflexivity. }
  assert (E : w2 = emit (OFlushReturn (nextTask w1)
               {| ok := false;
                  reason := Some "destroyed";
                  resultStatus := status w1 |})
         (withNextTask (S (nextTask w1)) w1)).
  { unfold w2, step, flush. cbv zeta. cbn [destroyed withNextTask status].
    rewrite Hd. reflexivity. }
  split; [exact E | ]. rewrite E. cbn.
  unfold commandsOf. rewrite flat_map_app. cbn. rewrite app_nil_r. auto.
Qed.

(** ** One draft per entity *)

Lemma wellKeyed_if (c : bool) a b :
  wellKeyed a -> wellKeyed b -> wellKeyed (if c then a else b).
Proof. now destruct c. Qed.

Create HintDb keyed.
#[local] Hint Resolve wellKeyed_nil wellKeyed_remove wellKeyed_prune
  wellKeyed_normalizeEntries wellKeyed_if : keyed.

Lemma wellKeyed_normalizeDraftMap dateNow raw :
  wellKeyed (normalizeDraftMap dateNow raw).
Proof. destruct raw; simpl; auto with keyed. Qed.

#[local] Hint Resolve wellKeyed_normalizeDraftMap : keyed.

Lemma wellKeyed_step w ev :
  wellKeyed (drafts w) -> wellKeyed (drafts (step w ev)).
Proof.
  intros H. destruct ev; unfold step.
  2: { destruct (String.eqb cvTypeId0 "") eqn:E.
       - unfold scheduleTypeSave. now rewrite E.
       - apply String.eqb_neq in E. rewrite scheduleTypeSave_eq by assumption.
         fields. now apply wellKeyed_set. }
  all: try (destruct (getTask task (tasks w)) as [[] | ]; try destruct reply).
  all: norm; repeat (split_world; norm); auto 6 with keyed.
Qed.

Lemma wellKeyed_reachable w : reachable w -> wellKeyed (drafts w).
Proof.
  induction 1 as [storage clock | w ev Hw IH].
  - apply wellKeyed_nil.
  - now apply wellKeyed_step.
Qed.

(** C4.  In every state the controller reaches through ordinary
    identifiers the draft store holds at most one draft per entity
    identifier.  An edit of an entity with an ordinary identifier stores
    one draft made of the new payload, the new base version, the dirty
    flag and the current time under that identifier: it takes the place of
    the entity's earlier draft if there is one (the store does not grow)
    and leaves the drafts of the other entities alone. *)
Theorem one_draft_per_entity w :
  ordinary w ->
  NoDup (Obj.keys (drafts w))
  /\ (forall k, (count_occ string_dec (Obj.keys (drafts w)) k <= 1)%nat)
  /\ forall k d b,
       k <> "" -> ordinaryId k = true ->
       let w' := step w (EvScheduleTypeSave k d b) in
       Obj.get k (drafts w') = Some (mkDraft k d (nowMs w) b true)
       /\ NoDup (Obj.keys (drafts w'))
       /\ List.length (drafts w') =
            match Obj.get k (drafts w) with
            | Some _ => List.length (drafts w)
            | None => S (List.length (drafts w))
            end
       /\ forall k', k' <> k -> Obj.get k' (drafts w') = Obj.get k' (drafts w).
Proof.
  intros Ho. pose proof (ordinary_reachable w Ho) as Hr.
  pose proof (wellKeyed_reachable w Hr) as [Hnd _].
  split; [exact Hnd | ]. split.
  - now apply NoDup_count_occ.
  - intros k d b Hk Hid w'. unfold w', step.
    rewrite scheduleTypeSave_eq by assumption. fields.
    repeat split.
    + apply ObjFacts.get_set_same.
    + now apply ObjFacts.NoDup_keys_set.
    + apply ObjFacts.length_set.
    + intros k' Hk'. now apply ObjFacts.get_set_other.
Qed.

Lemma one_draft_per_entity_witness :
  let w := step (createSyncController None 100)
             (EvScheduleTypeSave "type_1" (JObj [("marker", JStr "first")])
                "remote_a") in
  let w' := step w
              (EvScheduleTypeSave "type_1" (JObj [("marker", JStr "second")])
                 "remote_b") in
  (ordinary w /\ "type_1" <> "" /\ ordinaryId "type_1" = true)
  /\ Obj.get "type_1" (drafts w')
     = Some (mkDraft "type_1" (JObj [("marker", JStr "second")]) 100
               "remote_b" true)
  /\ List.length (drafts w') = 1%nat.
Proof.
  intros w w'.
  assert (Hr : ordinary w)
    by (apply ordinary_step; [now apply ordinary_init | reflexivity]).
  assert (Hk : "type_1" <> "") by discriminate.
  assert (Hid : ordinaryId "type_1" = true) by reflexivity.
  split; [repeat split; assumption | ].
  destruct (one_draft_per_entity w Hr) as (_ & _ & Hedit).
  destruct (Hedit "type_1" (JObj [("marker", JStr "second")]) "remote_b" Hk Hid)
    as (Hget & _ & Hlen & _).
  split; [exact Hget | exact Hlen].
Defined.

(** ** A write that succeeded *)

Lemma get_prune o remoteState k :
  NoDup (Obj.keys o) ->
  Obj.get k (pruneDraftsAgainstRemote o remoteState)
  = if lists remoteState k then Obj.get k o else None.
Proof.
  intros Hnd. destruct remoteState as [[u [types | ]] | ]; try reflexivity.
  rewrite (pruneDraftsAgainstRemote_filter _ (mkRemote u (Some types)) types)
    by auto.
  cbn [lists]. apply (get_filter_keys (hasId (knownTypeIds types))).
Qed.

Lemma superseded_newer e o d :
  Obj.get (cvTypeId e) o = Some d ->
  localUpdatedAtMs e < localUpdatedAtMs d ->
  superseded e o = true.
Proof.
  intros Hg Hlt. unfold superseded. rewrite Hg.
  apply Bool.negb_true_iff, Z.leb_gt. exact Hlt.
Qed.

Lemma superseded_not_newer e o :
  (forall d, Obj.get (cvTypeId e) o = Some d ->
             localUpdatedAtMs d <= localUpdatedAtMs e) ->
  superseded e o = false.
Proof.
  intros H. unfold superseded. destruct (Obj.get (cvTypeId e) o) as [d | ]; auto.
  apply Bool.negb_false_iff, Z.leb_le. now apply H.
Qed.

Lemma drafts_after_write w t r e rest rc st :
  getTask t (tasks w) = Some (SyncWriting r e rest rc) ->
  drafts (step w (EvNetReply t (NetOk st)))
  = match st with
    | Some s => pruneDraftsAgainstRemote (drafts (settleDraft e w)) (Some s)
    | None => drafts (settleDraft e w)
    end.
Proof.
  intros Ht. unfold step. rewrite Ht.
  destruct st; norm; repeat (split_world; norm); reflexivity.
Qed.

Lemma reachable_run evs : forall w, reachable w -> reachable (run w evs).
Proof.
  induction evs as [ | ev evs IH]; intros w H; simpl; auto.
  apply IH. now apply reachable_step.
Qed.

(** ** Running a schedule on a symbolic controller *)

Ltac compute_small :=
  cbn [Obj.isEmpty Obj.get Obj.set Obj.remove Obj.values Obj.keys negb andb orb
       Status_eqb getTask dropTask map fst snd sortByTime fold_right fold_left
       insertByTime superseded cvTypeId data localUpdatedAtMs
       baseRemoteUpdatedAt dirty app storedDrafts storedMeta Nat.eqb].

(** Evaluates the first step of a run whose start is known, resolving the
    tests that are left with [tac]. *)
Ltac first_step tac :=
  match goal with
  | |- context [step ?w0 ?ev] =>
      is_base w0;
      let x := fresh "x" in
      let H := fresh "H" in
      evar (x : World);
      assert (H : step w0 ev = x);
      [ unfold step; fields; cbn [getTask Nat.eqb]; rewrite ?Nat.eqb_refl;
        cbv beta iota;
        repeat (progress (norm; compute_small; tac));
        subst x; reflexivity
      | rewrite H; clear H; subst x ]
  end.

Ltac resolve_eqb :=
  rewrite ?Nat.eqb_refl, ?String.eqb_refl, ?Z.leb_refl.

Lemma flat_map_snoc {A B} (f : A -> list B) l x :
  flat_map f (l ++ [x]) = flat_map f l ++ f x.
Proof. rewrite flat_map_app. simpl. now rewrite app_nil_r. Qed.

Ltac trace_facts :=
  unfold statusesOf, commandsOf, returnsOf, errorsOf, restoredOf;
  repeat rewrite flat_map_snoc;
  repeat rewrite flat_map_app;
  cbn [flat_map app];
  repeat rewrite app_nil_r;
  repeat rewrite <- app_assoc;
  cbn [app].

Lemma getTask_dropTask t l : getTask t (dropTask t l) = None.
Proof.
  induction l as [ | [t' pc] rest IH]; simpl; auto.
  destruct (Nat.eqb t t') eqn:E; auto. simpl. now rewrite E.
Qed.

(** ** A flush without drafts *)

(** C6.  On a controller that has not been destroyed, a call of [flush]
    that finds the draft store empty sends no command and leaves the
    drafts, the flushing flag and, when the status is saved or error, the
    status as they were: nothing is reported to the status callback, and
    the call returns that status. *)
Theorem empty_flush_is_noop w r :
  drafts w = [] ->
  destroyed w = false ->
  let t := nextTask w in
  let w' := run w [EvFlush r; EvStorageDone t] in
  commandsOf (trace w') = commandsOf (trace w)
  /\ drafts w' = []
  /\ flushing w' = flushing w
  /\ getTask t (tasks w') = None
  /\ (status w = Saved \/ status w = Error ->
      status w' = status w
      /\ statusesOf (trace w') = statusesOf (trace w)
      /\ returnsOf (trace w')
         = returnsOf (trace w)
           ++ [{| ok := negb (Status_eqb (status w) Error);
                  reason := None;
                  resultStatus := status w |}]).
Proof.
  intros Hd Hx t w'. subst t w'.
  destruct w as [dr s it lt fl nt de sa now tk nx tr].
  cbn [drafts status flushing destroyed nextTask trace tasks] in *. subst dr de.
  unfold run. cbn [fold_left].
  destruct s, fl, sa as [store | ];
    first_step idtac; first_step resolve_eqb; fields; trace_facts;
    rewrite ?getTask_dropTask;
    (split; [ | split; [ | split; [ | split]]]; auto;
     intros [H | H]; try discriminate H; auto).
Qed.

Lemma empty_flush_is_noop_witness :
  let w := createSyncController (Some (mkStorage None None)) 100 in
  let w' := run w [EvFlush "manual"; EvStorageDone 0] in
  (drafts w = [] /\ destroyed w = false)
  /\ commandsOf (trace w') = []
  /\ status w' = Saved
  /\ statusesOf (trace w') = []
  /\ returnsOf (trace w')
     = [{| ok := true; reason := None; resultStatus := Saved |}].
Proof.
  intros w w'.
  assert (Hd : drafts w = []) by reflexivity.
  assert (Hx : destroyed w = false) by reflexivity.
  split; [split; assumption | ].
  destruct (empty_flush_is_noop w "manual" Hd Hx) as (Hc & _ & _ & _ & Hs).
  destruct (Hs (or_introl eq_refl)) as (Hst & Hcb & Hret).
  repeat split; assumption.
Defined.

(** ** Status reporting *)

Ltac split_values :=
  repeat match goal with
         | |- context [if ?c then _ else _] =>
             lazymatch c with
             | context [if _ then _ else _] => fail
             | _ => destruct c eqn:?
             end
         end.

Lemma saving_means_flushing_step w ev :
  (status w = Saving -> flushing w = true) ->
  status (step w ev) = Saving -> flushing (step w ev) = true.
Proof.
  intros H. destruct ev; unfold step.
  2: { unfold scheduleTypeSave. destruct (String.eqb cvTypeId0 ""); [exact H | ].
       norm. destruct (flushing w); norm; discriminate. }
  all: try (destruct (getTask task (tasks w)) as [[] | ]; try destruct reply).
  all: norm; repeat (split_world; norm); auto; try discriminate.
  all: split_values; auto; discriminate.
Qed.

Lemma saving_means_flushing w :
  reachable w -> status w = Saving -> flushing w = true.
Proof.
  induction 1 as [storage clock | w ev Hw IH].
  - discriminate.
  - now apply saving_means_flushing_step.
Qed.

Lemma isEmpty_true {V} (o : Obj.t V) : Obj.isEmpty o = true -> o = [].
Proof. now destruct o. Qed.

Lemma isEmpty_false {V} (o : Obj.t V) : Obj.isEmpty o = false -> o <> [].
Proof. now destruct o. Qed.

Ltac emptiness :=
  repeat match goal with
         | H : negb _ = false |- _ => apply Bool.negb_false_iff in H
         | H : negb _ = true |- _ => apply Bool.negb_true_iff in H
         | H : _ && _ = true |- _ => apply Bool.andb_true_iff in H; destruct H
         | H : Obj.isEmpty _ = true |- _ => apply isEmpty_true in H
         | H : Obj.isEmpty _ = false |- _ => apply isEmpty_false in H
         end.

Lemma leaving_saving w ev :
  status w = Saving ->
  status (step w ev) <> Saving ->
  statusesOf (trace (step w ev)) = statusesOf (trace w) ++ [status (step w ev)]
  /\ ((status (step w ev) = Saved /\ drafts (step w ev) = [])
      \/ (status (step w ev) = Pending /\ drafts (step w ev) <> [])
      \/ (status (step w ev) = Error
          /\ exists t c r e rest,
               ev = EvNetReply t (NetError c)
               /\ (getTask t (tasks w) = Some (SyncReloading r e rest)
                   \/ exists rc,
                        getTask t (tasks w) = Some (SyncWriting r e rest rc)
                        /\ String.eqb c "STATE_CONFLICT" && negb rc = false))).
Proof.
  intros Hs. destruct ev; unfold step.
  2: { unfold scheduleTypeSave. destruct (String.eqb cvTypeId0 "") eqn:E; [congruence | ].
       norm. rewrite Hs. intros _. destruct (flushing w); norm; trace_facts.
       all: split; [reflexivity | right; left; split; [reflexivity | ]].
       all: destruct (drafts w) as [ | [k0 v0] rest]; simpl; try discriminate.
       all: destruct (String.eqb cvTypeId0 k0); discriminate. }
  all: try (destruct (getTask task (tasks w)) as [[] | ] eqn:Ht; try destruct reply).
  all: norm; repeat (split_world; norm); rewrite ?Hs; try congruence.
  all: intros Hne; split_values; try congruence.
  all: try match goal with H : _ = _ |- _ => cbn in H; discriminate H end.
  all: emptiness; try congruence.
  all: compute_small; destruct (storageArea w); trace_facts.
  all: (split; [reflexivity | ]).
  all: first
    [ left; split; [reflexivity | assumption]
    | right; left; split; [reflexivity | assumption]
    | right; right; split; [reflexivity | ];
      do 5 eexists; split; [reflexivity | ];
      first [ left; eassumption | right; eexists; split; eassumption ]
    | idtac ].
Qed.

Lemma prune_nil remoteState : pruneDraftsAgainstRemote [] remoteState = [].
Proof. now destruct remoteState as [[u [types | ]] | ]. Qed.

Ltac resolve_tests :=
  rewrite ?scheduleTypeSave_eq by assumption; unfold superseded;
  compute_small; resolve_eqb; rewrite ?prune_nil.

(** One edit on an idle controller and the flush that follows it, when
    the write succeeds at once or after one recovered conflict. *)
Lemma edit_flush_run w k d b r replies :
  drafts w = [] -> flushing w = false -> destroyed w = false -> k <> "" ->
  (exists st, replies = [NetOk st])
  \/ (exists st0 st, replies = [NetError "STATE_CONFLICT"; NetOk st0; NetOk st]) ->
  let w' := run w (EvScheduleTypeSave k d b
                   :: flushTurns (nextTask w) r replies) in
  statusesOf (trace w')
  = statusesOf (trace w)
    ++ (if Status_eqb (status w) Pending then [] else [Pending])
    ++ [Saving; Saved]
  /\ commandsOf (trace w')
     = commandsOf (trace w)
       ++ match replies with
          | [_] => [CV_UPDATE_TYPE k d r]
          | _ => [CV_UPDATE_TYPE k d r; STATE_LOAD; CV_UPDATE_TYPE k d r]
          end
  /\ returnsOf (trace w')
     = returnsOf (trace w)
       ++ [{| ok := true; reason := None; resultStatus := Saved |}]
  /\ status w' = Saved
  /\ drafts w' = [].
Proof.
  intros Hd Hf Hx Hk Hreplies w'. subst w'.
  destruct w as [dr s it lt fl nt de sa now tk nx tr].
  cbn [drafts status flushing destroyed nextTask trace tasks] in *. subst.
  unfold run, flushTurns.
  destruct Hreplies as [[st ->] | (st0 & st & ->)]; cbn [map app fold_left].
  - destruct sa as [store | ], st as [s1 | ]; do 5 first_step resolve_tests;
      fields; split_values; trace_facts; repeat split; reflexivity.
  - destruct sa as [store | ], st0 as [s0 | ], st as [s1 | ];
      do 7 first_step resolve_tests; fields; split_values; trace_facts;
      repeat split; reflexivity.
Qed.



(** ** Coalescing *)

Lemma run_app w evs1 evs2 : run w (evs1 ++ evs2) = run (run w evs1) evs2.
Proof. unfold run. apply fold_left_app. Qed.

Lemma set_set {V} k (v v' : V) o : Obj.set k v (Obj.set k v' o) = Obj.set k v o.
Proof.
  induction o as [ | [k0 v0] rest IH]; simpl.
  - now rewrite String.eqb_refl.
  - destruct (String.eqb k k0) eqn:E; simpl; rewrite E; [reflexivity | ].
    now rewrite IH.
Qed.

(** A burst of edits of one entity, whatever the controller is doing. *)
Lemma burst_of_edits k tN dN bN edits : forall w,
  k <> "" ->
  let w1 := run w (editTurns k (edits ++ [(tN, dN, bN)])) in
  drafts w1 = Obj.set k (mkDraft k dN tN bN true) (drafts w)
  /\ status w1 = Pending
  /\ idleTimer w1 = true
  /\ flushing w1 = flushing w
  /\ needsTrailingFlush w1 = flushing w || needsTrailingFlush w
  /\ destroyed w1 = destroyed w
  /\ nextTask w1 = nextTask w
  /\ tasks w1 = tasks w
  /\ storageArea w1 = storageArea w
  /\ commandsOf (trace w1) = commandsOf (trace w)
  /\ returnsOf (trace w1) = returnsOf (trace w).
Proof.
  induction edits as [ | [[t d] b] edits IH]; intros w Hk.
  - cbn [app editTurns flat_map fst snd run fold_left].
    do 2 first_step resolve_tests. fields. trace_facts.
    destruct (Status_eqb (status w) Pending); rewrite ?app_nil_r;
      repeat split; reflexivity.
  - cbn [app editTurns flat_map fst snd].
    fold (editTurns k (edits ++ [(tN, dN, bN)])).
    change (run w (EvClock t :: EvScheduleTypeSave k d b :: ?rest))
      with (run (step (step w (EvClock t)) (EvScheduleTypeSave k d b)) rest).
    destruct (IH (step (step w (EvClock t)) (EvScheduleTypeSave k d b)) Hk)
      as (Hd1 & Hs1 & Hi1 & Hf1 & Hn1 & Hx1 & Hnx1 & Ht1 & Hsa1 & Hc1 & Hr1).
    cbv zeta. rewrite Hd1, Hs1, Hi1, Hf1, Hn1, Hx1, Hnx1, Ht1, Hsa1, Hc1, Hr1.
    do 2 first_step resolve_tests. fields. trace_facts.
    rewrite set_set.
    destruct (Status_eqb (status w) Pending), (flushing w);
      rewrite ?app_nil_r; repeat split; reflexivity.
Qed.

(** ** Restoring drafts after a reload *)

Lemma hasId_In ids k : hasId ids k = true <-> In k ids.
Proof.
  unfold hasId. rewrite existsb_exists. split.
  - intros (x & Hin & Heq). apply String.eqb_eq in Heq. now subst.
  - intros Hin. exists k. split; [assumption | apply String.eqb_refl].
Qed.

(** What [restoreDrafts] does on a controller that was just created. *)
Lemma restore_run sd meta clock remote :
  let w := createSyncController (Some (mkStorage sd meta)) clock in
  let w' := run w [EvRestoreDrafts remote; EvStorageDone 0; EvStorageDone 0] in
  let restored :=
    pruneDraftsAgainstRemote (normalizeDraftMap clock sd) remote in
  drafts w' = restored
  /\ status w' = (if Obj.isEmpty restored then Saved else Pending)
  /\ statusesOf (trace w') = (if Obj.isEmpty restored then [] else [Pending])
  /\ restoredOf (trace w') = [applyDraftsToRemoteState remote restored]
  /\ commandsOf (trace w') = []
  /\ storageArea w'
     = Some {| storedDrafts := Some (normalizeDraftMap clock (Some restored));
               storedMeta :=
                 Some (if Obj.isEmpty restored then Saved else Pending, clock) |}.
Proof.
  intros w w' restored. subst w w'. unfold run, createSyncController.
  cbn [fold_left]. first_step resolve_tests. fold restored.
  destruct (Obj.isEmpty restored) eqn:E;
    first_step ltac:(fold restored; rewrite ?E; resolve_tests);
    first_step resolve_tests; fields; trace_facts; repeat split; reflexivity.
Qed.

(** ** One drain at a time *)

Lemma getTask_drop_other t t' l :
  getTask t' (dropTask t l) = if Nat.eqb t' t then None else getTask t' l.
Proof.
  induction l as [ | [t0 pc] rest IH]; simpl.
  - now destruct (Nat.eqb t' t).
  - destruct (Nat.eqb t t0) eqn:E.
    + apply Nat.eqb_eq in E. subst t0. rewrite IH.
      now destruct (Nat.eqb t' t).
    + simpl. rewrite IH. destruct (Nat.eqb t' t0) eqn:E'; auto.
      apply Nat.eqb_eq in E'. subst t0. rewrite Nat.eqb_sym in E.
      now rewrite E.
Qed.

Ltac task_cases :=
  repeat match goal with
         | H : context [getTask ?x ((?t, _) :: _)] |- _ =>
             cbn [getTask] in H
         | H : context [getTask ?x (dropTask ?t _)] |- _ =>
             rewrite getTask_drop_other in H
         | H : context [if Nat.eqb ?x ?t then _ else _] |- _ =>
             let E := fresh "E" in
             destruct (Nat.eqb x t) eqn:E;
             [apply Nat.eqb_eq in E; subst | apply Nat.eqb_neq in E]
         | H : Some _ = Some _ |- _ => injection H as <-
         | H : None = Some _ |- _ => discriminate H
         end.

Lemma oneDrain_step w ev : oneDrain w -> oneDrain (step w ev).
Proof.
  intros [Hidle Hone].
  destruct ev as [c | k d b | r | | rs | rs | | | task | task reply]; unfold step.
  2: { unfold scheduleTypeSave. destruct (String.eqb k ""); [now split | ].
       norm. destruct (flushing w) eqn:Ef; norm; split; auto; discriminate. }
  all: try (destruct (getTask task (tasks w)) as [[] | ] eqn:Ht; try destruct reply).
  all: norm; repeat (split_world; norm).
  all: try (split; assumption).
  all: split; fields; intros; task_cases; cbn [draining] in *; try congruence; eauto.
  all: try (eapply Hone;
            [ eassumption | eassumption
            | first [assumption | reflexivity]
            | first [assumption | reflexivity] ]).
  all: try (exfalso;
            match goal with
            | Hf : flushing ?w = false, Hg : getTask ?t (tasks ?w) = Some ?pc |- _ =>
                specialize (Hidle Hf t pc Hg); cbn [draining] in Hidle;
                discriminate Hidle
            end).
  all: try (match goal with
            | |- draining ?pc = false =>
                destruct (draining pc) eqn:Ed; [exfalso | reflexivity]
            end;
            match goal with
            | Hg : getTask ?t (tasks ?w) = Some ?pc, Ed : draining ?pc = true,
              Hne : ?t <> ?t', Ht : getTask ?t' (tasks ?w) = Some _ |- _ =>
                apply Hne; eapply Hone; [exact Hg | exact Ht | exact Ed | reflexivity]
            end).
  all: try match goal with
            | Hi : false = false -> _ |- _ => specialize (Hi eq_refl)
            end.
  all: try (exfalso;
            match goal with
            | Hi : forall t pc, getTask t _ = Some pc -> draining pc = false,
              Hg : getTask ?t _ = Some ?pc, Hd : draining ?pc = true |- _ =>
                rewrite (Hi t pc Hg) in Hd; discriminate Hd
            end).
Qed.

Lemma oneDrain_reachable w : reachable w -> oneDrain w.
Proof.
  induction 1 as [storage clock | w ev Hw IH].
  - split; intros; discriminate.
  - now apply oneDrain_step.
Qed.

Lemma pass_end w t r e rc st :
  getTask t (tasks w) = Some (SyncWriting r e [] rc) ->
  let w' := step w (EvNetReply t (NetOk st)) in
  let requested := needsTrailingFlush w || superseded e (drafts w) in
  match (if requested then sortByTime (Obj.values (drafts w')) else []) with
  | e' :: rest' =>
      getTask t (tasks w') = Some (SyncWriting r e' rest' false)
      /\ commandsOf (trace w')
         = commandsOf (trace w) ++ [CV_UPDATE_TYPE (cvTypeId e') (data e') r]
      /\ needsTrailingFlush w' = false
      /\ flushing w' = flushing w
  | [] =>
      getTask t (tasks w') = Some (FlushFinishing r)
      /\ commandsOf (trace w') = commandsOf (trace w)
      /\ flushing w' = false
  end.
Proof.
  intros Ht w' requested. subst w' requested. unfold step. rewrite Ht.
  destruct (needsTrailingFlush w) eqn:En, (superseded e (drafts w)) eqn:Es,
    st as [s | ], (storageArea w) eqn:Ea;
    norm; rewrite ?En, ?Es, ?Ea; cbn [orb];
    repeat (split_world; norm; rewrite ?En, ?Es, ?Ea); try discriminate;
    repeat match goal with
           | H : sortByTime _ = _ |- _ => rewrite H; clear H
           end;
    cbn [getTask]; rewrite ?Nat.eqb_refl; trace_facts; split_values; trace_facts;
    repeat split; reflexivity.
Qed.

Lemma pass_continues w t r e e2 rest rc st :
  getTask t (tasks w) = Some (SyncWriting r e (e2 :: rest) rc) ->
  let w' := step w (EvNetReply t (NetOk st)) in
  getTask t (tasks w') = Some (SyncWriting r e2 rest false)
  /\ commandsOf (trace w')
     = commandsOf (trace w) ++ [CV_UPDATE_TYPE (cvTypeId e2) (data e2) r]
  /\ flushing w' = flushing w.
Proof.
  intros Ht w'. subst w'. unfold step. rewrite Ht.
  destruct st as [s | ]; norm; cbn [getTask]; rewrite Nat.eqb_refl;
    trace_facts; split_values; trace_facts; repeat split; reflexivity.
Qed.

Lemma flush_while_flushing w t r :
  getTask t (tasks w) = Some (FlushPersisting r) -> flushing w = true ->
  let w' := step w (EvStorageDone t) in
  needsTrailingFlush w' = true
  /\ commandsOf (trace w') = commandsOf (trace w)
  /\ drafts w' = drafts w
  /\ status w' = status w
  /\ flushing w' = true
  /\ tasks w' = dropTask t (tasks w).
Proof.
  intros Ht Hf w'. subst w'. unfold step. rewrite Ht. unfold performFlush.
  rewrite Hf. norm. trace_facts. repeat split; auto.
Qed.

Lemma prune_singleton k (v : Draft) remoteState :
  pruneDraftsAgainstRemote [(k, v)] remoteState
  = if lists remoteState k then [(k, v)] else [].
Proof.
  now destruct remoteState as [[u [types | ]] | ].
Qed.

Lemma run_cons w ev evs : run w (ev :: evs) = run (step w ev) evs.
Proof. reflexivity. Qed.

Lemma run_nil w : run w [] = w.
Proof. reflexivity. Qed.

(** An edit, a flush, a burst of edits of some entity while the write is
    in flight, and two writes that succeed. *)
Lemma trailing_run w k1 t1 d1 b1 r k2 edits tN dN bN st1 st2 :
  drafts w = [] -> flushing w = false -> destroyed w = false ->
  k1 <> "" -> k2 <> "" ->
  (k2 = k1 -> t1 < tN) ->
  lists st1 k2 = true ->
  let t := nextTask w in
  let w' := run w ([EvClock t1; EvScheduleTypeSave k1 d1 b1; EvFlush r;
                    EvStorageDone t]
                   ++ editTurns k2 (edits ++ [(tN, dN, bN)])
                   ++ [EvNetReply t (NetOk st1); EvNetReply t (NetOk st2);
                       EvStorageDone t]) in
  commandsOf (trace w')
  = commandsOf (trace w) ++ [CV_UPDATE_TYPE k1 d1 r; CV_UPDATE_TYPE k2 dN r]
  /\ returnsOf (trace w')
     = returnsOf (trace w)
       ++ [{| ok := true; reason := None; resultStatus := Saved |}]
  /\ status w' = Saved
  /\ drafts w' = [].
Proof.
  intros Hd Hf Hx Hk1 Hk2 Hlt Hl t w'. subst t w'.
  destruct w as [dr s it lt fl nt de sa now tk nx tr].
  cbn [drafts status flushing destroyed nextTask trace tasks] in *. subst.
  rewrite run_app. rewrite !run_cons, run_nil.
  destruct sa as [store | ]; do 4 first_step resolve_tests;
    rewrite run_app;
    match goal with
    | |- context [run ?wa (editTurns k2 _)] =>
        destruct (burst_of_edits k2 tN dN bN edits wa Hk2)
          as (Hd1 & Hs1 & _ & Hf1 & Hn1 & Hx1 & Hnx1 & Ht1 & Hsa1 & Hc1 & Hr1);
        destruct (run wa (editTurns k2 (edits ++ [(tN, dN, bN)])))
          as [dr1 s1 it1 lt1 fl1 nt1 de1 sa1 now1 tk1 nx1 tr1]
    end;
    cbn [drafts status flushing destroyed nextTask trace tasks idleTimer
         needsTrailingFlush storageArea orb Obj.set] in *;
    subst dr1 s1 fl1 nt1 de1 nx1 tk1 sa1;
    revert Hc1 Hr1; trace_facts; intros Hc1 Hr1;
    unfold run; cbn [fold_left];
    (destruct (String.eqb k2 k1) eqn:E;
     [ apply String.eqb_eq in E; subst k2;
       pose proof (proj2 (Z.leb_gt tN t1) (Hlt eq_refl)) as Hgt
     | rewrite String.eqb_sym in E ]);
    destruct st1 as [r1 | ], st2 as [r2 | ];
    do 3 first_step
         ltac:(rewrite ?prune_singleton, ?Hl, ?E, ?Hgt; resolve_tests;
               rewrite ?E, ?Hgt);
    fields; trace_facts; rewrite Hc1, Hr1; split_values; trace_facts;
    repeat split; reflexivity.
Qed.

Lemma flush_called_while_flushing w r :
  flushing w = true -> destroyed w = false ->
  let t := nextTask w in
  let w' := run w [EvFlush r; EvStorageDone t] in
  needsTrailingFlush w' = true
  /\ commandsOf (trace w') = commandsOf (trace w)
  /\ drafts w' = drafts w
  /\ status w' = status w
  /\ flushing w' = true
  /\ (forall t', t' <> t -> getTask t' (tasks w') = getTask t' (tasks w))
  /\ returnsOf (trace w')
     = returnsOf (trace w)
       ++ [{| ok := negb (Status_eqb (status w) Error);
              reason := None;
              resultStatus := status w |}].
Proof.
  intros Hf Hx t w'. subst t w'.
  destruct w as [dr s it lt fl nt de sa now tk nx tr].
  cbn [drafts status flushing destroyed nextTask trace tasks] in *. subst.
  rewrite !run_cons, run_nil.
  destruct sa as [store | ]; do 2 first_step resolve_tests; fields;
    trace_facts; (repeat split; try reflexivity);
    intros t' Hne; rewrite !getTask_drop_other;
    apply Nat.eqb_neq in Hne; now rewrite Hne.
Qed.

(** * Further properties of the controller *)

(** ** The status saved *)

Lemma saved_means_synced_step w ev :
  (status w = Saved -> drafts w = []) ->
  status (step w ev) = Saved -> drafts (step w ev) = [].
Proof.
  intros H.
  destruct ev as [c | k d b | r | | rs | rs | | | task | task reply]; unfold step.
  2: { unfold scheduleTypeSave. destruct (String.eqb k ""); [exact H | ].
       norm. destruct (flushing w); norm; discriminate. }
  all: try (destruct (getTask task (tasks w)) as [[] | ]; try destruct reply).
  all: norm; repeat (split_world; norm); auto; try discriminate.
  all: split_values; emptiness; auto; try discriminate; try congruence.
  all: intros Hs; rewrite (H Hs); cbn [Obj.remove]; now rewrite ?prune_nil.
Qed.

Lemma saved_means_synced_reachable w :
  reachable w -> status w = Saved -> drafts w = [].
Proof.
  induction 1 as [storage clock | w ev Hw IH].
  - reflexivity.
  - now apply saved_means_synced_step.
Qed.

(** X1.  In every state the controller reaches through ordinary
    identifiers (so that no call of [restoreDrafts] throws half way),
    whenever the status is saved the draft store is empty: the controller
    never reports saved while an edit is still waiting to be written. *)
Theorem saved_means_synced w :
  ordinary w -> status w = Saved -> drafts w = [].
Proof.
  intros Hw. induction Hw as [storage clock Hsto | w ev Hw IH Hev].
  - reflexivity.
  - intros Hs. apply saved_means_synced_step; [exact IH | exact Hs].
Qed.

Lemma saved_means_synced_witness :
  let d := JObj [("marker", JStr "draft")] in
  let st := Some (mkRemote "v2" (Some [CvType.mk "type_1" d])) in
  let w := run (createSyncController None 100)
             (EvScheduleTypeSave "type_1" d "remote_a"
              :: flushTurns 0 "manual" [NetOk st]) in
  (ordinary w /\ status w = Saved) /\ drafts w = [].
Proof.
  intros d st w.
  assert (Hr : ordinary w)
    by (apply ordinary_run; [now apply ordinary_init | reflexivity]).
  assert (Hs : status w = Saved) by reflexivity.
  split; [split; assumption | ].
  exact (saved_means_synced w Hr Hs).
Defined.

(** ** The order of the writes of a pass *)

Lemma insertByTime_perm d l : Permutation (d :: l) (insertByTime d l).
Proof.
  induction l as [ | x xs IH]; simpl; auto.
  destruct (localUpdatedAtMs d <=? localUpdatedAtMs x); auto.
  rewrite perm_swap. now constructor.
Qed.

Lemma sortByTime_perm l : Permutation l (sortByTime l).
Proof.
  induction l as [ | d l IH]; simpl; auto.
  rewrite <- insertByTime_perm. now constructor.
Qed.

Lemma insertByTime_sorted d l :
  StronglySorted (fun a b => localUpdatedAtMs a <= localUpdatedAtMs b) l ->
  StronglySorted (fun a b => localUpdatedAtMs a <= localUpdatedAtMs b)
    (insertByTime d l).
Proof.
  induction 1 as [ | x xs Hs IH Hx]; simpl.
  - repeat constructor.
  - destruct (localUpdatedAtMs d <=? localUpdatedAtMs x) eqn:E.
    + apply Z.leb_le in E. constructor; [now constructor | ].
      constructor; [exact E | ].
      rewrite Forall_forall in *. intros y Hy. specialize (Hx y Hy). lia.
    + apply Z.leb_gt in E. constructor; [exact IH | ].
      rewrite Forall_forall in *. intros y Hy.
      apply (Permutation_in _ (Permutation_sym (insertByTime_perm d xs))) in Hy.
      destruct Hy as [<- | Hy]; [lia | now apply Hx].
Qed.

Lemma insertByTime_same_time t d l :
  filter (fun x => localUpdatedAtMs x =? t) (insertByTime d l)
  = filter (fun x => localUpdatedAtMs x =? t) (d :: l).
Proof.
  induction l as [ | x xs IH]; simpl; auto.
  destruct (localUpdatedAtMs d <=? localUpdatedAtMs x) eqn:E; auto.
  apply Z.leb_gt in E. simpl in *. rewrite IH.
  destruct (localUpdatedAtMs d =? t) eqn:Ed;
    destruct (localUpdatedAtMs x =? t) eqn:Ex; auto.
  apply Z.eqb_eq in Ed, Ex. lia.
Qed.

(** X2.  [syncDirtyDrafts] writes the drafts oldest edit first: its list of
    entries is the drafts rearranged in ascending order of their
    timestamps, and drafts with the same timestamp keep the order they
    have in the store. *)
Theorem sortByTime_oldest_first l :
  Permutation l (sortByTime l)
  /\ StronglySorted (fun a b => localUpdatedAtMs a <= localUpdatedAtMs b)
       (sortByTime l)
  /\ forall t,
       filter (fun x => localUpdatedAtMs x =? t) (sortByTime l)
       = filter (fun x => localUpdatedAtMs x =? t) l.
Proof.
  split; [apply sortByTime_perm | split].
  - induction l as [ | d l IH]; simpl; [constructor | ].
    now apply insertByTime_sorted.
  - intros t. induction l as [ | d l IH]; simpl; auto.
    rewrite insertByTime_same_time. simpl. now rewrite IH.
Qed.

(** ** Pruning and normalising a draft map *)

Lemma filter_idem {A} (p : A -> bool) l : filter p (filter p l) = filter p l.
Proof.
  induction l as [ | x l IH]; simpl; auto.
  destruct (p x) eqn:E; simpl; rewrite ?E, IH; reflexivity.
Qed.

Lemma NoDup_keys_filter {V} (p : string * V -> bool) (o : Obj.t V) :
  NoDup (Obj.keys o) -> NoDup (Obj.keys (filter p o)).
Proof.
  unfold Obj.keys. induction o as [ | kv o IH]; simpl; auto.
  intros Hnd. inversion Hnd as [ | ? ? Hnotin Hnd']; subst.
  destruct (p kv); simpl; auto. constructor; auto.
  intros Hin. apply Hnotin. apply in_map_iff in Hin.
  destruct Hin as (x & Hx & Hin). apply filter_In in Hin.
  apply in_map_iff. exists x. tauto.
Qed.

Lemma prune_filter_lists o remoteState :
  NoDup (Obj.keys o) ->
  pruneDraftsAgainstRemote o remoteState
  = filter (fun kv => lists remoteState (fst kv)) o.
Proof.
  intros Hnd. destruct remoteState as [[u [types | ]] | ]; cbn [lists].
  - now rewrite (pruneDraftsAgainstRemote_filter _ (mkRemote u (Some types)) types).
  - simpl. induction o as [ | kv o IH]; simpl; auto. f_equal. apply IH.
    now inversion Hnd.
  - simpl. induction o as [ | kv o IH]; simpl; auto. f_equal. apply IH.
    now inversion Hnd.
Qed.

(** X3.  [pruneDraftsAgainstRemote] on a draft map (an object, so without
    repeated keys) keeps exactly the drafts of the entities the remote
    state lists, each one unchanged and in the order of the map; a state
    whose [cvTypes] is not an array lists everything.  Pruning twice
    against the same state is pruning once. *)
Theorem prune_keeps_listed o remoteState :
  NoDup (Obj.keys o) ->
  pruneDraftsAgainstRemote o remoteState
  = filter (fun kv => lists remoteState (fst kv)) o
  /\ pruneDraftsAgainstRemote (pruneDraftsAgainstRemote o remoteState)
       remoteState
     = pruneDraftsAgainstRemote o remoteState.
Proof.
  intros Hnd. split; [now apply prune_filter_lists | ].
  rewrite (prune_filter_lists o) by assumption.
  rewrite prune_filter_lists by now apply NoDup_keys_filter.
  apply filter_idem.
Qed.

Lemma prune_keeps_listed_witness :
  let d1 := mkDraft "type_1" JNull 5 "v1" true in
  let d2 := mkDraft "type_2" JNull 3 "v1" true in
  let o := [("type_1", d1); ("type_2", d2)] in
  let rs := Some (mkRemote "v2" (Some [CvType.mk "type_2" JNull])) in
  NoDup (Obj.keys o)
  /\ (pruneDraftsAgainstRemote o rs
      = filter (fun kv => lists rs (fst kv)) o
      /\ pruneDraftsAgainstRemote (pruneDraftsAgainstRemote o rs) rs
         = pruneDraftsAgainstRemote o rs).
Proof.
  intros d1 d2 o rs.
  assert (Hnd : NoDup (Obj.keys o)).
  { repeat constructor; simpl; intuition discriminate. }
  split; [exact Hnd | exact (prune_keeps_listed o rs Hnd)].
Defined.

Lemma normalizeDraft_fixed dateNow k d :
  cvTypeId d = k -> dirty d = true -> localUpdatedAtMs d <> 0 ->
  normalizeDraft dateNow k d = d.
Proof.
  intros Hk Hd Ht. destruct d as [i dt t b dr]. simpl in *. subst.
  unfold normalizeDraft. simpl. rewrite deepClone_id.
  apply Z.eqb_neq in Ht. now rewrite Ht.
Qed.

Lemma normalizeDraftMap_fixed dateNow o :
  wellKeyed o ->
  (forall k d, In (k, d) o -> localUpdatedAtMs d <> 0) ->
  normalizeDraftMap dateNow (Some o) = o.
Proof.
  intros Hw Ht. rewrite normalizeDraftMap_keyed by assumption.
  destruct Hw as [_ Hall].
  induction o as [ | [k d] o IH]; simpl; auto.
  f_equal.
  - f_equal. destruct (Hall k d (or_introl eq_refl)) as (_ & Hk & Hd).
    apply normalizeDraft_fixed; auto. apply (Ht k d). now left.
  - apply IH.
    + intros k' d' Hin. apply Hall. now right.
    + intros k' d' Hin. apply (Ht k' d'). now right.
Qed.

Lemma normalizeEntries_stamped dateNow entries :
  dateNow <> 0 ->
  forall k d, In (k, d) (normalizeEntries dateNow entries) ->
              localUpdatedAtMs d <> 0.
Proof.
  intros Hnow. unfold normalizeEntries.
  assert (G : forall output,
    (forall k d, In (k, d) output -> localUpdatedAtMs d <> 0) ->
    forall k d,
      In (k, d)
        (fold_left
           (fun output kv =>
              let '(k, value) := kv in
              if String.eqb k "" then output
              else if negb (dirty value) then output
              else Obj.set k (normalizeDraft dateNow k value) output)
           entries output) ->
      localUpdatedAtMs d <> 0).
  { induction entries as [ | [k0 v0] rest IH]; intros output Hout; simpl; auto.
    apply IH. destruct (String.eqb k0 ""); auto.
    destruct (negb (dirty v0)); auto.
    intros k d Hin. apply In_set in Hin. destruct Hin as [[= -> ->] | Hin].
    - simpl. destruct (localUpdatedAtMs v0 =? 0) eqn:E; auto.
      now apply Z.eqb_neq in E.
    - now apply (Hout k d). }
  apply G. intros k d [].
Qed.

(** X4.  [normalizeDraftMap] turns a candidate whose entries are draft
    records (each with a payload that is a JSON value) into a proper
    draft map: whichever of them the candidate holds (entries without
    the dirty flag, with an empty key, filed under a key that is not
    their identifier, with a zero timestamp), every draft of the result is
    dirty and sits once under its own non-empty identifier.  When the
    clock does not read zero no timestamp of the result is zero, and
    normalising the result again, at any later time, changes nothing: what
    [persistDrafts] writes is what [loadDraftsFromStorage] reads back. *)
Theorem normalizeDraftMap_sanitises dateNow later candidate :
  dateNow <> 0 ->
  wellKeyed (normalizeDraftMap dateNow candidate)
  /\ (forall k d, In (k, d) (normalizeDraftMap dateNow candidate) ->
                  localUpdatedAtMs d <> 0)
  /\ normalizeDraftMap later (Some (normalizeDraftMap dateNow candidate))
     = normalizeDraftMap dateNow candidate.
Proof.
  intros Hnow.
  assert (Hw : wellKeyed (normalizeDraftMap dateNow candidate)).
  { destruct candidate; simpl; [apply wellKeyed_normalizeEntries | apply wellKeyed_nil]. }
  assert (Ht : forall k d, In (k, d) (normalizeDraftMap dateNow candidate) ->
                           localUpdatedAtMs d <> 0).
  { destruct candidate; simpl; [now apply normalizeEntries_stamped | intros ? ? []]. }
  split; [exact Hw | split; [exact Ht | now apply normalizeDraftMap_fixed]].
Qed.

Lemma normalizeDraftMap_sanitises_witness :
  let stale := mkDraft "type_9" (JStr "x") 0 "v1" true in
  let clean := mkDraft "type_1" (JStr "y") 7 "v1" false in
  let candidate := Some [("type_1", stale); ("", stale); ("type_2", clean);
                         ("type_1", stale)] in
  100 <> 0
  /\ (wellKeyed (normalizeDraftMap 100 candidate)
      /\ (forall k d, In (k, d) (normalizeDraftMap 100 candidate) ->
                      localUpdatedAtMs d <> 0)
      /\ normalizeDraftMap 200 (Some (normalizeDraftMap 100 candidate))
         = normalizeDraftMap 100 candidate).
Proof.
  intros stale clean candidate.
  assert (Hnow : 100 <> 0) by lia.
  split; [exact Hnow | exact (normalizeDraftMap_sanitises 100 200 candidate Hnow)].
Defined.

(** ** The flushing flag *)

Lemma freshIds_step w ev : freshIds w -> freshIds (step w ev).
Proof.
  intros Hf.
  destruct ev as [c | k d b | r | | rs | rs | | | task | task reply]; unfold step.
  2: { unfold scheduleTypeSave. destruct (String.eqb k ""); [exact Hf | ].
       norm. destruct (flushing w) eqn:Ef; norm; exact Hf. }
  all: try (destruct (getTask task (tasks w)) as [[] | ] eqn:Ht; try destruct reply).
  all: norm; repeat (split_world; norm).
  all: try exact Hf.
  all: unfold freshIds in *; fields; intros; task_cases;
    repeat match goal with
        | Hf : forall t pc, getTask t (tasks ?w) = Some pc -> _,
          H : getTask _ (tasks ?w) = Some _ |- _ => apply Hf in H
        end; try lia.
Qed.

Lemma freshIds_reachable w : reachable w -> freshIds w.
Proof.
  induction 1 as [storage clock | w ev Hw IH].
  - intros t pc H. discriminate H.
  - now apply freshIds_step.
Qed.

Lemma flushing_means_draining_step w ev :
  freshIds w ->
  (flushing w = true ->
   exists t pc, getTask t (tasks w) = Some pc /\ draining pc = true) ->
  flushing (step w ev) = true ->
  exists t pc, getTask t (tasks (step w ev)) = Some pc /\ draining pc = true.
Proof.
  intros Hf H.
  destruct ev as [c | k d b | r | | rs | rs | | | task | task reply]; unfold step.
  2: { unfold scheduleTypeSave. destruct (String.eqb k ""); [exact H | ].
       norm. destruct (flushing w) eqn:Ef; norm; [auto | discriminate]. }
  all: try (destruct (getTask task (tasks w)) as [[] | ] eqn:Ht; try destruct reply).
  all: norm; repeat (split_world; norm).
  all: try exact H.
  all: fields; try discriminate.
  all: try (intros _; eexists; eexists; split;
            [cbn [getTask]; rewrite Nat.eqb_refl; reflexivity | reflexivity]).
  all: intros Hfl; destruct H as (t0 & pc0 & Hg & Hd);
    [first [assumption | reflexivity] | ].
  all: exists t0, pc0; split; [ | exact Hd].
  all: cbn [getTask]; rewrite getTask_drop_other.
  all: try (destruct (Nat.eqb t0 task) eqn:E;
            [apply Nat.eqb_eq in E; subst t0; rewrite Hg in Ht;
             injection Ht as ->; discriminate Hd
            | exact Hg]).
  all: destruct (Nat.eqb t0 (nextTask w)) eqn:E;
    [apply Nat.eqb_eq in E; apply Hf in Hg; lia | exact Hg].
Qed.

(** X5.  The flushing flag is up exactly while a call of [flush] waits
    for the remote store: when it is up some suspended call waits for the
    answer to a write or to a reload, when it is down none does.  The flag
    therefore never stays up after the drain has ended, whatever the
    order of edits, flushes, restores, timers and replies. *)
Theorem flushing_iff_draining w :
  reachable w ->
  flushing w = true
  <-> exists t pc, getTask t (tasks w) = Some pc /\ draining pc = true.
Proof.
  intros Hw. split.
  - induction Hw as [storage clock | w ev Hw IH].
    + discriminate.
    + apply flushing_means_draining_step; auto. now apply freshIds_reachable.
  - intros (t & pc & Hg & Hd). destruct (flushing w) eqn:E; auto.
    destruct (oneDrain_reachable w Hw) as [Hidle _].
    rewrite (Hidle E t pc Hg) in Hd. discriminate Hd.
Qed.

Lemma flushing_iff_draining_witness :
  let d := JObj [("marker", JStr "draft")] in
  let w := run (createSyncController None 100)
             [EvScheduleTypeSave "type_1" d "remote_a"; EvFlush "manual";
              EvStorageDone 0] in
  reachable w
  /\ (flushing w = true
      <-> exists t pc, getTask t (tasks w) = Some pc /\ draining pc = true).
Proof.
  intros d w.
  assert (Hr : reachable w) by (apply reachable_run, reachable_init).
  split; [exact Hr | exact (flushing_iff_draining w Hr)].
Defined.

(** ** After the controller is destroyed *)

Lemma destroyed_quiet_step w ev :
  destroyed w = true ->
  (forall t pc, getTask t (tasks w) = Some pc -> restoring pc = true) ->
  (forall t pc, getTask t (tasks (step w ev)) = Some pc -> restoring pc = true)
  /\ commandsOf (trace (step w ev)) = commandsOf (trace w).
Proof.
  intros Hd Hr.
  destruct ev as [c | k d b | r | | rs | rs | | | task | task reply]; unfold step.
  2: { unfold scheduleTypeSave. destruct (String.eqb k ""); [now split | ].
       norm. destruct (flushing w) eqn:Ef; norm;
         (split; [exact Hr | split_values; trace_facts; now rewrite ?app_nil_r]). }
  all: try (destruct (getTask task (tasks w)) as [[] | ] eqn:Ht; try destruct reply).
  all: try (apply Hr in Ht; discriminate Ht).
  all: norm; repeat (split_world; norm).
  all: try congruence.
  all: fields; split; [ | split_values; trace_facts; now rewrite ?app_nil_r].
  all: auto.
  all: intros; task_cases; cbn [restoring]; eauto.
Qed.

(** X6.  Once [destroy] has been called, and no call of [flush] is
    suspended at that moment, the controller never sends a command again:
    edits are still taken into the store and timers still fire, but every
    flush returns before it reaches the remote store. *)
Theorem destroyed_sends_nothing evs : forall w,
  destroyed w = true ->
  (forall t pc, getTask t (tasks w) = Some pc -> restoring pc = true) ->
  commandsOf (trace (run w evs)) = commandsOf (trace w).
Proof.
  induction evs as [ | ev evs IH]; intros w Hd Hr; [reflexivity | ].
  rewrite run_cons.
  destruct (destroyed_quiet_step w ev Hd Hr) as [Hr' Hc].
  rewrite IH; auto. now apply destroyed_step.
Qed.

Lemma destroyed_sends_nothing_witness :
  let d := JObj [("marker", JStr "draft")] in
  let w := run (createSyncController (Some (mkStorage None None)) 100)
             [EvScheduleTypeSave "type_1" d "remote_a"; EvDestroy] in
  let evs := [EvScheduleTypeSave "type_2" d "remote_a"; EvIdleTimer;
              EvFlush "manual"; EvStorageDone 0; EvLocalPersistTimer] in
  (destroyed w = true
   /\ (forall t pc, getTask t (tasks w) = Some pc -> restoring pc = true))
  /\ commandsOf (trace (run w evs)) = commandsOf (trace w).
Proof.
  intros d w evs.
  assert (Hd : destroyed w = true) by reflexivity.
  assert (Hr : forall t pc, getTask t (tasks w) = Some pc -> restoring pc = true)
    by (intros t pc H; discriminate H).
  split; [split; assumption | exact (destroyed_sends_nothing evs w Hd Hr)].
Defined.

(** ** What [onStatus] is told *)

Lemma lastChange_app s l1 l2 s1 :
  lastChange s l1 = Some s1 -> lastChange s (l1 ++ l2) = lastChange s1 l2.
Proof.
  revert s. induction l1 as [ | x l1 IH]; simpl; intros s H.
  - now injection H as ->.
  - destruct (Status_eqb s x); [discriminate | auto].
Qed.

Lemma Status_eqb_eq a b : Status_eqb a b = true -> a = b.
Proof. now destruct a, b. Qed.

Ltac status_facts :=
  repeat match goal with
         | E : Status_eqb _ _ = true |- _ => apply Status_eqb_eq in E
         end.

Ltac reported H :=
  cbn [andb Status_eqb] in *; emptiness; status_facts;
  first
    [ exact H
    | rewrite H; congruence
    | rewrite (lastChange_app _ _ _ _ H); cbn [lastChange Status_eqb];
      repeat match goal with
             | E : Status_eqb _ _ = false |- _ => rewrite E
             | E : status _ = _ |- _ => rewrite E
             end;
      cbn [lastChange Status_eqb]; congruence
    | exfalso; congruence
    | discriminate ].

Lemma reported_step w ev :
  lastChange Saved (statusesOf (trace w)) = Some (status w) ->
  lastChange Saved (statusesOf (trace (step w ev))) = Some (status (step w ev)).
Proof.
  intros H.
  destruct ev as [c | k d b | r | | rs | rs | | | task | task reply]; unfold step.
  all: unfold statusesOf in H.
  2: { unfold scheduleTypeSave. destruct (String.eqb k ""); [exact H | ].
       norm. destruct (flushing w) eqn:Ef; norm; split_values; trace_facts;
         rewrite ?app_nil_r; reported H. }
  all: try (destruct (getTask task (tasks w)) as [[] | ] eqn:Ht; try destruct reply).
  all: norm; repeat (split_world; norm).
  all: try exact H.
  all: fields; split_values; trace_facts; rewrite ?app_nil_r; try reported H.
Qed.



(** ** The status pending *)

Lemma set_not_nil {V} k (v : V) o : Obj.set k v o <> [].
Proof.
  destruct o as [ | [k0 v0] o]; simpl; [discriminate | ].
  destruct (String.eqb k k0); discriminate.
Qed.

Lemma pending_means_drafts_step w ev :
  oneDrain w ->
  (flushing w = false -> status w = Pending -> drafts w <> []) ->
  flushing (step w ev) = false -> status (step w ev) = Pending ->
  drafts (step w ev) <> [].
Proof.
  intros [Hidle _] H.
  destruct ev as [c | k d b | r | | rs | rs | | | task | task reply]; unfold step.
  2: { unfold scheduleTypeSave. destruct (String.eqb k ""); [exact H | ].
       norm. destruct (flushing w) eqn:Ef; norm; intros; apply set_not_nil. }
  all: try (destruct (getTask task (tasks w)) as [[] | ] eqn:Ht; try destruct reply).
  all: norm; repeat (split_world; norm).
  all: try exact H.
  all: fields; try discriminate.
  all: split_values; cbn [andb Status_eqb] in *; emptiness; status_facts;
    try discriminate; try congruence; auto.
  all: intros Hfl Hs.
  all: try (specialize (Hidle Hfl _ _ Ht); discriminate Hidle).
  all: match goal with
       | E : _ && negb (flushing _) = false |- _ =>
           rewrite Hfl, Bool.andb_true_r in E
       end; emptiness; assumption.
Qed.

Lemma pending_means_drafts_reachable w :
  reachable w -> flushing w = false -> status w = Pending -> drafts w <> [].
Proof.
  induction 1 as [storage clock | w ev Hw IH].
  - discriminate.
  - apply pending_means_drafts_step; auto. now apply oneDrain_reachable.
Qed.

(** ** A drain over several entities *)

Lemma filter_all {A} (p : A -> bool) l :
  (forall x, In x l -> p x = true) -> filter p l = l.
Proof.
  induction l as [ | x l IH]; simpl; intros H; auto.
  rewrite (H x (or_introl eq_refl)). f_equal. apply IH. intros y Hy.
  apply H. now right.
Qed.

Lemma prune_all_listed o remoteState :
  NoDup (Obj.keys o) ->
  (forall k, In k (Obj.keys o) -> lists remoteState k = true) ->
  pruneDraftsAgainstRemote o remoteState = o.
Proof.
  intros Hnd Hall. rewrite prune_filter_lists by assumption.
  apply filter_all. intros [k d] Hin. apply Hall.
  unfold Obj.keys. now apply (in_map fst) in Hin.
Qed.

Lemma NoDup_map_inj {A B} (f : A -> B) l a b :
  NoDup (map f l) -> In a l -> In b l -> f a = f b -> a = b.
Proof.
  induction l as [ | x l IH]; simpl; intros Hnd Ha Hb Hab; [contradiction | ].
  inversion Hnd as [ | ? ? Hnotin Hnd']; subst.
  destruct Ha as [-> | Ha], Hb as [-> | Hb]; auto.
  - exfalso. apply Hnotin. rewrite Hab. now apply in_map.
  - exfalso. apply Hnotin. rewrite <- Hab. now apply in_map.
Qed.

(** What a pass needs of the store to run undisturbed: the drafts left
    are the entries still to be written. *)
Lemma written_entry_leaves o e rest :
  wellKeyed o ->
  (forall k d, In (k, d) o -> In d (e :: rest)) ->
  NoDup (map cvTypeId (e :: rest)) ->
  superseded e o = false
  /\ wellKeyed (Obj.remove (cvTypeId e) o)
  /\ (forall k d, In (k, d) (Obj.remove (cvTypeId e) o) -> In d rest).
Proof.
  intros Hw Hin Hnd. split; [ | split].
  - apply superseded_not_newer. intros d Hg.
    apply ObjFacts.get_In in Hg. pose proof (Hin _ _ Hg) as Hd.
    destruct Hw as [_ Hall]. destruct (Hall _ _ Hg) as (_ & Hk & _).
    assert (d = e) as ->; [ | lia].
    apply (NoDup_map_inj cvTypeId (e :: rest)); auto. now left.
  - now apply wellKeyed_remove.
  - intros k d Hr. pose proof (ObjFacts.In_remove _ _ _ Hr) as Ho.
    destruct (Hin _ _ Ho) as [<- | Hd]; auto. exfalso.
    destruct Hw as [Hndk Hall]. destruct (Hall _ _ Ho) as (_ & Hk & _). subst k.
    apply ObjFacts.In_get in Hr; [ | now apply ObjFacts.NoDup_keys_remove].
    rewrite ObjFacts.get_remove_same in Hr by assumption. discriminate Hr.
Qed.

Lemma In_prune (o : Obj.t Draft) remoteState kd :
  NoDup (Obj.keys o) -> In kd (pruneDraftsAgainstRemote o remoteState) -> In kd o.
Proof.
  intros Hnd Hin. rewrite prune_filter_lists in Hin by assumption.
  now apply filter_In in Hin.
Qed.

Lemma drain_step_any w t r e rest rc st :
  getTask t (tasks w) = Some (SyncWriting r e rest rc) ->
  flushing w = true -> needsTrailingFlush w = false ->
  superseded e (drafts w) = false ->
  (rest = [] -> Obj.remove (cvTypeId e) (drafts w) = []) ->
  let w' := step w (EvNetReply t (NetOk st)) in
  drafts w'
  = pruneDraftsAgainstRemote (Obj.remove (cvTypeId e) (drafts w)) st
  /\ returnsOf (trace w') = returnsOf (trace w)
  /\ errorsOf (trace w') = errorsOf (trace w)
  /\ match rest with
     | e2 :: rest' =>
         getTask t (tasks w') = Some (SyncWriting r e2 rest' false)
         /\ flushing w' = true /\ needsTrailingFlush w' = false
         /\ status w' = status w
         /\ commandsOf (trace w')
            = commandsOf (trace w) ++ [CV_UPDATE_TYPE (cvTypeId e2) (data e2) r]
     | [] =>
         getTask t (tasks w') = Some (FlushFinishing r)
         /\ flushing w' = false /\ status w' = Saved
         /\ commandsOf (trace w') = commandsOf (trace w)
     end.
Proof.
  intros Ht Hf Hn Hs He w'. subst w'. unfold step. rewrite Ht.
  unfold writeSucceeded. rewrite settleDraft_eq, Hs, Hn. cbv zeta iota.
  assert (Ha : forall w1 s,
    drafts w1 = Obj.remove (cvTypeId e) (drafts w) -> flushing w1 = true ->
    absorbRemoteState (Some s) w1
    = withDrafts (pruneDraftsAgainstRemote
                    (Obj.remove (cvTypeId e) (drafts w)) (Some s)) w1).
  { intros w1 s Hd1 Hf1. destruct w1 as [dr1 s1 it1 lt1 fl1 nt1 de1 sa1 now1 tk1 nx1 tr1].
    cbn [drafts flushing] in Hd1, Hf1. subst dr1 fl1.
    rewrite absorbRemoteState_eq. cbv zeta. fields.
    rewrite Bool.andb_false_r. cbn [andb]. now rewrite app_nil_r. }
  destruct st as [s | ]; [rewrite Ha by (norm; auto) | ].
  all: destruct rest as [ | e2 rest']; [rewrite (He eq_refl), ?prune_nil | ].
  all: norm; cbn [Obj.isEmpty negb pruneDraftsAgainstRemote]; norm.
  all: repeat (split_world; norm).
  all: cbn [getTask]; rewrite ?Nat.eqb_refl; trace_facts; split_values;
    trace_facts; rewrite ?app_nil_r; repeat split; auto.
Qed.

Lemma drain_pass t r : forall rest e rc sts w,
  getTask t (tasks w) = Some (SyncWriting r e rest rc) ->
  flushing w = true -> needsTrailingFlush w = false ->
  wellKeyed (drafts w) ->
  (forall k d, In (k, d) (drafts w) -> In d (e :: rest)) ->
  NoDup (map cvTypeId (e :: rest)) ->
  List.length sts = S (List.length rest) ->
  let w' := run w (map (EvNetReply t) (map NetOk sts)) in
  drafts w' = []
  /\ getTask t (tasks w') = Some (FlushFinishing r)
  /\ flushing w' = false /\ status w' = Saved
  /\ commandsOf (trace w')
     = commandsOf (trace w)
       ++ map (fun x => CV_UPDATE_TYPE (cvTypeId x) (data x) r) rest
  /\ returnsOf (trace w') = returnsOf (trace w)
  /\ errorsOf (trace w') = errorsOf (trace w).
Proof.
  induction rest as [ | e2 rest IH]; intros e rc sts w Ht Hf Hn Hw Hin Hnd Hlen;
    (destruct sts as [ | st sts]; [discriminate Hlen | ]);
    cbn [map]; rewrite run_cons;
    destruct (written_entry_leaves _ _ _ Hw Hin Hnd) as (Hs & Hw' & Hin').
  - assert (He : Obj.remove (cvTypeId e) (drafts w) = []).
    { destruct (Obj.remove (cvTypeId e) (drafts w)) as [ | [k d] o]; auto.
      destruct (Hin' k d (or_introl eq_refl)). }
    destruct sts; [ | discriminate Hlen]. cbn [map]. rewrite run_nil.
    destruct (drain_step_any w t r e [] rc st Ht Hf Hn Hs (fun _ => He))
      as (Hd & Hr & Herr & Hg & Hfl & Hst' & Hc).
    rewrite Hd, He, prune_nil, Hc, app_nil_r. repeat split; auto.
  - assert (He : e2 :: rest = [] -> Obj.remove (cvTypeId e) (drafts w) = [])
      by discriminate.
    destruct (drain_step_any w t r e (e2 :: rest) rc st Ht Hf Hn Hs He)
      as (Hd & Hr & Herr & Hg & Hfl & Hn' & Hst' & Hc).
    destruct (IH e2 false sts (step w (EvNetReply t (NetOk st))))
      as (Hd2 & Hg2 & Hf2 & Hs2 & Hc2 & Hr2 & He2); auto.
    + rewrite Hd. now apply wellKeyed_prune.
    + rewrite Hd. intros k d Hkd. apply In_prune in Hkd; [ | apply Hw'].
      now apply (Hin' k d).
    + now inversion Hnd.
    + rewrite Hc2, Hc, Hr2, Hr, He2, Herr, <- app_assoc. repeat split; auto.
Qed.

Lemma flush_starts_pass w r e rest :
  drafts w <> [] -> flushing w = false -> destroyed w = false ->
  sortByTime (Obj.values (drafts w)) = e :: rest ->
  let w' := run w [EvFlush r; EvStorageDone (nextTask w)] in
  getTask (nextTask w) (tasks w') = Some (SyncWriting r e rest false)
  /\ flushing w' = true /\ needsTrailingFlush w' = false
  /\ drafts w' = drafts w
  /\ commandsOf (trace w')
     = commandsOf (trace w) ++ [CV_UPDATE_TYPE (cvTypeId e) (data e) r]
  /\ returnsOf (trace w') = returnsOf (trace w)
  /\ errorsOf (trace w') = errorsOf (trace w).
Proof.
  intros Hd Hf Hx Hsort w'. subst w'.
  destruct w as [dr s it lt fl nt de sa now tk nx tr].
  cbn [drafts status flushing destroyed nextTask trace tasks] in *. subst.
  assert (He : Obj.isEmpty dr = false) by (destruct dr; [contradiction | reflexivity]).
  unfold run. cbn [fold_left].
  destruct sa as [store | ];
    do 2 first_step ltac:(rewrite ?He, ?Hsort; resolve_tests; rewrite ?He, ?Hsort);
    fields; cbn [getTask]; rewrite ?Nat.eqb_refl; split_values; trace_facts;
    rewrite ?app_nil_r; repeat split; reflexivity.
Qed.

Lemma flush_finishes w t r :
  getTask t (tasks w) = Some (FlushFinishing r) ->
  let w' := step w (EvStorageDone t) in
  drafts w' = drafts w /\ status w' = status w /\ flushing w' = flushing w
  /\ commandsOf (trace w') = commandsOf (trace w)
  /\ errorsOf (trace w') = errorsOf (trace w)
  /\ returnsOf (trace w')
     = returnsOf (trace w)
       ++ [{| ok := negb (Status_eqb (status w) Error);
              reason := None;
              resultStatus := status w |}].
Proof.
  intros Ht w'. subst w'. unfold step. rewrite Ht. norm. trace_facts.
  repeat split; reflexivity.
Qed.

Lemma ids_of_values o :
  wellKeyed o -> map cvTypeId (Obj.values o) = Obj.keys o.
Proof.
  intros [_ Hall]. unfold Obj.values, Obj.keys.
  induction o as [ | [k d] o IH]; simpl; auto.
  destruct (Hall k d (or_introl eq_refl)) as (_ & -> & _). f_equal.
  apply IH. intros k' d' Hin. apply Hall. now right.
Qed.

(** X8.  A flush of an idle controller whose writes all succeed writes
    every draft of the store, once each and oldest edit first, whatever
    the status was before (so also after an error) and whatever states
    the responses carry: the commands sent are the writes of the drafts
    in ascending order of their timestamps, each with the draft's payload
    and the reason of the flush; afterwards the store is empty, the
    status is saved, and the call returns ok. *)
Theorem drain_writes_every_draft w r sts :
  reachable w ->
  drafts w <> [] -> flushing w = false -> destroyed w = false ->
  List.length sts = List.length (Obj.values (drafts w)) ->
  let w' := run w (flushTurns (nextTask w) r (map NetOk sts)) in
  commandsOf (trace w')
  = commandsOf (trace w)
    ++ map (fun x => CV_UPDATE_TYPE (cvTypeId x) (data x) r)
         (sortByTime (Obj.values (drafts w)))
  /\ drafts w' = []
  /\ status w' = Saved
  /\ flushing w' = false
  /\ returnsOf (trace w')
     = returnsOf (trace w)
       ++ [{| ok := true; reason := None; resultStatus := Saved |}]
  /\ errorsOf (trace w') = errorsOf (trace w).
Proof.
  intros Hr Hd Hf Hx Hlen w'. subst w'.
  pose proof (wellKeyed_reachable w Hr) as Hw.
  pose proof (sortByTime_perm (Obj.values (drafts w))) as Hperm.
  destruct (sortByTime (Obj.values (drafts w))) as [ | e rest] eqn:Hsort.
  { apply Permutation_sym, Permutation_nil in Hperm.
    destruct (drafts w); [contradiction | discriminate Hperm]. }
  unfold flushTurns.
  change (EvFlush r :: EvStorageDone (nextTask w)
          :: map (EvNetReply (nextTask w)) (map NetOk sts)
          ++ [EvStorageDone (nextTask w)])
    with ([EvFlush r; EvStorageDone (nextTask w)]
          ++ map (EvNetReply (nextTask w)) (map NetOk sts)
          ++ [EvStorageDone (nextTask w)]).
  rewrite !run_app.
  destruct (flush_starts_pass w r e rest Hd Hf Hx Hsort)
    as (Hg1 & Hf1 & Hn1 & Hd1 & Hc1 & Hr1 & He1).
  set (w1 := run w [EvFlush r; EvStorageDone (nextTask w)]) in *.
  destruct (drain_pass (nextTask w) r rest e false sts w1)
    as (Hd2 & Hg2 & Hf2 & Hs2 & Hc2 & Hr2 & He2); auto.
  - now rewrite Hd1.
  - rewrite Hd1. intros k d Hin.
    apply (Permutation_in _ Hperm). now apply (in_map snd) in Hin.
  - apply (Permutation_NoDup (Permutation_map cvTypeId Hperm)).
    rewrite ids_of_values by assumption. apply Hw.
  - rewrite Hlen. apply (Permutation_length Hperm).
  - set (w2 := run w1 (map (EvNetReply (nextTask w)) (map NetOk sts))) in *.
    rewrite run_cons, run_nil.
    destruct (flush_finishes w2 (nextTask w) r Hg2)
      as (Hd3 & Hs3 & Hf3 & Hc3 & He3 & Hr3).
    rewrite Hd3, Hs3, Hf3, Hc3, He3, Hr3, Hd2, Hs2, Hf2, Hc2, He2, Hr2, Hc1,
      He1, Hr1, <- app_assoc.
    repeat split; reflexivity.
Qed.

Lemma drain_writes_every_draft_witness :
  let d1 := JObj [("name", JStr "first")] in
  let d2 := JObj [("name", JStr "second")] in
  let w := run (createSyncController None 100)
             [EvClock 30; EvScheduleTypeSave "type_b" d2 "v1";
              EvClock 20; EvScheduleTypeSave "type_a" d1 "v1"] in
  let st := Some (mkRemote "v2" (Some [CvType.mk "type_a" d1])) in
  let sts := [st; None] in
  (reachable w /\ drafts w <> [] /\ flushing w = false /\ destroyed w = false
   /\ List.length sts = List.length (Obj.values (drafts w)))
  /\ let w' := run w (flushTurns (nextTask w) "manual" (map NetOk sts)) in
     commandsOf (trace w')
     = commandsOf (trace w)
       ++ map (fun x => CV_UPDATE_TYPE (cvTypeId x) (data x) "manual")
            (sortByTime (Obj.values (drafts w)))
     /\ drafts w' = []
     /\ status w' = Saved
     /\ flushing w' = false
     /\ returnsOf (trace w')
        = returnsOf (trace w)
          ++ [{| ok := true; reason := None; resultStatus := Saved |}]
     /\ errorsOf (trace w') = errorsOf (trace w).
Proof.
  intros d1 d2 w st sts.
  assert (Hr : reachable w) by (apply reachable_run, reachable_init).
  assert (Hd : drafts w <> []) by (vm_compute; discriminate).
  assert (Hf : flushing w = false) by (vm_compute; reflexivity).
  assert (Hx : destroyed w = false) by (vm_compute; reflexivity).
  assert (Hlen : List.length sts = List.length (Obj.values (drafts w)))
    by (vm_compute; reflexivity).
  split; [repeat split; assumption | ].
  exact (drain_writes_every_draft w "manual" sts Hr Hd Hf Hx Hlen).
Defined.

(** ** No draft is left behind *)

Lemma queuedIn_new t r l : queuedIn ((t, FlushPersisting r) :: l).
Proof. exists t, r. cbn [getTask]. now rewrite Nat.eqb_refl. Qed.

Lemma queuedIn_drop t l :
  (forall r, getTask t l <> Some (FlushPersisting r)) ->
  queuedIn l -> queuedIn (dropTask t l).
Proof.
  intros Hne (t0 & r & Hg). exists t0, r. rewrite getTask_drop_other.
  destruct (Nat.eqb t0 t) eqn:E; auto.
  apply Nat.eqb_eq in E. subst t0. now apply Hne in Hg.
Qed.

Lemma queuedIn_cons t pc l :
  (forall r, getTask t l <> Some (FlushPersisting r)) ->
  queuedIn l -> queuedIn ((t, pc) :: dropTask t l).
Proof.
  intros Hne (t0 & r & Hg). exists t0, r. cbn [getTask].
  rewrite getTask_drop_other.
  destruct (Nat.eqb t0 t) eqn:E; auto.
  apply Nat.eqb_eq in E. subst t0. now apply Hne in Hg.
Qed.

Lemma coveredBy_drop o t l : coveredBy o l -> coveredBy o (dropTask t l).
Proof.
  intros H t0 pc Hg. rewrite getTask_drop_other in Hg.
  destruct (Nat.eqb t0 t); [discriminate | eauto].
Qed.

Lemma coveredBy_cons o t pc l :
  (draining pc = true ->
   forall k, In k (Obj.keys o) -> In k (map cvTypeId (entriesOf pc))) ->
  coveredBy o l -> coveredBy o ((t, pc) :: dropTask t l).
Proof.
  intros Hpc H t0 pc0 Hg. cbn [getTask] in Hg. rewrite getTask_drop_other in Hg.
  destruct (Nat.eqb t0 t); [injection Hg as <-; exact Hpc | eauto].
Qed.

Lemma coveredBy_sub o o' l :
  (forall k, In k (Obj.keys o') -> In k (Obj.keys o)) ->
  coveredBy o l -> coveredBy o' l.
Proof. intros Hsub H t pc Hg Hd k Hk. eauto. Qed.

Lemma coveredBy_nil l : coveredBy [] l.
Proof. intros t pc _ _ k []. Qed.

(** The pass that starts covers the whole store. *)
Lemma coveredBy_start o t pc l :
  (forall t' pc', getTask t' l = Some pc' -> draining pc' = true -> t' = t) ->
  (forall k, In k (Obj.keys o) -> In k (map cvTypeId (entriesOf pc))) ->
  coveredBy o ((t, pc) :: dropTask t l).
Proof.
  intros Honly Hpc t0 pc0 Hg Hd. cbn [getTask] in Hg.
  rewrite getTask_drop_other in Hg.
  destruct (Nat.eqb t0 t) eqn:E; [injection Hg as <-; exact Hpc | ].
  apply Nat.eqb_neq in E. now apply Honly in Hg.
Qed.

Lemma keys_prune_sub o remoteState k :
  In k (Obj.keys (pruneDraftsAgainstRemote o remoteState)) -> In k (Obj.keys o).
Proof.
  destruct remoteState as [[u [types | ]] | ]; auto. simpl.
  assert (G : forall output,
    In k (Obj.keys
            (fold_left
               (fun output kv =>
                  if hasId (knownTypeIds types) (fst kv)
                  then Obj.set (fst kv) (snd kv) output else output)
               o output)) ->
    In k (Obj.keys output) \/ In k (Obj.keys o)).
  { induction o as [ | [k0 v0] o IH]; simpl; intros output Hin; auto.
    apply IH in Hin. destruct Hin as [Hin | Hin]; auto.
    destruct (hasId (knownTypeIds types) k0); auto.
    rewrite ObjFacts.keys_set in Hin.
    destruct (Obj.get k0 output); auto.
    apply in_app_or in Hin. destruct Hin as [Hin | [<- | []]]; auto. }
  intros Hin. apply G in Hin. destruct Hin as [[] | Hin]; exact Hin.
Qed.

Lemma keys_sorted_values o k :
  wellKeyed o -> In k (Obj.keys o) ->
  In k (map cvTypeId (sortByTime (Obj.values o))).
Proof.
  intros Hw Hin. rewrite <- ids_of_values in Hin by assumption.
  apply (Permutation_in _ (Permutation_map cvTypeId (sortByTime_perm _)) Hin).
Qed.

Lemma keys_remove_other (o : Obj.t Draft) e rest k :
  NoDup (Obj.keys o) ->
  (forall k, In k (Obj.keys o) -> In k (map cvTypeId (e :: rest))) ->
  In k (Obj.keys (Obj.remove (cvTypeId e) o)) -> In k (map cvTypeId rest).
Proof.
  intros Hnd Hsub Hin.
  destruct (Hsub k (ObjFacts.In_keys_remove _ _ _ Hin)) as [<- | Hr]; auto.
  exfalso. apply (proj1 (ObjFacts.get_None_iff _ _)
                    (ObjFacts.get_remove_same (cvTypeId e) o Hnd)). exact Hin.
Qed.

Lemma prune_not_nil o remoteState :
  pruneDraftsAgainstRemote o remoteState <> [] -> o <> [].
Proof. intros H E. subst o. now rewrite prune_nil in H. Qed.

Lemma remove_not_nil {V} k (o : Obj.t V) : Obj.remove k o <> [] -> o <> [].
Proof. intros H E. subst o. now apply H. Qed.

Lemma sorted_nil o : sortByTime (Obj.values o) = [] -> o = [].
Proof.
  intros H. pose proof (sortByTime_perm (Obj.values o)) as Hp. rewrite H in Hp.
  apply Permutation_sym, Permutation_nil in Hp. now destruct o.
Qed.

Lemma covered_last (o : Obj.t Draft) t r e rc l :
  getTask t l = Some (SyncWriting r e [] rc) -> NoDup (Obj.keys o) ->
  coveredBy o l -> Obj.remove (cvTypeId e) o = [].
Proof.
  intros Hg Hnd Hc.
  destruct (Obj.remove (cvTypeId e) o) as [ | [k d] o'] eqn:E; auto. exfalso.
  assert (Hin : In k (Obj.keys (Obj.remove (cvTypeId e) o)))
    by (rewrite E; now left).
  apply (keys_remove_other o e [] k Hnd) in Hin; auto.
  intros k' Hk'. exact (Hc t _ Hg eq_refl k' Hk').
Qed.

Lemma coveredBy_next (o o' : Obj.t Draft) t r e e2 rest rc rc' l :
  getTask t l = Some (SyncWriting r e (e2 :: rest) rc) -> NoDup (Obj.keys o) ->
  (forall k, In k (Obj.keys o') -> In k (Obj.keys (Obj.remove (cvTypeId e) o))) ->
  coveredBy o l ->
  coveredBy o' ((t, SyncWriting r e2 rest rc') :: dropTask t l).
Proof.
  intros Hg Hnd Hsub Hc. apply coveredBy_cons.
  - intros _ k Hk. apply Hsub in Hk.
    apply (keys_remove_other o e (e2 :: rest) k Hnd); auto.
    intros k' Hk'. exact (Hc t _ Hg eq_refl k' Hk').
  - apply (coveredBy_sub o); auto. intros k Hk. apply Hsub in Hk.
    now apply ObjFacts.In_keys_remove in Hk.
Qed.

Lemma coveredBy_same (o : Obj.t Draft) t pc pc' l :
  getTask t l = Some pc -> draining pc = true ->
  entriesOf pc' = entriesOf pc ->
  coveredBy o l -> coveredBy o ((t, pc') :: dropTask t l).
Proof.
  intros Hg Hd He Hc. apply coveredBy_cons; auto.
  intros _ k Hk. rewrite He. exact (Hc t _ Hg Hd k Hk).
Qed.

Ltac split_hyps :=
  repeat match goal with
         | H : context [if ?c then _ else _] |- _ =>
             lazymatch c with
             | context [if _ then _ else _] => fail
             | _ => destruct c eqn:?
             end
         end.

Ltac nonempty :=
  first [ assumption
        | eapply prune_not_nil; eassumption
        | eapply remove_not_nil; eapply prune_not_nil; eassumption
        | eapply remove_not_nil; eassumption ].

Ltac feed H :=
  repeat match type of H with
         | ?P -> _ =>
             let HP := fresh in
             assert (HP : P)
               by first [reflexivity | assumption | congruence | nonempty];
             specialize (H HP); clear HP
         end.

Ltac from_sched H :=
  destruct H as [H | H]; [solve [auto] | solve [eauto 6 with watch]].

Lemma coveredBy_idle (o : Obj.t Draft) t pc l :
  draining pc = false -> coveredBy o l -> coveredBy o ((t, pc) :: dropTask t l).
Proof.
  intros Hd. apply coveredBy_cons. rewrite Hd. discriminate.
Qed.

Create HintDb watch.
#[local] Hint Resolve queuedIn_new queuedIn_drop queuedIn_cons coveredBy_drop
  coveredBy_nil keys_prune_sub keys_sorted_values : watch.
#[local] Hint Extern 1 (forall r, getTask _ _ <> Some (FlushPersisting r)) =>
  let r := fresh in intros r; congruence : watch.
#[local] Hint Resolve coveredBy_idle : watch.

Ltac cover_rest :=
  right;
  first
    [ match goal with
      | E : ?o = [] |- coveredBy ?o _ => rewrite E; apply coveredBy_nil
      end
    | eapply coveredBy_next;
      [ eassumption
      | match goal with Hk : wellKeyed _ |- _ => apply Hk end
      | eauto using keys_prune_sub
      | eassumption ]
    | eapply coveredBy_same; [eassumption | reflexivity | reflexivity | eassumption]
    | eapply coveredBy_sub; [ | eassumption]; eauto using keys_prune_sub ].

Ltac cover_start Hidle Hone :=
  right; apply coveredBy_start;
  [ let t' := fresh in
    let pc' := fresh in
    let Hg' := fresh in
    let Hd' := fresh in
    intros t' pc' Hg' Hd';
    first [ rewrite (Hidle t' pc' Hg') in Hd'; discriminate Hd'
          | eapply Hone; eauto ]
  | let k' := fresh in
    let Hk' := fresh in
    intros k' Hk'; cbn [entriesOf];
    match goal with Hs : sortByTime _ = _ |- _ => rewrite <- Hs end;
    apply keys_sorted_values; auto with keyed ].

Lemma watched_step w ev :
  oneDrain w -> freshIds w -> wellKeyed (drafts w) ->
  watched w -> watched (step w ev).
Proof.
  intros [Hidle Hone] Hfresh Hkey Hwat.
  destruct (destroyed w) eqn:Hdes.
  { intros Hx. rewrite (destroyed_step w ev Hdes) in Hx. discriminate Hx. }
  specialize (Hwat Hdes). destruct Hwat as [Hout Hin].
  assert (Hnx : getTask (nextTask w) (tasks w) = None).
  { destruct (getTask (nextTask w) (tasks w)) eqn:E; auto. apply Hfresh in E. lia. }
  clear Hfresh. unfold scheduled in *.
  destruct w as [dr s it lt fl nt de sa now tk nx tr]. fields. cbn in Hdes.
  cbn [drafts status idleTimer localPersistTimer flushing needsTrailingFlush
       destroyed storageArea nowMs tasks nextTask trace] in *. subst de.
  destruct ev as [c | k d b | r | | rs | rs | | | task | task reply]; unfold step;
    fields.
  4: { intros Hx. discriminate Hx. }
  all: intros _; unfold scheduled.
  2: { unfold scheduleTypeSave. fields. destruct (String.eqb k ""); [now split | ].
       norm. destruct fl; norm; split; fields;
         try discriminate; intros; left; reflexivity. }
  all: try (destruct (getTask task tk) as [[] | ] eqn:Ht; try destruct reply).
  all: norm; repeat (split_world; norm).
  all: try (split; assumption).
  all: unfold scheduled; fields; split; intros Hfl; try discriminate Hfl.
  all: intros; try discriminate.
  all: try (right; apply queuedIn_new).
  all: try (left; right; apply queuedIn_new).
  all: try (left; reflexivity).
  all: try (left; left; reflexivity).
  all: split_values; split_hyps; cbn [negb andb Status_eqb] in *; emptiness;
    status_facts; try discriminate; try congruence.
  all: try match goal with
           | Hs : sortByTime (Obj.values ?o) = [], Hn : ?o <> [] |- _ =>
               exfalso; apply Hn; exact (sorted_nil _ Hs)
           end.
  all: try match goal with
           | Hg : getTask _ _ = Some (SyncWriting _ _ _ _) |- _ =>
               destruct fl;
               [ | specialize (Hidle eq_refl _ _ Hg); discriminate Hidle]
           | Hg : getTask _ _ = Some (SyncReloading _ _ _) |- _ =>
               destruct fl;
               [ | specialize (Hidle eq_refl _ _ Hg); discriminate Hidle]
           end.
  all: feed Hidle; feed Hout; feed Hin.
  all: try match goal with
           | Hg : getTask ?t ?l = Some ?pc,
             Hi : forall t pc, getTask t ?l = Some pc -> draining pc = false |- _ =>
               let H := fresh in
               assert (H := Hi t pc Hg); discriminate H
           end.
  all: try solve [from_sched Hout].
  all: try solve [destruct Hin as [Hin | Hin]; [from_sched Hin | ];
                  right; eauto 6 with watch].
  all: try solve [cover_start Hidle Hone].
  all: try solve [destruct Hin as [Hin | Hin]; [from_sched Hin | cover_rest]].
  all: try solve [destruct Hin as [Hin | Hin]; [from_sched Hin | ]; exfalso;
                  destruct Hkey as [Hnd _];
                  match goal with
                  | Hg : getTask _ _ = Some (SyncWriting _ _ [] _) |- _ =>
                      pose proof (covered_last _ _ _ _ _ _ Hg Hnd Hin) as Hl;
                      rewrite Hl, ?prune_nil in *; congruence
                  end].
Qed.

Lemma watched_reachable w : reachable w -> watched w.
Proof.
  induction 1 as [storage clock | w ev Hw IH].
  - intros _. split; [intros _ H; now contradiction H | discriminate].
  - apply watched_step; auto.
    + now apply oneDrain_reachable.
    + now apply freshIds_reachable.
    + now apply wellKeyed_reachable.
Qed.

(** X9.  No draft is left behind, as long as no storage operation fails
    and the identifiers are ordinary (so that no call of [flush] or of
    [restoreDrafts] is cut short by an exception).  In every state reached
    that way, whenever the store holds a draft while no flush is draining,
    the controller is not destroyed and the status is not error, a flush
    is on its way without anyone asking for it: the idle timer is armed,
    or a call of [flush] is about to reach [performFlush].  The status
    error is excluded because a failed drain schedules nothing: its drafts
    wait for the next edit or the next call of [flush]. *)
Theorem no_draft_left_behind w :
  ordinary w ->
  destroyed w = false -> flushing w = false ->
  drafts w <> [] -> status w <> Error ->
  idleTimer w = true
  \/ exists t r, getTask t (tasks w) = Some (FlushPersisting r).
Proof.
  intros Ho Hx Hf Hd Hs. pose proof (ordinary_reachable w Ho) as Hr.
  destruct (watched_reachable w Hr Hx) as [Hout _].
  exact (Hout Hf Hd Hs).
Qed.

Lemma no_draft_left_behind_witness :
  let d := JObj [("marker", JStr "draft")] in
  let w := run (createSyncController None 100)
             [EvScheduleTypeSave "type_1" d "remote_a"; EvFlush "manual"] in
  (ordinary w /\ destroyed w = false /\ flushing w = false
   /\ drafts w <> [] /\ status w <> Error)
  /\ (idleTimer w = true
      \/ exists t r, getTask t (tasks w) = Some (FlushPersisting r)).
Proof.
  intros d w.
  assert (Hr : ordinary w)
    by (apply ordinary_run; [now apply ordinary_init | reflexivity]).
  assert (Hx : destroyed w = false) by reflexivity.
  assert (Hf : flushing w = false) by reflexivity.
  assert (Hd : drafts w <> []) by discriminate.
  assert (Hs : status w <> Error) by discriminate.
  split; [repeat split; assumption | ].
  exact (no_draft_left_behind w Hr Hx Hf Hd Hs).
Defined.

(** ** Drafts survive a reload *)

Lemma restore_arms_timer sd meta clock remote :
  let w := createSyncController (Some (mkStorage sd meta)) clock in
  let w' := run w [EvRestoreDrafts remote; EvStorageDone 0; EvStorageDone 0] in
  idleTimer w'
  = negb (Obj.isEmpty
            (pruneDraftsAgainstRemote (normalizeDraftMap clock sd) remote))
  /\ tasks w' = [] /\ flushing w' = false.
Proof.
  intros w w'. subst w w'. unfold run, createSyncController.
  cbn [fold_left]. first_step resolve_tests.
  destruct (Obj.isEmpty
              (pruneDraftsAgainstRemote (normalizeDraftMap clock sd) remote))
    eqn:E;
    first_step ltac:(rewrite ?E; resolve_tests);
    first_step resolve_tests; fields; repeat split; reflexivity.
Qed.

(** X10.  Drafts survive a reload of the page.  Take a controller that
    was given ordinary identifiers only.  Once its local persist timer has
    fired, a controller created afresh on the same storage and restored
    against a remote state that lists the drafted entities, and files no
    type under a name inherited from [Object.prototype], holds exactly
    the drafts the old controller held: same entities, payloads, base
    versions and timestamps, in the same order.  Its status is pending
    and its idle timer is armed when there are drafts (saved and not
    armed otherwise), and the restore itself sends nothing.  The
    timestamps are taken to be non-zero, as [normalizeDraftMap] replaces
    a zero timestamp by the time of the reload. *)
Theorem persist_restore_round_trip w store clock remote :
  ordinary w -> ordinaryState remote = true ->
  storageArea w = Some store -> localPersistTimer w = true ->
  (forall k d, In (k, d) (drafts w) -> localUpdatedAtMs d <> 0) ->
  (forall k, In k (Obj.keys (drafts w)) -> lists remote k = true) ->
  let persisted := step w EvLocalPersistTimer in
  let w' := run (createSyncController (storageArea persisted) clock)
              [EvRestoreDrafts remote; EvStorageDone 0; EvStorageDone 0] in
  drafts w' = drafts w
  /\ status w' = (if Obj.isEmpty (drafts w) then Saved else Pending)
  /\ idleTimer w' = negb (Obj.isEmpty (drafts w))
  /\ commandsOf (trace w') = []
  /\ restoredOf (trace w') = [applyDraftsToRemoteState remote (drafts w)].
Proof.
  intros Ho Hrem Hst Hlt Hts Hls persisted w'.
  pose proof (wellKeyed_reachable w (ordinary_reachable w Ho)) as Hw.
  assert (Hp : storageArea persisted
               = Some (mkStorage (Some (drafts w)) (Some (status w, nowMs w)))).
  { subst persisted. unfold step. rewrite Hlt. norm. rewrite Hst.
    now rewrite normalizeDraftMap_fixed. }
  subst w'. rewrite Hp.
  assert (Hsame : pruneDraftsAgainstRemote
                    (normalizeDraftMap clock (Some (drafts w))) remote
                  = drafts w).
  { rewrite normalizeDraftMap_fixed by assumption.
    apply prune_all_listed; [apply Hw | exact Hls]. }
  destruct (restore_run (Some (drafts w)) (Some (status w, nowMs w)) clock remote)
    as (Hd & Hs & _ & Hm & Hc & _).
  destruct (restore_arms_timer (Some (drafts w)) (Some (status w, nowMs w))
              clock remote) as (Ht & _).
  rewrite Hsame in *. repeat split; assumption.
Qed.

Lemma persist_restore_round_trip_witness :
  let d := JObj [("marker", JStr "draft")] in
  let store := mkStorage None None in
  let w := run (createSyncController (Some store) 100)
             [EvScheduleTypeSave "type_1" d "remote_a"] in
  let remote := Some (mkRemote "remote_b"
                        (Some [CvType.mk "type_1" JNull])) in
  (ordinary w /\ ordinaryState remote = true
   /\ storageArea w = Some store /\ localPersistTimer w = true
   /\ (forall k d, In (k, d) (drafts w) -> localUpdatedAtMs d <> 0)
   /\ (forall k, In k (Obj.keys (drafts w)) -> lists remote k = true))
  /\ let persisted := step w EvLocalPersistTimer in
     let w' := run (createSyncController (storageArea persisted) 900)
                 [EvRestoreDrafts remote; EvStorageDone 0; EvStorageDone 0] in
     drafts w' = drafts w
     /\ status w' = (if Obj.isEmpty (drafts w) then Saved else Pending)
     /\ idleTimer w' = negb (Obj.isEmpty (drafts w))
     /\ commandsOf (trace w') = []
     /\ restoredOf (trace w') = [applyDraftsToRemoteState remote (drafts w)].
Proof.
  intros d store w remote.
  assert (Hr : ordinary w)
    by (apply ordinary_run; [now apply ordinary_init | reflexivity]).
  assert (Hrem : ordinaryState remote = true) by reflexivity.
  assert (Hst : storageArea w = Some store) by reflexivity.
  assert (Hlt : localPersistTimer w = true) by reflexivity.
  assert (Hts : forall k d, In (k, d) (drafts w) -> localUpdatedAtMs d <> 0).
  { intros k d0 [[= <- <-] | []]. discriminate. }
  assert (Hls : forall k, In k (Obj.keys (drafts w)) -> lists remote k = true).
  { intros k [<- | []]. reflexivity. }
  split; [repeat split; assumption | ].
  exact (persist_restore_round_trip w store 900 remote Hr Hrem Hst Hlt Hts Hls).
Defined.

(** ** Absorbing a remote state *)

Lemma prune_idem o remoteState :
  NoDup (Obj.keys o) ->
  pruneDraftsAgainstRemote (pruneDraftsAgainstRemote o remoteState) remoteState
  = pruneDraftsAgainstRemote o remoteState.
Proof.
  intros Hnd. rewrite (prune_filter_lists o) by assumption.
  rewrite prune_filter_lists by now apply NoDup_keys_filter.
  apply filter_idem.
Qed.

(** Absorbing a state that was just absorbed: the form in which a
    handler of [onState] meets it. *)
Lemma absorb_idem w remoteState :
  NoDup (Obj.keys (drafts w)) ->
  absorbRemoteState remoteState (absorbRemoteState remoteState w)
  = absorbRemoteState remoteState w.
Proof.
  intros Hnd. rewrite (absorbRemoteState_eq remoteState w). cbv zeta.
  rewrite absorbRemoteState_eq. cbv zeta. fields.
  rewrite (prune_idem (drafts w) remoteState Hnd).
  destruct (Obj.isEmpty (pruneDraftsAgainstRemote (drafts w) remoteState)
            && negb (flushing w)); cbn [andb negb Status_eqb];
    now rewrite ?app_nil_r.
Qed.

(** X11.  Absorbing the same remote state twice is absorbing it once:
    in every state the controller can reach, a second call with the same
    state prunes nothing more, leaves the status alone and tells
    [onStatus] nothing. *)
Theorem absorb_twice w remoteState :
  reachable w ->
  absorbRemoteState remoteState (absorbRemoteState remoteState w)
  = absorbRemoteState remoteState w.
Proof.
  intros Hr. pose proof (wellKeyed_reachable w Hr) as [Hnd _].
  rewrite (absorbRemoteState_eq remoteState w). cbv zeta.
  rewrite absorbRemoteState_eq. cbv zeta. fields.
  rewrite (prune_idem (drafts w) remoteState Hnd).
  destruct (Obj.isEmpty (pruneDraftsAgainstRemote (drafts w) remoteState)
            && negb (flushing w)); cbn [andb negb Status_eqb];
    now rewrite ?app_nil_r.
Qed.

Lemma absorb_twice_witness :
  let d := JObj [("marker", JStr "draft")] in
  let w := run (createSyncController None 100)
             [EvScheduleTypeSave "type_1" d "remote_a";
              EvScheduleTypeSave "type_2" d "remote_a"] in
  let rs := Some (mkRemote "remote_b" (Some [CvType.mk "type_2" JNull])) in
  reachable w
  /\ absorbRemoteState rs (absorbRemoteState rs w) = absorbRemoteState rs w.
Proof.
  intros d w rs.
  assert (Hr : reachable w) by (apply reachable_run, reachable_init).
  split; [exact Hr | exact (absorb_twice w rs Hr)].
Defined.

(** ** Restoring when nothing was persisted *)

Lemma applyDrafts_nil remoteState :
  applyDraftsToRemoteState remoteState [] = remoteState.
Proof.
  destruct remoteState as [[u [types | ]] | ]; auto.
  unfold applyDraftsToRemoteState. cbn [updatedAt cvTypes option_map].
  do 3 f_equal. induction types as [ | [i dt] types IH]; auto.
  cbn [map]. rewrite IH. unfold applyDraft, cloneType.
  cbn [Obj.get CvType.id CvType.data]. now rewrite deepClone_id.
Qed.

(** X12.  On a controller that was just created, a restore that finds
    no usable draft in storage (no storage adapter, nothing stored, or
    only entries that [normalizeDraftMap] rejects) hands the remote state
    back unchanged, leaves the store empty and the status saved, tells
    [onStatus] nothing, arms no timer and sends no command.  The remote
    state files no type under a name inherited from [Object.prototype],
    and the keys found in storage are ordinary. *)
Theorem restore_without_drafts storage clock remote :
  ordinaryStorage storage = true -> ordinaryState remote = true ->
  (forall store, storage = Some store ->
                 normalizeDraftMap clock (storedDrafts store) = []) ->
  let w' := run (createSyncController storage clock)
              [EvRestoreDrafts remote; EvStorageDone 0; EvStorageDone 0] in
  restoredOf (trace w') = [remote]
  /\ drafts w' = [] /\ status w' = Saved
  /\ statusesOf (trace w') = []
  /\ idleTimer w' = false
  /\ commandsOf (trace w') = [].
Proof.
  intros Hsto Hrem Hs w'. subst w'.
  destruct storage as [[sd meta] | ].
  - specialize (Hs _ eq_refl). cbn [storedDrafts] in Hs.
    destruct (restore_run sd meta clock remote) as (Hd & Hst & Hss & Hm & Hc & _).
    destruct (restore_arms_timer sd meta clock remote) as (Ht & _).
    rewrite Hs, prune_nil in *. cbn [Obj.isEmpty negb] in *.
    rewrite applyDrafts_nil in Hm. repeat split; assumption.
  - unfold run, createSyncController. cbn [fold_left].
    do 3 first_step resolve_tests. fields. trace_facts.
    rewrite applyDrafts_nil. repeat split; reflexivity.
Qed.

Lemma restore_without_drafts_witness :
  let stale := mkDraft "type_1" (JStr "x") 7 "v1" false in
  let storage := Some (mkStorage (Some [("type_1", stale)]) None) in
  let remote := Some (mkRemote "remote_b" (Some [CvType.mk "type_1" JNull])) in
  (ordinaryStorage storage = true /\ ordinaryState remote = true
   /\ forall store, storage = Some store ->
                    normalizeDraftMap 100 (storedDrafts store) = [])
  /\ let w' := run (createSyncController storage 100)
                 [EvRestoreDrafts remote; EvStorageDone 0; EvStorageDone 0] in
     restoredOf (trace w') = [remote]
     /\ drafts w' = [] /\ status w' = Saved
     /\ statusesOf (trace w') = []
     /\ idleTimer w' = false
     /\ commandsOf (trace w') = [].
Proof.
  intros stale storage remote.
  assert (Hs : forall store, storage = Some store ->
                             normalizeDraftMap 100 (storedDrafts store) = []).
  { intros store [= <-]. reflexivity. }
  split; [split; [reflexivity | split; [reflexivity | exact Hs]] | ].
  exact (restore_without_drafts storage 100 remote eq_refl eq_refl Hs).
Defined.

(** ** Looking a draft up after a removal *)

Lemma get_remove (o : Obj.t Draft) k k' :
  NoDup (Obj.keys o) ->
  Obj.get k (Obj.remove k' o) = if String.eqb k k' then None else Obj.get k o.
Proof.
  intros Hnd. destruct (String.eqb k k') eqn:E.
  - apply String.eqb_eq in E. subst. now apply ObjFacts.get_remove_same.
  - apply ObjFacts.get_remove_other. now apply String.eqb_neq.
Qed.

Lemma NoDup_app_apart {A} (l1 l2 : list A) x :
  NoDup (l1 ++ l2) -> In x l1 -> In x l2 -> False.
Proof.
  induction l1 as [ | a l1 IH]; simpl; intros Hnd H1 H2; [contradiction | ].
  inversion Hnd as [ | ? ? Hnotin Hnd']; subst.
  destruct H1 as [-> | H1]; [ | now apply IH].
  apply Hnotin. apply in_or_app. now right.
Qed.

(** ** The lifecycle trigger *)

Lemma Handler_eqb_eq a b : Handler_eqb a b = true <-> a = b.
Proof.
  split.
  - destruct a, b; simpl; intros H; try discriminate;
      apply Nat.eqb_eq in H; now subst.
  - intros <-. destruct a; simpl; apply Nat.eqb_refl.
Qed.

Lemma sameListener_eq type h l : sameListener type h l = true <-> l = (type, h).
Proof.
  unfold sameListener. destruct l as [ty h']. cbn [fst snd].
  rewrite Bool.andb_true_iff, String.eqb_eq, Handler_eqb_eq. split.
  - intros [-> ->]. reflexivity.
  - intros [= -> ->]. auto.
Qed.

Lemma remove_added type h (t : Target) :
  ~ In (type, h) t ->
  removeEventListener type h (addEventListener type h t) = t.
Proof.
  intros Hnot. unfold addEventListener.
  assert (Hno : forall l, In l t -> sameListener type h l = false).
  { intros l Hl. destruct (sameListener type h l) eqn:E; auto.
    apply sameListener_eq in E. now subst. }
  assert (He : existsb (sameListener type h) t = false).
  { destruct (existsb (sameListener type h) t) eqn:E; auto.
    apply existsb_exists in E. destruct E as (l & Hl & E).
    now rewrite (Hno l Hl) in E. }
  rewrite He. unfold removeEventListener. rewrite filter_app. cbn [filter].
  assert (Hs : sameListener type h (type, h) = true) by now apply sameListener_eq.
  rewrite Hs. cbn [negb]. rewrite app_nil_r.
  apply filter_all. intros l Hl. now rewrite (Hno l Hl).
Qed.

Lemma remove_other type h type' h' (t : Target) :
  (type', h') <> (type, h) ->
  removeEventListener type h (addEventListener type' h' t)
  = addEventListener type' h' (removeEventListener type h t).
Proof.
  intros Hne. unfold addEventListener, removeEventListener.
  assert (Hs : sameListener type h (type', h') = false).
  { destruct (sameListener type h (type', h')) eqn:E; auto.
    apply sameListener_eq in E. congruence. }
  assert (He : existsb (sameListener type' h')
                 (filter (fun l => negb (sameListener type h l)) t)
               = existsb (sameListener type' h') t).
  { induction t as [ | l t IH]; cbn [filter existsb]; auto.
    destruct (sameListener type h l) eqn:E; cbn [negb existsb].
    - rewrite IH. apply sameListener_eq in E. subst l.
      destruct (sameListener type' h' (type, h)) eqn:E'; auto.
      apply sameListener_eq in E'. congruence.
    - now rewrite IH. }
  rewrite He. destruct (existsb (sameListener type' h') t); auto.
  rewrite filter_app. cbn [filter]. now rewrite Hs.
Qed.

Lemma not_made reg type h (t : Target) :
  (forall l, In l t -> madeBy reg (snd l) = false) ->
  madeBy reg h = true -> ~ In (type, h) t.
Proof.
  intros Hf Hm Hin. apply Hf in Hin. cbn [snd] in Hin. congruence.
Qed.

Lemma registered_removed reg (d : Target) :
  (forall l, In l d -> madeBy reg (snd l) = false) ->
  removeEventListener "visibilitychange" (OnVisibilityChange reg)
    (addEventListener "visibilitychange" (OnVisibilityChange reg) d) = d
  /\ removeEventListener "beforeunload" (OnBeforeUnload reg)
       (removeEventListener "pagehide" (OnPageHide reg)
          (addEventListener "beforeunload" (OnBeforeUnload reg)
             (addEventListener "pagehide" (OnPageHide reg) d))) = d.
Proof.
  intros Hd.
  assert (H1 : ~ In ("visibilitychange", OnVisibilityChange reg) d)
    by (eapply not_made; [eassumption | simpl; apply Nat.eqb_refl]).
  assert (H2 : ~ In ("pagehide", OnPageHide reg) d)
    by (eapply not_made; [eassumption | simpl; apply Nat.eqb_refl]).
  assert (H3 : ~ In ("beforeunload", OnBeforeUnload reg) d)
    by (eapply not_made; [eassumption | simpl; apply Nat.eqb_refl]).
  split; [now apply remove_added | ].
  rewrite remove_other by discriminate.
  rewrite (remove_added "pagehide") by assumption.
  now apply remove_added.
Qed.

(** X14.  The function that [registerLifecycleFlush] returns undoes the
    registration: on a page that holds no listener made by this call
    (its closures are new), running it after the registration leaves
    the document and the window with exactly the listeners they had, in
    the same order, whether or not either target exists and whether or
    not [onFlush] is a function. *)
Theorem unsubscribe_restores onFlushIsFunction reg p :
  freshFor reg p ->
  unsubscribe (snd (registerLifecycleFlush onFlushIsFunction reg p))
    (fst (registerLifecycleFlush onFlushIsFunction reg p))
  = p.
Proof.
  intros Hfresh. unfold registerLifecycleFlush.
  destruct onFlushIsFunction; cbn [negb]; [ | now destruct p].
  destruct p as [[d | ] vis [w | ]]; cbn [documentRef windowRef visibilityState];
    unfold unsubscribe;
    cbn [fst snd fold_left app documentRef windowRef visibilityState option_map];
    try reflexivity.
  - assert (Hd : forall l, In l d -> madeBy reg (snd l) = false)
      by (apply (Hfresh d); now left).
    assert (Hw : forall l, In l w -> madeBy reg (snd l) = false)
      by (apply (Hfresh w); now right).
    destruct (registered_removed reg d Hd) as [-> _].
    destruct (registered_removed reg w Hw) as [_ ->]. reflexivity.
  - assert (Hd : forall l, In l d -> madeBy reg (snd l) = false)
      by (apply (Hfresh d); now left).
    destruct (registered_removed reg d Hd) as [-> _]. reflexivity.
  - assert (Hw : forall l, In l w -> madeBy reg (snd l) = false)
      by (apply (Hfresh w); now right).
    destruct (registered_removed reg w Hw) as [_ ->]. reflexivity.
Qed.

Lemma unsubscribe_restores_witness :
  let p := mkPage (Some [("visibilitychange", OnVisibilityChange 0);
                         ("click", Foreign 7)])
             "visible"
             (Some [("pagehide", Foreign 3)]) in
  freshFor 1 p
  /\ unsubscribe (snd (registerLifecycleFlush true 1 p))
       (fst (registerLifecycleFlush true 1 p))
     = p.
Proof.
  intros p.
  assert (Hf : freshFor 1 p).
  { intros t [[= <-] | [= <-]] l Hl; simpl in Hl;
      repeat (destruct Hl as [<- | Hl]; [reflexivity | ]); contradiction. }
  split; [exact Hf | exact (unsubscribe_restores true 1 p Hf)].
Defined.

Lemma dispatch_foreign onFlush p (t : Target) type :
  (forall l, In l t -> exists n, snd l = Foreign n) ->
  dispatch onFlush p (Some t) type = [].
Proof.
  intros Hq. cbn [dispatch]. induction t as [ | l t IH]; cbn [flat_map]; auto.
  rewrite IH by (intros l' Hl'; apply Hq; now right).
  destruct (Hq l (or_introl eq_refl)) as [n Hn].
  destruct (String.eqb type (fst l)); [ | reflexivity].
  rewrite Hn. reflexivity.
Qed.

Lemma add_absent type h (t : Target) :
  ~ In (type, h) t -> addEventListener type h t = t ++ [(type, h)].
Proof.
  intros Hnot. unfold addEventListener.
  destruct (existsb (sameListener type h) t) eqn:E; auto.
  apply existsb_exists in E. destruct E as (l & Hl & E).
  apply sameListener_eq in E. now subst l.
Qed.

Lemma foreign_not_made reg (t : Target) :
  (forall l, In l t -> exists n, snd l = Foreign n) ->
  forall l, In l t -> madeBy reg (snd l) = false.
Proof. intros Hq l Hl. destruct (Hq l Hl) as [n ->]. reflexivity. Qed.

Lemma registered_listeners reg (t : Target) :
  (forall l, In l t -> madeBy reg (snd l) = false) ->
  addEventListener "visibilitychange" (OnVisibilityChange reg) t
  = t ++ [("visibilitychange", OnVisibilityChange reg)]
  /\ addEventListener "beforeunload" (OnBeforeUnload reg)
       (addEventListener "pagehide" (OnPageHide reg) t)
     = t ++ [("pagehide", OnPageHide reg); ("beforeunload", OnBeforeUnload reg)].
Proof.
  intros Hf.
  assert (H1 : ~ In ("visibilitychange", OnVisibilityChange reg) t)
    by (eapply not_made; [eassumption | simpl; apply Nat.eqb_refl]).
  assert (H2 : ~ In ("pagehide", OnPageHide reg) t)
    by (eapply not_made; [eassumption | simpl; apply Nat.eqb_refl]).
  assert (H3 : ~ In ("beforeunload", OnBeforeUnload reg) t)
    by (eapply not_made; [eassumption | simpl; apply Nat.eqb_refl]).
  split; [now apply add_absent | ].
  rewrite (add_absent "pagehide") by assumption.
  rewrite add_absent.
  - now rewrite <- app_assoc.
  - intros Hin. apply in_app_or in Hin. destruct Hin as [Hin | [Hin | []]]; auto.
    discriminate Hin.
Qed.

Lemma dispatch_app onFlush p (t1 t2 : Target) type :
  dispatch onFlush p (Some (t1 ++ t2)) type
  = dispatch onFlush p (Some t1) type ++ dispatch onFlush p (Some t2) type.
Proof. cbn [dispatch]. apply flat_map_app. Qed.

(** X15.  What the listeners ask for.  On a page whose document and
    window carry only listeners of other code, after the registration a
    [visibilitychange] event on the document calls [onFlush] once with the
    reason visibilitychange when the document is hidden and not at all
    when it is visible; [pagehide] and [beforeunload] on the window each
    call it once, with their own name as the reason; and once the
    returned function has run no event calls [onFlush] any more. *)
Theorem lifecycle_flush_reasons onFlush reg d vis w :
  (forall l, In l d -> exists n, snd l = Foreign n) ->
  (forall l, In l w -> exists n, snd l = Foreign n) ->
  let p := mkPage (Some d) vis (Some w) in
  let registered := fst (registerLifecycleFlush true reg p) in
  let unsubs := snd (registerLifecycleFlush true reg p) in
  dispatch onFlush registered (documentRef registered) "visibilitychange"
  = (if String.eqb vis "hidden"
     then [flushSafely onFlush "visibilitychange"] else [])
  /\ dispatch onFlush registered (windowRef registered) "pagehide"
     = [flushSafely onFlush "pagehide"]
  /\ dispatch onFlush registered (windowRef registered) "beforeunload"
     = [flushSafely onFlush "beforeunload"]
  /\ (forall type,
        dispatch onFlush (unsubscribe unsubs registered)
          (documentRef (unsubscribe unsubs registered)) type = []
        /\ dispatch onFlush (unsubscribe unsubs registered)
             (windowRef (unsubscribe unsubs registered)) type = []).
Proof.
  intros Hd Hw p registered unsubs.
  pose proof (foreign_not_made reg d Hd) as Hfd.
  pose proof (foreign_not_made reg w Hw) as Hfw.
  assert (Hback : unsubscribe unsubs registered = p).
  { subst registered unsubs p. unfold registerLifecycleFlush, unsubscribe.
    cbn [negb fst snd fold_left app documentRef windowRef visibilityState
         option_map].
    destruct (registered_removed reg d Hfd) as [-> _].
    destruct (registered_removed reg w Hfw) as [_ ->]. reflexivity. }
  rewrite Hback. subst registered unsubs p.
  unfold registerLifecycleFlush.
  cbn [negb fst snd documentRef windowRef visibilityState].
  destruct (registered_listeners reg d Hfd) as [-> _].
  destruct (registered_listeners reg w Hfw) as [_ ->].
  rewrite !dispatch_app.
  rewrite (dispatch_foreign _ _ d) by assumption.
  rewrite !(dispatch_foreign _ _ w) by assumption.
  cbn [dispatch flat_map fst snd runHandler app visibilityState].
  rewrite !String.eqb_refl.
  change (String.eqb "pagehide" "beforeunload") with false.
  change (String.eqb "beforeunload" "pagehide") with false.
  cbn [app]. rewrite app_nil_r.
  repeat split; auto;
    match goal with
    | |- flat_map _ ?t = [] =>
        apply (dispatch_foreign onFlush _ t type); assumption
    end.
Qed.

Lemma lifecycle_flush_reasons_witness :
  let onFlush := fun _ : string => Normal (Thenable false) in
  let d : Target := [("click", Foreign 7)] in
  let w : Target := [("pagehide", Foreign 3)] in
  let p := mkPage (Some d) "hidden" (Some w) in
  let registered := fst (registerLifecycleFlush true 1 p) in
  let unsubs := snd (registerLifecycleFlush true 1 p) in
  ((forall l, In l d -> exists n, snd l = Foreign n)
   /\ (forall l, In l w -> exists n, snd l = Foreign n))
  /\ (dispatch onFlush registered (documentRef registered) "visibilitychange"
      = (if String.eqb "hidden" "hidden"
         then [flushSafely onFlush "visibilitychange"] else [])
      /\ dispatch onFlush registered (windowRef registered) "pagehide"
         = [flushSafely onFlush "pagehide"]
      /\ dispatch onFlush registered (windowRef registered) "beforeunload"
         = [flushSafely onFlush "beforeunload"]
      /\ (forall type,
            dispatch onFlush (unsubscribe unsubs registered)
              (documentRef (unsubscribe unsubs registered)) type = []
            /\ dispatch onFlush (unsubscribe unsubs registered)
                 (windowRef (unsubscribe unsubs registered)) type = [])).
Proof.
  intros onFlush d w p registered unsubs.
  assert (Hd : forall l, In l d -> exists n, snd l = Foreign n).
  { intros l [<- | []]. now exists 7%nat. }
  assert (Hw : forall l, In l w -> exists n, snd l = Foreign n).
  { intros l [<- | []]. now exists 3%nat. }
  split; [split; assumption | ].
  exact (lifecycle_flush_reasons onFlush 1 d "hidden" w Hd Hw).
Defined.

(** X16.  A lifecycle listener never throws into the page that is
    going away.  Whatever [onFlush] does (return nothing, return a
    promise, throw, return an object whose [catch] throws) every call of
    [flushSafely] completes normally after calling [onFlush] with the
    reason it was given, and it attaches a rejection handler to a result
    that has a working [catch]; hence no listener run by any event on any
    target throws. *)
Theorem lifecycle_never_throws onFlush :
  (forall reason,
     exists a,
       flushSafely onFlush reason = Normal a
       /\ attemptReason a = reason
       /\ (onFlush reason = Normal (Thenable false) ->
           rejectionHandled a = true))
  /\ (forall p t type,
        Forall (fun c => c <> Throw) (dispatch onFlush p t type)).
Proof.
  assert (Hsafe : forall reason,
    exists a,
      flushSafely onFlush reason = Normal a
      /\ attemptReason a = reason
      /\ (onFlush reason = Normal (Thenable false) ->
          rejectionHandled a = true)).
  { intros reason. unfold flushSafely.
    destruct (onFlush reason) as [[ | | [ | ]] | ]; cbn [tryCatch];
      eexists; (split; [reflexivity | split; [reflexivity | ]]);
      intros H; try discriminate H; reflexivity. }
  split; [exact Hsafe | ].
  intros p [t | ] type; [ | constructor]. cbn [dispatch].
  induction t as [ | l t IH]; cbn [flat_map]; [constructor | ].
  apply Forall_app. split; [ | exact IH].
  destruct (String.eqb type (fst l)); [ | constructor].
  destruct (snd l); cbn [runHandler];
    try destruct (String.eqb (visibilityState p) "hidden");
    repeat constructor;
    match goal with
    | |- flushSafely ?f ?r <> Throw =>
        destruct (Hsafe r) as (a & -> & _); discriminate
    end.
Qed.

(** ** A handler of [onState] that calls back *)

Lemma NoDup_settle e w :
  NoDup (Obj.keys (drafts w)) -> NoDup (Obj.keys (drafts (settleDraft e w))).
Proof.
  intros Hnd. rewrite settleDraft_eq. fields.
  destruct (superseded e (drafts w)); auto.
  now apply ObjFacts.NoDup_keys_remove.
Qed.

(** X17.  The editor's handler of [onState] hands every state to
    [absorbRemoteState].  With a handler that only observes, [stepWith]
    is [step].  With the editor's handler every turn still does what
    [step] does, except the turn in which a reload after a conflict
    answers with a state: there the drafts are pruned against the
    reloaded state before the write is sent again, where [step] leaves
    the store alone; the write of the entry is resent all the same,
    also when the reloaded state no longer lists its entity. *)
Theorem editor_handler_absorbs :
  (forall w ev, stepWith (fun _ w => w) w ev = step w ev)
  /\ (forall w ev,
        NoDup (Obj.keys (drafts w)) ->
        (forall t r e rest s,
           ev = EvNetReply t (NetOk (Some s)) ->
           getTask t (tasks w) <> Some (SyncReloading r e rest)) ->
        stepWith editorOnState w ev = step w ev)
  /\ (forall w t r e rest s,
        getTask t (tasks w) = Some (SyncReloading r e rest) ->
        flushing w = true ->
        let w' := stepWith editorOnState w (EvNetReply t (NetOk (Some s))) in
        drafts w' = pruneDraftsAgainstRemote (drafts w) (Some s)
        /\ drafts (step w (EvNetReply t (NetOk (Some s)))) = drafts w
        /\ status w' = status w
        /\ getTask t (tasks w') = Some (SyncWriting r e rest true)
        /\ commandsOf (trace w')
           = commandsOf (trace w) ++ [CV_UPDATE_TYPE (cvTypeId e) (data e) r]).
Proof.
  split; [ | split].
  - intros w ev. destruct ev as [c | k d b | r | | rs | rs | | | task | task reply];
      try reflexivity.
    cbn [stepWith step]. destruct reply as [st | c]; [ | reflexivity].
    destruct (getTask task (tasks w)) as [[] | ]; try reflexivity.
  - intros w ev Hnd Hno.
    destruct ev as [c | k d b | r | | rs | rs | | | task | task reply];
      try reflexivity.
    cbn [stepWith step]. destruct reply as [st | c]; [ | reflexivity].
    destruct (getTask task (tasks w)) as [[] | ] eqn:Ht; try reflexivity.
    + unfold writeSucceededWith, writeSucceeded. cbv zeta.
      destruct st as [s | ]; [ | reflexivity]. unfold editorOnState.
      rewrite absorb_idem; [reflexivity | ].
      unfold emit. fields. now apply NoDup_settle.
    + destruct st as [s | ]; [ | reflexivity].
      exfalso. eapply Hno; eauto.
  - intros w t r e rest s Ht Hf w'. subst w'. cbn [stepWith step]. rewrite Ht.
    unfold reloadSucceededWith, reloadSucceeded, editorOnState. cbv zeta.
    norm. rewrite Hf, Bool.andb_false_r. cbn [andb].
    cbn [getTask]. rewrite Nat.eqb_refl. trace_facts.
    repeat split; reflexivity.
Qed.

(** ** The status of an idle controller *)

(** X18.  In every state the controller reaches through ordinary
    identifiers, while no flush is draining, the status is a function of
    the store unless it is error: saved when the store is empty, pending
    when it holds a draft, never saving. *)
Theorem idle_status_tells_store w :
  ordinary w -> flushing w = false ->
  status w = Error
  \/ status w = (if Obj.isEmpty (drafts w) then Saved else Pending).
Proof.
  intros Ho Hf. pose proof (ordinary_reachable w Ho) as Hr.
  destruct (status w) eqn:Hs.
  - right. now rewrite (saved_means_synced_reachable w Hr Hs).
  - right. pose proof (pending_means_drafts_reachable w Hr Hf Hs) as Hd.
    destruct (drafts w); [contradiction | reflexivity].
  - pose proof (saving_means_flushing w Hr Hs) as Hfl. congruence.
  - now left.
Qed.

Lemma idle_status_tells_store_witness :
  let d := JObj [("marker", JStr "draft")] in
  let w := run (createSyncController None 100)
             [EvScheduleTypeSave "type_1" d "remote_a"] in
  (ordinary w /\ flushing w = false)
  /\ (status w = Error
      \/ status w = (if Obj.isEmpty (drafts w) then Saved else Pending)).
Proof.
  intros d w.
  assert (Hr : ordinary w)
    by (apply ordinary_run; [now apply ordinary_init | reflexivity]).
  assert (Hf : flushing w = false) by reflexivity.
  split; [split; assumption | exact (idle_status_tells_store w Hr Hf)].
Defined.

(** ** What the end of a drain writes to storage *)

(** X19.  Whenever a drain ends, by success or by failure, the write it
    hands to the storage adapter is the store and the status the
    controller has at that moment: a crash right after a flush finds in
    storage what the controller held, normalised, with the time of the
    write. *)
Theorem drain_end_persists w t pc reply store :
  getTask t (tasks w) = Some pc -> draining pc = true ->
  storageArea w = Some store ->
  let w' := step w (EvNetReply t reply) in
  flushing w = true -> flushing w' = false ->
  storageArea w'
  = Some {| storedDrafts := Some (normalizeDraftMap (nowMs w) (Some (drafts w')));
            storedMeta := Some (status w', nowMs w) |}.
Proof.
  intros Ht Hd Hs w' Hf. subst w'. unfold step. rewrite Ht.
  destruct w as [dr s it lt fl nt de sa now tk nx tr].
  cbn [drafts status flushing destroyed nextTask trace tasks storageArea nowMs]
    in *. subst.
  destruct pc; try discriminate Hd; destruct reply.
  all: norm; repeat (split_world; norm); fields; try discriminate.
  all: reflexivity.
Qed.

Lemma drain_end_persists_witness :
  let d := JObj [("marker", JStr "draft")] in
  let store := mkStorage None None in
  let w0 := run (createSyncController (Some store) 100)
              [EvScheduleTypeSave "type_1" d "remote_a"; EvFlush "manual";
               EvStorageDone 0; EvClock 250] in
  let pc := SyncWriting "manual" (mkDraft "type_1" d 100 "remote_a" true) []
              false in
  let store0 := mkStorage (Some [("type_1", mkDraft "type_1" d 100 "remote_a" true)])
                  (Some (Pending, 100)) in
  let w' := step w0 (EvNetReply 0 (NetError "OFFLINE")) in
  (getTask 0 (tasks w0) = Some pc /\ draining pc = true
   /\ storageArea w0 = Some store0
   /\ flushing w0 = true /\ flushing w' = false)
  /\ storageArea w'
     = Some {| storedDrafts :=
                 Some (normalizeDraftMap (nowMs w0) (Some (drafts w')));
               storedMeta := Some (status w', nowMs w0) |}.
Proof.
  intros d store w0 pc store0 w'.
  assert (Ht : getTask 0 (tasks w0) = Some pc) by reflexivity.
  assert (Hd : draining pc = true) by reflexivity.
  assert (Hs : storageArea w0 = Some store0) by reflexivity.
  assert (Hf : flushing w0 = true) by reflexivity.
  assert (Hf' : flushing w' = false) by reflexivity.
  split; [repeat split; assumption | ].
  exact (drain_end_persists w0 0 pc (NetError "OFFLINE") store0 Ht Hd Hs Hf Hf').
Defined.

(** ** A drain comes to an end *)

Lemma length_remove {V} k (o : Obj.t V) :
  (List.length (Obj.remove k o) <= List.length o)%nat.
Proof.
  induction o as [ | [k0 v0] o IH]; simpl; auto.
  destruct (String.eqb k k0); simpl; lia.
Qed.

Lemma length_prune (o : Obj.t Draft) remoteState :
  NoDup (Obj.keys o) ->
  (List.length (pruneDraftsAgainstRemote o remoteState) <= List.length o)%nat.
Proof.
  intros Hnd. rewrite prune_filter_lists by assumption. apply filter_length_le.
Qed.

(** A successful write: the store does not grow and [onError] is not
    called. *)
Lemma write_shrinks w t r e rest rc st :
  NoDup (Obj.keys (drafts w)) ->
  getTask t (tasks w) = Some (SyncWriting r e rest rc) ->
  let w' := step w (EvNetReply t (NetOk st)) in
  (List.length (drafts w') <= List.length (drafts w))%nat
  /\ errorsOf (trace w') = errorsOf (trace w).
Proof.
  intros Hnd Ht w'. subst w'. split.
  - rewrite (drafts_after_write w t r e rest rc st Ht).
    assert (Hs : (List.length (drafts (settleDraft e w))
                  <= List.length (drafts w))%nat).
    { rewrite settleDraft_eq. fields.
      destruct (superseded e (drafts w)); [lia | apply length_remove]. }
    assert (Hnd' : NoDup (Obj.keys (drafts (settleDraft e w))))
      by now apply NoDup_settle.
    destruct st as [s | ]; auto.
    pose proof (length_prune _ (Some s) Hnd'). lia.
  - unfold step. rewrite Ht. unfold writeSucceeded. cbv zeta.
    destruct st as [s | ]; norm; repeat (split_world; norm); fields;
      split_values; trace_facts; now rewrite ?app_nil_r.
Qed.

(** The last successful write of a pass that ends the drain. *)
Lemma drain_ends w t r e rc st :
  getTask t (tasks w) = Some (SyncWriting r e [] rc) ->
  let w' := step w (EvNetReply t (NetOk st)) in
  getTask t (tasks w') = Some (FlushFinishing r) ->
  flushing w' = false
  /\ status w' = (if Obj.isEmpty (drafts w') then Saved else Pending).
Proof.
  intros Ht w'. subst w'. unfold step. rewrite Ht. unfold writeSucceeded.
  cbv zeta.
  destruct st as [s | ]; norm; repeat (split_world; norm); fields;
    cbn [getTask]; rewrite ?Nat.eqb_refl; try discriminate; intros _;
    split_values; cbn [negb andb] in *; emptiness;
    repeat match goal with
           | H : ?o = [] |- _ => rewrite H in *
           end;
    cbn [Obj.isEmpty] in *; try discriminate; try congruence; auto.
Qed.

Lemma okReplies_app t states from n m :
  okReplies t states from (n + m)
  = okReplies t states from n ++ okReplies t states (from + n) m.
Proof. unfold okReplies. now rewrite seq_app, map_app. Qed.

Lemma okReplies_list t states from n :
  okReplies t states from n
  = map (EvNetReply t) (map NetOk (map states (seq from n))).
Proof. unfold okReplies. now rewrite !map_map. Qed.

(** The pass in flight runs to its end when its writes succeed: the
    drain ends there, or a trailing pass over the whole store starts. *)
Lemma pass_runs t r states : forall rest e rc from w,
  reachable w ->
  getTask t (tasks w) = Some (SyncWriting r e rest rc) ->
  let w' := run w (okReplies t states from (S (List.length rest))) in
  reachable w'
  /\ (List.length (drafts w') <= List.length (drafts w))%nat
  /\ errorsOf (trace w') = errorsOf (trace w)
  /\ ((getTask t (tasks w') = Some (FlushFinishing r)
       /\ flushing w' = false
       /\ status w' = (if Obj.isEmpty (drafts w') then Saved else Pending))
      \/ (exists e' rest',
            getTask t (tasks w') = Some (SyncWriting r e' rest' false)
            /\ sortByTime (Obj.values (drafts w')) = e' :: rest'
            /\ needsTrailingFlush w' = false /\ flushing w' = true)).
Proof.
  induction rest as [ | e2 rest IH]; intros e rc from w Hr Ht w'; subst w';
    cbn [List.length okReplies seq map]; unfold okReplies; cbn [seq map];
    rewrite run_cons;
    pose proof (wellKeyed_reachable w Hr) as [Hnd _];
    destruct (write_shrinks w t r e _ rc (states from) Hnd Ht) as [Hlen Herr];
    pose proof (reachable_step w (EvNetReply t (NetOk (states from))) Hr) as Hr1.
  - rewrite run_nil. split; [exact Hr1 | split; [exact Hlen | split; [exact Herr | ]]].
    pose proof (pass_end w t r e rc (states from) Ht) as Hend. cbv zeta in Hend.
    destruct (oneDrain_reachable w Hr) as [Hidle _].
    assert (Hf : flushing w = true).
    { destruct (flushing w) eqn:E; auto.
      specialize (Hidle eq_refl _ _ Ht). discriminate Hidle. }
    destruct (needsTrailingFlush w || superseded e (drafts w)).
    + destruct (sortByTime
                  (Obj.values (drafts (step w (EvNetReply t (NetOk (states from)))))))
        as [ | e' rest'] eqn:Hsort.
      * left. destruct Hend as (Hg & _ & Hfl).
        destruct (drain_ends w t r e rc (states from) Ht Hg) as [_ Hst]. auto.
      * right. exists e', rest'. destruct Hend as (Hg & _ & Hn & Hfl).
        rewrite Hf in Hfl. auto.
    + left. destruct Hend as (Hg & _ & Hfl).
      destruct (drain_ends w t r e rc (states from) Ht Hg) as [_ Hst]. auto.
  - destruct (pass_continues w t r e e2 rest rc (states from) Ht) as (Hg & _ & _).
    specialize (IH e2 false (S from) _ Hr1 Hg). cbv zeta in IH.
    unfold okReplies in IH. cbn [List.length seq map] in IH.
    destruct IH as (Hr2 & Hlen2 & Herr2 & Hcases).
    split; [exact Hr2 | split; [lia | split; [congruence | exact Hcases]]].
Qed.

(** X20.  A drain comes to an end.  Take any reachable state in which a
    write of a pass is in flight, and let every write from then on
    succeed, with whatever states, while nothing else happens (no edit,
    no other call).  Then the drain ends after at most one trailing
    pass: the number of replies it takes is at most the entries left in
    the pass plus the drafts in the store.  When it ends the flushing
    flag is down, the status is saved if the store is empty and pending
    otherwise, and [onError] was not called. *)
Theorem drain_terminates w t r e rest rc (states : nat -> option RemoteState) :
  reachable w ->
  getTask t (tasks w) = Some (SyncWriting r e rest rc) ->
  exists n,
    (n <= S (List.length rest) + List.length (drafts w))%nat
    /\ let w' := run w (map (fun i => EvNetReply t (NetOk (states i)))
                         (seq 0 n)) in
       flushing w' = false
       /\ getTask t (tasks w') = Some (FlushFinishing r)
       /\ status w' = (if Obj.isEmpty (drafts w') then Saved else Pending)
       /\ errorsOf (trace w') = errorsOf (trace w).
Proof.
  intros Hr Ht.
  destruct (pass_runs t r states rest e rc 0%nat w Hr Ht)
    as (Hr1 & Hlen & Herr & [(Hg & Hf & Hs) | (e' & rest' & Hg & Hsort & Hn & Hf)]).
  - exists (S (List.length rest)). split; [lia | ]. cbv zeta.
    fold (okReplies t states 0 (S (List.length rest))). auto.
  - set (w1 := run w (okReplies t states 0 (S (List.length rest)))) in *.
    pose proof (wellKeyed_reachable w1 Hr1) as Hw.
    pose proof (sortByTime_perm (Obj.values (drafts w1))) as Hperm.
    rewrite Hsort in Hperm.
    destruct (drain_pass t r rest' e' false
                (map states (seq (S (List.length rest)) (S (List.length rest'))))
                w1)
      as (Hd2 & Hg2 & Hf2 & Hs2 & _ & _ & He2); auto.
    + intros k d Hin. apply (Permutation_in _ Hperm).
      now apply (in_map snd) in Hin.
    + apply (Permutation_NoDup (Permutation_map cvTypeId Hperm)).
      rewrite ids_of_values by assumption. apply Hw.
    + now rewrite length_map, length_seq.
    + exists (S (List.length rest) + S (List.length rest'))%nat. split.
      * apply Permutation_length in Hperm. unfold Obj.values in Hperm.
        rewrite length_map in Hperm. cbn [List.length] in Hperm. lia.
      * cbv zeta. fold (okReplies t states 0
                          (S (List.length rest) + S (List.length rest'))).
        rewrite okReplies_app, run_app. fold w1. cbn [Nat.add].
        rewrite okReplies_list. rewrite Hd2, Hf2, Hs2, He2.
        repeat split; auto.
Qed.

Lemma drain_terminates_witness :
  let d1 := JObj [("name", JStr "first")] in
  let d2 := JObj [("name", JStr "second")] in
  let w := run (createSyncController None 100)
             [EvClock 10; EvScheduleTypeSave "type_a" d1 "v1";
              EvClock 20; EvScheduleTypeSave "type_b" d2 "v1";
              EvFlush "manual"; EvStorageDone 0;
              EvClock 30; EvScheduleTypeSave "type_a" d2 "v1"] in
  let e := mkDraft "type_a" d1 10 "v1" true in
  let rest := [mkDraft "type_b" d2 20 "v1" true] in
  let states := fun _ : nat => @None RemoteState in
  (reachable w
   /\ getTask 0 (tasks w) = Some (SyncWriting "manual" e rest false))
  /\ exists n,
       (n <= S (List.length rest) + List.length (drafts w))%nat
       /\ let w' := run w (map (fun i => EvNetReply 0 (NetOk (states i)))
                            (seq 0 n)) in
          flushing w' = false
          /\ getTask 0 (tasks w') = Some (FlushFinishing "manual")
          /\ status w' = (if Obj.isEmpty (drafts w') then Saved else Pending)
          /\ errorsOf (trace w') = errorsOf (trace w).
Proof.
  intros d1 d2 w e rest states.
  assert (Hr : reachable w) by (apply reachable_run, reachable_init).
  assert (Ht : getTask 0 (tasks w) = Some (SyncWriting "manual" e rest false))
    by (vm_compute; reflexivity).
  split; [split; assumption | ].
  exact (drain_terminates w 0 "manual" e rest false states Hr Ht).
Defined.

(** * Flushes from their call to their return *)

(** ** Entries that succeed after a conflict, entries that fail *)

Lemma recovery_turns w t r e rest st0 :
  getTask t (tasks w) = Some (SyncWriting r e rest false) ->
  let w' := run w [EvNetReply t (NetError "STATE_CONFLICT");
                   EvNetReply t (NetOk st0)] in
  getTask t (tasks w') = Some (SyncWriting r e rest true)
  /\ drafts w' = drafts w /\ status w' = status w
  /\ flushing w' = flushing w
  /\ needsTrailingFlush w' = needsTrailingFlush w
  /\ storageArea w' = storageArea w /\ nowMs w' = nowMs w
  /\ commandsOf (trace w')
     = commandsOf (trace w)
       ++ [STATE_LOAD; CV_UPDATE_TYPE (cvTypeId e) (data e) r]
  /\ returnsOf (trace w') = returnsOf (trace w)
  /\ errorsOf (trace w') = errorsOf (trace w)
  /\ statusesOf (trace w') = statusesOf (trace w).
Proof.
  intros Ht w'. subst w'. rewrite !run_cons, run_nil.
  assert (E1 : step w (EvNetReply t (NetError "STATE_CONFLICT"))
               = suspend t (SyncReloading r e rest)
                   (emit (OSend t STATE_LOAD) w)).
  { unfold step. rewrite Ht. reflexivity. }
  rewrite E1. clear E1 Ht.
  destruct w as [dr s it lt fl nt de sa now tk nx tr].
  norm.
  destruct st0 as [s0 | ]; first_step resolve_tests; fields;
    cbn [getTask]; rewrite ?Nat.eqb_refl; trace_facts;
    repeat split; reflexivity.
Qed.

(** The write of an entry of an undisturbed pass succeeds, at once or
    after one recovered conflict. *)
Lemma entry_succeeds w t r e rest s :
  getTask t (tasks w) = Some (SyncWriting r e rest false) ->
  flushing w = true -> needsTrailingFlush w = false ->
  superseded e (drafts w) = false ->
  (rest = [] -> Obj.remove (cvTypeId e) (drafts w) = []) ->
  let w' := run w (map (EvNetReply t) (repliesOf s)) in
  drafts w'
  = pruneDraftsAgainstRemote (Obj.remove (cvTypeId e) (drafts w))
      (absorbedOf s)
  /\ returnsOf (trace w') = returnsOf (trace w)
  /\ errorsOf (trace w') = errorsOf (trace w)
  /\ nowMs w' = nowMs w
  /\ match rest with
     | e2 :: rest' =>
         getTask t (tasks w') = Some (SyncWriting r e2 rest' false)
         /\ flushing w' = true /\ needsTrailingFlush w' = false
         /\ status w' = status w
         /\ storageArea w' = storageArea w
         /\ commandsOf (trace w')
            = commandsOf (trace w) ++ tl (commandsFor r e s)
              ++ [CV_UPDATE_TYPE (cvTypeId e2) (data e2) r]
     | [] =>
         getTask t (tasks w') = Some (FlushFinishing r)
         /\ flushing w' = false /\ status w' = Saved
         /\ commandsOf (trace w')
            = commandsOf (trace w) ++ tl (commandsFor r e s)
     end.
Proof.
  intros Ht Hf Hn Hs He w'. subst w'.
  assert (Hone : forall w1 rc st,
    getTask t (tasks w1) = Some (SyncWriting r e rest rc) ->
    flushing w1 = true -> needsTrailingFlush w1 = false ->
    drafts w1 = drafts w ->
    let w' := step w1 (EvNetReply t (NetOk st)) in
    drafts w'
    = pruneDraftsAgainstRemote (Obj.remove (cvTypeId e) (drafts w)) st
    /\ returnsOf (trace w') = returnsOf (trace w1)
    /\ errorsOf (trace w') = errorsOf (trace w1)
    /\ nowMs w' = nowMs w1
    /\ match rest with
       | e2 :: rest' =>
           getTask t (tasks w') = Some (SyncWriting r e2 rest' false)
           /\ flushing w' = true /\ needsTrailingFlush w' = false
           /\ status w' = status w1
           /\ storageArea w' = storageArea w1
           /\ commandsOf (trace w')
              = commandsOf (trace w1)
                ++ [CV_UPDATE_TYPE (cvTypeId e2) (data e2) r]
       | [] =>
           getTask t (tasks w') = Some (FlushFinishing r)
           /\ flushing w' = false /\ status w' = Saved
           /\ commandsOf (trace w') = commandsOf (trace w1)
       end).
  { intros w1 rc st Ht1 Hf1 Hn1 Hd1 w'. subst w'.
    assert (Hs1 : superseded e (drafts w1) = false) by now rewrite Hd1.
    assert (He1 : rest = [] -> Obj.remove (cvTypeId e) (drafts w1) = [])
      by now rewrite Hd1.
    destruct (drain_step_any w1 t r e rest rc st Ht1 Hf1 Hn1 Hs1 He1)
      as (Hd & Hr & Herr & Hnext).
    rewrite Hd1 in Hd. split; [exact Hd | ]. split; [exact Hr | ].
    split; [exact Herr | ].
    assert (Hnow : nowMs (step w1 (EvNetReply t (NetOk st))) = nowMs w1
                   /\ (rest <> [] ->
                       storageArea (step w1 (EvNetReply t (NetOk st)))
                       = storageArea w1)).
    { unfold step. rewrite Ht1. unfold writeSucceeded. cbv zeta.
      destruct st as [s0 | ], rest as [ | e2 rest'];
        norm; repeat (split_world; norm); fields;
        (split; [reflexivity | intros Hne; try reflexivity; now contradiction Hne]). }
    destruct Hnow as [Hnow Hsto]. split; [exact Hnow | ].
    destruct rest as [ | e2 rest'].
    - exact Hnext.
    - destruct Hnext as (Hg & Hfl & Hn' & Hst' & Hc).
      repeat split; auto. apply Hsto. discriminate. }
  destruct s as [st | st0 st]; cbn [repliesOf map absorbedOf commandsFor tl].
  - rewrite run_cons, run_nil.
    destruct (Hone w false st Ht Hf Hn eq_refl) as (Hd & Hr & Herr & Hnow & Hnext).
    split; [exact Hd | ]. split; [exact Hr | ]. split; [exact Herr | ].
    split; [exact Hnow | ]. cbn [app].
    destruct rest as [ | e2 rest']; [now rewrite app_nil_r | exact Hnext].
  - rewrite run_cons, run_cons.
    change (run (step (step w (EvNetReply t (NetError "STATE_CONFLICT")))
                   (EvNetReply t (NetOk st0))) [EvNetReply t (NetOk st)])
      with (run (run w [EvNetReply t (NetError "STATE_CONFLICT");
                        EvNetReply t (NetOk st0)]) [EvNetReply t (NetOk st)]).
    destruct (recovery_turns w t r e rest st0 Ht)
      as (Hg2 & Hd2 & Hs2 & Hf2 & Hn2 & Hsa2 & Hnow2 & Hc2 & Hr2 & He2 & _).
    set (w2 := run w [EvNetReply t (NetError "STATE_CONFLICT");
                      EvNetReply t (NetOk st0)]) in *.
    rewrite run_cons, run_nil.
    destruct (Hone w2 true st Hg2) as (Hd & Hr & Herr & Hnow & Hnext);
      try congruence.
    split; [exact Hd | ]. split; [congruence | ]. split; [congruence | ].
    split; [congruence | ].
    destruct rest as [ | e2 rest'].
    + destruct Hnext as (Hg & Hfl & Hst' & Hc). rewrite Hc, Hc2.
      repeat split; auto.
    + destruct Hnext as (Hg & Hfl & Hn' & Hst' & Hsa' & Hc).
      rewrite Hc, Hc2, <- !app_assoc. repeat split; auto; congruence.
Qed.

(** A pass that nobody disturbs and whose writes all succeed, each at
    once or after one recovered conflict. *)
Lemma drain_pass_recovering t r : forall rest e ss w,
  getTask t (tasks w) = Some (SyncWriting r e rest false) ->
  flushing w = true -> needsTrailingFlush w = false ->
  wellKeyed (drafts w) ->
  (forall k d, In (k, d) (drafts w) -> In d (e :: rest)) ->
  NoDup (map cvTypeId (e :: rest)) ->
  List.length ss = S (List.length rest) ->
  let w' := run w (map (EvNetReply t) (flat_map repliesOf ss)) in
  drafts w' = []
  /\ getTask t (tasks w') = Some (FlushFinishing r)
  /\ flushing w' = false /\ status w' = Saved
  /\ commandsOf (trace w')
     = commandsOf (trace w)
       ++ tl (flat_map (fun es => commandsFor r (fst es) (snd es))
                (combine (e :: rest) ss))
  /\ returnsOf (trace w') = returnsOf (trace w)
  /\ errorsOf (trace w') = errorsOf (trace w).
Proof.
  induction rest as [ | e2 rest IH]; intros e ss w Ht Hf Hn Hw Hin Hnd Hlen;
    (destruct ss as [ | s ss]; [discriminate Hlen | ]);
    cbn [flat_map combine fst snd]; rewrite map_app, run_app;
    destruct (written_entry_leaves _ _ _ Hw Hin Hnd) as (Hs & Hw' & Hin').
  - assert (He : Obj.remove (cvTypeId e) (drafts w) = []).
    { destruct (Obj.remove (cvTypeId e) (drafts w)) as [ | [k d] o]; auto.
      destruct (Hin' k d (or_introl eq_refl)). }
    destruct ss; [ | discriminate Hlen]. cbn [flat_map map]. rewrite run_nil.
    destruct (entry_succeeds w t r e [] s Ht Hf Hn Hs (fun _ => He))
      as (Hd & Hr & Herr & _ & Hg & Hfl & Hst' & Hc).
    rewrite Hd, He, prune_nil, Hc, app_nil_r. repeat split; auto.
  - assert (He : e2 :: rest = [] -> Obj.remove (cvTypeId e) (drafts w) = [])
      by discriminate.
    destruct (entry_succeeds w t r e (e2 :: rest) s Ht Hf Hn Hs He)
      as (Hd & Hr & Herr & _ & Hg & Hfl & Hn' & Hst' & _ & Hc).
    set (w1 := run w (map (EvNetReply t) (repliesOf s))) in *.
    destruct (IH e2 ss w1) as (Hd2 & Hg2 & Hf2 & Hs2 & Hc2 & Hr2 & He2); auto.
    + rewrite Hd. now apply wellKeyed_prune.
    + rewrite Hd. intros k d Hkd. apply In_prune in Hkd; [ | apply Hw'].
      now apply (Hin' k d).
    + now inversion Hnd.
    + rewrite Hc2, Hc, Hr2, Hr, He2, Herr, <- !app_assoc.
      repeat split; auto. f_equal.
      destruct ss as [ | s2 ss]; [discriminate Hlen | ].
      cbn [combine flat_map fst snd].
      destruct s, s2; reflexivity.
Qed.

Lemma hasId_cons a l k : hasId (a :: l) k = String.eqb k a || hasId l k.
Proof. reflexivity. Qed.

(** The first writes of an undisturbed pass succeed and the pass reaches
    entry [e]: what is left in the store. *)
Lemma drain_prefix_recovering t r e post : forall pre ss w,
  match pre ++ e :: post with
  | x :: xs => getTask t (tasks w) = Some (SyncWriting r x xs false)
  | [] => False
  end ->
  flushing w = true -> needsTrailingFlush w = false ->
  wellKeyed (drafts w) ->
  (forall k d, In (k, d) (drafts w) -> In d (pre ++ e :: post)) ->
  NoDup (map cvTypeId (pre ++ e :: post)) ->
  List.length ss = List.length pre ->
  let w' := run w (map (EvNetReply t) (flat_map repliesOf ss)) in
  getTask t (tasks w') = Some (SyncWriting r e post false)
  /\ flushing w' = true /\ needsTrailingFlush w' = false
  /\ status w' = status w
  /\ storageArea w' = storageArea w /\ nowMs w' = nowMs w
  /\ (forall k, Obj.get k (drafts w')
                = if hasId (map cvTypeId pre) k then None
                  else if listedBy (map absorbedOf ss) k
                       then Obj.get k (drafts w) else None)
  /\ commandsOf (trace w')
     = commandsOf (trace w)
       ++ tl (flat_map (fun es => commandsFor r (fst es) (snd es))
                (combine pre ss)
              ++ [CV_UPDATE_TYPE (cvTypeId e) (data e) r])
  /\ returnsOf (trace w') = returnsOf (trace w)
  /\ errorsOf (trace w') = errorsOf (trace w).
Proof.
  induction pre as [ | p pre IH]; intros ss w Ht Hf Hn Hw Hin Hnd Hlen;
    (destruct ss as [ | s ss]; try discriminate Hlen).
  - cbn [app map flat_map combine tl listedBy forallb hasId existsb] in *.
    rewrite run_nil, app_nil_r. repeat split; auto.
  - cbn [app map flat_map combine fst snd] in Ht, Hin, Hnd |- *.
    rewrite map_app, run_app.
    destruct (written_entry_leaves _ _ _ Hw Hin Hnd) as (Hs & Hw' & Hin').
    assert (Hne : pre ++ e :: post <> []) by (destruct pre; discriminate).
    assert (He : pre ++ e :: post = [] ->
                 Obj.remove (cvTypeId p) (drafts w) = [])
      by (intros E; contradiction).
    destruct (entry_succeeds w t r p (pre ++ e :: post) s Ht Hf Hn Hs He)
      as (Hd & Hr & Herr & Hnow & Hnext).
    set (w1 := run w (map (EvNetReply t) (repliesOf s))) in *.
    destruct (pre ++ e :: post) as [ | x xs] eqn:Ees; [contradiction | ].
    destruct Hnext as (Hg & Hfl & Hn' & Hst' & Hsa' & Hc).
    destruct (IH ss w1)
      as (Hg2 & Hf2 & Hn2 & Hs2 & Hsa2 & Hnow2 & Hd2 & Hc2 & Hr2 & He2); auto.
    + rewrite Hd. now apply wellKeyed_prune.
    + rewrite Hd. intros k d Hkd. apply In_prune in Hkd; [ | apply Hw'].
      now apply (Hin' k d).
    + now inversion Hnd.
    + split; [exact Hg2 | ]. split; [exact Hf2 | ]. split; [exact Hn2 | ].
      split; [congruence | ]. split; [congruence | ]. split; [congruence | ].
      split; [ | split; [ | split; congruence]].
      * intros k. rewrite Hd2, Hd, get_prune by apply Hw'.
        rewrite get_remove by apply Hw.
        cbn [map listedBy forallb]. rewrite hasId_cons.
        fold (listedBy (map absorbedOf ss) k).
        destruct (String.eqb k (cvTypeId p));
          destruct (hasId (map cvTypeId pre) k);
          destruct (lists (absorbedOf s) k);
          destruct (listedBy (map absorbedOf ss) k); reflexivity.
      * rewrite Hc2, Hc, <- !app_assoc. f_equal.
        assert (Hhd : forall Y,
                  tl (commandsFor r p s ++ Y) = tl (commandsFor r p s) ++ Y)
          by (intros Y; destruct s; reflexivity).
        rewrite Hhd. f_equal.
        destruct pre as [ | p2 pre]; cbn [app] in Ees; injection Ees as <- <-.
        -- destruct ss; [reflexivity | discriminate Hlen].
        -- destruct ss as [ | s2 ss]; [discriminate Hlen | ].
           cbn [combine flat_map fst snd]. destruct s2; reflexivity.
Qed.

(** The write of an entry fails for good, and the call returns. *)
Lemma entry_fails w t r e rest f :
  getTask t (tasks w) = Some (SyncWriting r e rest false) ->
  isFailure f = true ->
  let w' := run w (map (EvNetReply t) (failureReplies f)
                   ++ [EvStorageDone t]) in
  drafts w' = drafts w /\ status w' = Error /\ flushing w' = false
  /\ getTask t (tasks w') = None
  /\ commandsOf (trace w')
     = commandsOf (trace w) ++ tl (failureCommands r e f)
  /\ errorsOf (trace w') = errorsOf (trace w) ++ [failureCode f]
  /\ returnsOf (trace w')
     = returnsOf (trace w)
       ++ [{| ok := false; reason := None; resultStatus := Error |}]
  /\ statusesOf (trace w')
     = statusesOf (trace w)
       ++ (if Status_eqb (status w) Error then [] else [Error])
  /\ storageArea w'
     = match storageArea w with
       | Some _ =>
           Some {| storedDrafts :=
                     Some (normalizeDraftMap (nowMs w) (Some (drafts w)));
                   storedMeta := Some (Error, nowMs w) |}
       | None => None
       end.
Proof.
  intros Ht Hfail w'. subst w'.
  destruct w as [dr s it lt fl nt de sa now tk nx tr].
  cbn [drafts status flushing tasks trace storageArea nowMs] in *.
  unfold run.
  destruct f as [c | c | st0 c]; cbn [failureReplies map app fold_left
    failureCommands failureCode tl isFailure] in *.
  - apply Bool.negb_true_iff in Hfail.
    destruct sa as [store | ], s.
    all: do 2 first_step ltac:(rewrite ?Ht, ?Hfail; resolve_tests).
    all: fields; rewrite ?getTask_dropTask; trace_facts.
    all: repeat split; reflexivity.
  - destruct sa as [store | ], s.
    all: do 3 first_step ltac:(rewrite ?Ht; resolve_tests).
    all: fields; rewrite ?getTask_dropTask; trace_facts.
    all: repeat split; reflexivity.
  - destruct sa as [store | ], s, st0 as [s0 | ].
    all: do 4 first_step ltac:(rewrite ?Ht, ?Bool.andb_false_r; resolve_tests).
    all: fields; rewrite ?getTask_dropTask; trace_facts.
    all: repeat split; reflexivity.
Qed.

(** ** A flush from its call to its return *)

(** The idle timer calls [flush ('idle')]. *)
Lemma idle_timer_is_flush w :
  idleTimer w = true -> destroyed w = false ->
  step w EvIdleTimer = step w (EvFlush "idle").
Proof.
  intros H Hx. unfold step. rewrite H. unfold flush, clearIdleTimer.
  destruct w as [dr s it lt fl nt de sa now tk nx tr].
  cbn in H, Hx. subst. reflexivity.
Qed.

Lemma flush_starts_store w r e rest :
  drafts w <> [] -> flushing w = false -> destroyed w = false ->
  sortByTime (Obj.values (drafts w)) = e :: rest ->
  let w' := run w [EvFlush r; EvStorageDone (nextTask w)] in
  nowMs w' = nowMs w
  /\ status w' = Saving
  /\ statusesOf (trace w')
     = statusesOf (trace w)
       ++ (if Status_eqb (status w) Saving then [] else [Saving])
  /\ (storageArea w = None -> storageArea w' = None)
  /\ (forall s, storageArea w = Some s -> exists s', storageArea w' = Some s').
Proof.
  intros Hd Hf Hx Hsort w'. subst w'.
  destruct w as [dr s it lt fl nt de sa now tk nx tr].
  cbn [drafts status flushing destroyed nextTask trace tasks storageArea nowMs]
    in *. subst.
  assert (He : Obj.isEmpty dr = false) by (destruct dr; [contradiction | reflexivity]).
  unfold run. cbn [fold_left].
  destruct sa as [store | ].
  all: do 2 first_step ltac:(rewrite ?He, ?Hsort; resolve_tests; rewrite ?He, ?Hsort).
  all: fields; split_values; trace_facts; rewrite ?app_nil_r.
  all: repeat split; try reflexivity; try discriminate; eauto.
Qed.

Lemma sorted_values_get w x :
  wellKeyed (drafts w) ->
  In x (sortByTime (Obj.values (drafts w))) ->
  Obj.get (cvTypeId x) (drafts w) = Some x.
Proof.
  intros [Hnd Hk] Hx.
  apply (Permutation_in _ (Permutation_sym (sortByTime_perm _))) in Hx.
  apply in_map_iff in Hx. destruct Hx as ([k d] & <- & Hkd).
  destruct (Hk _ _ Hkd) as (_ & <- & _). now apply ObjFacts.In_get.
Qed.

Lemma sorted_values_NoDup w :
  wellKeyed (drafts w) ->
  NoDup (map cvTypeId (sortByTime (Obj.values (drafts w)))).
Proof.
  intros Hw.
  apply (Permutation_NoDup
           (Permutation_map cvTypeId (sortByTime_perm (Obj.values (drafts w))))).
  rewrite ids_of_values by assumption. apply Hw.
Qed.

Lemma sorted_values_In w k d :
  In (k, d) (drafts w) -> In d (sortByTime (Obj.values (drafts w))).
Proof.
  intros Hin. apply (Permutation_in _ (sortByTime_perm _)).
  now apply (in_map snd) in Hin.
Qed.

(** A flush of an idle controller whose writes all succeed, each at once
    or after one recovered conflict. *)
Lemma recovering_flush_run w r ss :
  reachable w ->
  drafts w <> [] -> flushing w = false -> destroyed w = false ->
  List.length ss = List.length (drafts w) ->
  let w' := run w (flushTurns (nextTask w) r (flat_map repliesOf ss)) in
  commandsOf (trace w')
  = commandsOf (trace w)
    ++ flat_map (fun es => commandsFor r (fst es) (snd es))
         (combine (sortByTime (Obj.values (drafts w))) ss)
  /\ drafts w' = []
  /\ status w' = Saved
  /\ flushing w' = false
  /\ returnsOf (trace w')
     = returnsOf (trace w)
       ++ [{| ok := true; reason := None; resultStatus := Saved |}]
  /\ errorsOf (trace w') = errorsOf (trace w).
Proof.
  intros Hr Hd Hf Hx Hlen w'. subst w'.
  pose proof (wellKeyed_reachable w Hr) as Hw.
  pose proof (sortByTime_perm (Obj.values (drafts w))) as Hperm.
  pose proof (sorted_values_NoDup w Hw) as Hnd.
  assert (Hall : forall k d, In (k, d) (drafts w) ->
                             In d (sortByTime (Obj.values (drafts w))))
    by (intros k d; apply sorted_values_In).
  destruct (sortByTime (Obj.values (drafts w))) as [ | e rest] eqn:Hsort.
  { apply Permutation_sym, Permutation_nil in Hperm.
    destruct (drafts w); [contradiction | discriminate Hperm]. }
  unfold flushTurns.
  change (EvFlush r :: EvStorageDone (nextTask w)
          :: map (EvNetReply (nextTask w)) (flat_map repliesOf ss)
          ++ [EvStorageDone (nextTask w)])
    with ([EvFlush r; EvStorageDone (nextTask w)]
          ++ map (EvNetReply (nextTask w)) (flat_map repliesOf ss)
          ++ [EvStorageDone (nextTask w)]).
  rewrite !run_app.
  destruct (flush_starts_pass w r e rest Hd Hf Hx Hsort)
    as (Hg1 & Hf1 & Hn1 & Hd1 & Hc1 & Hr1 & He1).
  set (w1 := run w [EvFlush r; EvStorageDone (nextTask w)]) in *.
  destruct (drain_pass_recovering (nextTask w) r rest e ss w1)
    as (Hd2 & Hg2 & Hf2 & Hs2 & Hc2 & Hr2 & He2); auto.
  - now rewrite Hd1.
  - now rewrite Hd1.
  - rewrite Hlen. apply Permutation_length in Hperm.
    unfold Obj.values in Hperm. now rewrite length_map in Hperm.
  - set (w2 := run w1 (map (EvNetReply (nextTask w)) (flat_map repliesOf ss)))
      in *.
    rewrite run_cons, run_nil.
    destruct (flush_finishes w2 (nextTask w) r Hg2)
      as (Hd3 & Hs3 & Hf3 & Hc3 & He3 & Hr3).
    rewrite Hd3, Hs3, Hf3, Hc3, He3, Hr3, Hd2, Hs2, Hf2, Hc2, He2, Hr2, Hc1,
      He1, Hr1, <- app_assoc.
    repeat split; try reflexivity. f_equal.
    destruct ss as [ | s ss]; [destruct (drafts w); [contradiction | discriminate Hlen] | ].
    cbn [combine flat_map fst snd]. destruct s; reflexivity.
Qed.

(** A flush of an idle controller whose first writes succeed and whose
    next write fails for good. *)
Lemma failed_flush_run w r pre e post ss f :
  reachable w ->
  flushing w = false -> destroyed w = false ->
  sortByTime (Obj.values (drafts w)) = pre ++ e :: post ->
  List.length ss = List.length pre ->
  isFailure f = true ->
  let w' := run w (flushTurns (nextTask w) r
                     (flat_map repliesOf ss ++ failureReplies f)) in
  commandsOf (trace w')
  = commandsOf (trace w)
    ++ flat_map (fun es => commandsFor r (fst es) (snd es)) (combine pre ss)
    ++ failureCommands r e f
  /\ (forall k, Obj.get k (drafts w')
                = if hasId (map cvTypeId pre) k then None
                  else if listedBy (map absorbedOf ss) k
                       then Obj.get k (drafts w) else None)
  /\ status w' = Error
  /\ flushing w' = false
  /\ errorsOf (trace w') = errorsOf (trace w) ++ [failureCode f]
  /\ returnsOf (trace w')
     = returnsOf (trace w)
       ++ [{| ok := false; reason := None; resultStatus := Error |}]
  /\ (storageArea w = None -> storageArea w' = None)
  /\ (forall s, storageArea w = Some s ->
        storageArea w'
        = Some {| storedDrafts :=
                    Some (normalizeDraftMap (nowMs w) (Some (drafts w')));
                  storedMeta := Some (Error, nowMs w) |}).
Proof.
  intros Hr Hf Hx Hsort Hlen Hfail w'. subst w'.
  pose proof (wellKeyed_reachable w Hr) as Hw.
  pose proof (sorted_values_NoDup w Hw) as Hnd.
  assert (Hall : forall k d, In (k, d) (drafts w) ->
                             In d (sortByTime (Obj.values (drafts w))))
    by (intros k d; apply sorted_values_In).
  rewrite Hsort in Hnd, Hall.
  assert (Hd : drafts w <> []).
  { intros E. rewrite E in Hsort. destruct pre; discriminate Hsort. }
  unfold flushTurns. rewrite map_app.
  change (EvFlush r :: EvStorageDone (nextTask w)
          :: (map (EvNetReply (nextTask w)) (flat_map repliesOf ss)
              ++ map (EvNetReply (nextTask w)) (failureReplies f))
             ++ [EvStorageDone (nextTask w)])
    with ([EvFlush r; EvStorageDone (nextTask w)]
          ++ (map (EvNetReply (nextTask w)) (flat_map repliesOf ss)
              ++ map (EvNetReply (nextTask w)) (failureReplies f))
             ++ [EvStorageDone (nextTask w)]).
  rewrite <- app_assoc. rewrite !run_app.
  destruct (pre ++ e :: post) as [ | x xs] eqn:Ees; [destruct pre; discriminate | ].
  destruct (flush_starts_pass w r x xs Hd Hf Hx Hsort)
    as (Hg1 & Hf1 & Hn1 & Hd1 & Hc1 & Hr1 & He1).
  destruct (flush_starts_store w r x xs Hd Hf Hx Hsort)
    as (Hnow1 & _ & _ & Hnone1 & Hsome1).
  set (w1 := run w [EvFlush r; EvStorageDone (nextTask w)]) in *.
  destruct (drain_prefix_recovering (nextTask w) r e post pre ss w1)
    as (Hg2 & Hf2 & Hn2 & Hs2 & Hsa2 & Hnow2 & Hd2 & Hc2 & Hr2 & He2); auto.
  - now rewrite Ees.
  - now rewrite Hd1.
  - rewrite Hd1, Ees. exact Hall.
  - now rewrite Ees.
  - set (w2 := run w1 (map (EvNetReply (nextTask w)) (flat_map repliesOf ss)))
      in *.
    rewrite <- run_app.
    destruct (entry_fails w2 (nextTask w) r e post f Hg2 Hfail)
      as (Hd3 & Hs3 & Hf3 & _ & Hc3 & He3 & Hr3 & _ & Hsa3).
    set (w3 := run w2 (map (EvNetReply (nextTask w)) (failureReplies f)
                       ++ [EvStorageDone (nextTask w)])) in *.
    split; [ | split; [ | split; [exact Hs3 | split; [exact Hf3 | split;
      [congruence | split; [congruence | split]]]]]].
    + rewrite Hc3, Hc2, Hc1, <- !app_assoc. f_equal.
      assert (Hhd : forall Y, Y <> [] ->
                hd (CV_UPDATE_TYPE (cvTypeId x) (data x) r) Y
                = CV_UPDATE_TYPE (cvTypeId x) (data x) r ->
                [CV_UPDATE_TYPE (cvTypeId x) (data x) r] ++ tl Y = Y).
      { intros [ | y Y] HY Hy; [contradiction | ]. cbn in Hy |- *. now subst. }
      rewrite app_assoc. rewrite Hhd.
      * rewrite <- app_assoc. f_equal. destruct f; reflexivity.
      * destruct (flat_map _ (combine pre ss)); discriminate.
      * destruct pre as [ | p pre]; cbn [app] in Ees; injection Ees as <- <-.
        -- destruct ss; [reflexivity | discriminate Hlen].
        -- destruct ss as [ | s ss]; [discriminate Hlen | ].
           cbn [combine flat_map fst snd]. destruct s; reflexivity.
    + intros k. rewrite Hd3, Hd2, Hd1. reflexivity.
    + intros Hnone. rewrite Hsa3, Hsa2, (Hnone1 Hnone). reflexivity.
    + intros s Hsome. destruct (Hsome1 s Hsome) as [s' Hs'].
      rewrite Hsa3, Hsa2, Hs', Hd3, Hnow2, Hnow1. reflexivity.
Qed.

(** ** Failure keeps the drafts that no remote state dropped *)

Lemma stored_draft dateNow (o : Obj.t Draft) k d :
  wellKeyed o -> Obj.get k o = Some d ->
  exists d', Obj.get k (normalizeDraftMap dateNow (Some o)) = Some d'
             /\ cvTypeId d' = k /\ data d' = data d.
Proof.
  intros Hw Hg. rewrite normalizeDraftMap_keyed by assumption.
  rewrite (get_map_values (normalizeDraft dateNow)), Hg.
  eexists. split; [reflexivity | split; [reflexivity | apply deepClone_id]].
Qed.

Lemma not_in_prefix (pre : list Draft) e post x :
  NoDup (map cvTypeId (pre ++ e :: post)) -> In x (e :: post) ->
  hasId (map cvTypeId pre) (cvTypeId x) = false.
Proof.
  intros Hnd Hx. destruct (hasId (map cvTypeId pre) (cvTypeId x)) eqn:E; auto.
  exfalso. apply hasId_In in E. rewrite map_app in Hnd.
  apply (NoDup_app_apart _ _ (cvTypeId x) Hnd); [exact E | now apply in_map].
Qed.




(** ** Conflict recovery *)




(** ** Coalescing *)

Lemma writesOf_app k a b : writesOf k (a ++ b) = writesOf k a ++ writesOf k b.
Proof. unfold writesOf. apply flat_map_app. Qed.

Lemma writesOf_entry k r e s :
  writesOf k (commandsFor r e s)
  = if String.eqb (cvTypeId e) k
    then match s with
         | AtOnce _ => [data e]
         | Recovered _ _ => [data e; data e]
         end
    else [].
Proof.
  destruct s; cbn; destruct (String.eqb (cvTypeId e) k); reflexivity.
Qed.

Lemma writesOf_others k r : forall entries ss,
  (forall x, In x entries -> cvTypeId x <> k) ->
  writesOf k
    (flat_map (fun es => commandsFor r (fst es) (snd es)) (combine entries ss))
  = [].
Proof.
  induction entries as [ | x xs IH]; intros ss H; [reflexivity | ].
  destruct ss as [ | s ss]; [reflexivity | ]. cbn [combine flat_map fst snd].
  rewrite writesOf_app, writesOf_entry, IH.
  - assert (E : String.eqb (cvTypeId x) k = false)
      by (apply String.eqb_neq, H; now left).
    now rewrite E.
  - intros y Hy. apply H. now right.
Qed.

(** Among the commands of a pass, the writes of one entity are those of
    its entry. *)
Lemma writesOf_pass r nd : forall entries ss,
  NoDup (map cvTypeId entries) -> In nd entries ->
  List.length ss = List.length entries ->
  exists s,
    In (nd, s) (combine entries ss)
    /\ writesOf (cvTypeId nd)
         (flat_map (fun es => commandsFor r (fst es) (snd es))
            (combine entries ss))
       = match s with
         | AtOnce _ => [data nd]
         | Recovered _ _ => [data nd; data nd]
         end.
Proof.
  induction entries as [ | x xs IH]; intros ss Hnd Hin Hlen; [contradiction | ].
  destruct ss as [ | s ss]; [discriminate Hlen | ].
  cbn [combine flat_map fst snd].
  inversion Hnd as [ | ? ? Hnotin Hnd']; subst.
  rewrite writesOf_app, writesOf_entry.
  destruct Hin as [-> | Hin].
  - exists s. split; [now left | ]. rewrite String.eqb_refl, writesOf_others.
    + apply app_nil_r.
    + intros y Hy E. apply Hnotin. rewrite <- E. now apply in_map.
  - assert (E : String.eqb (cvTypeId x) (cvTypeId nd) = false).
    { apply String.eqb_neq. intros E. apply Hnotin. rewrite E.
      now apply in_map. }
    rewrite E. cbn [app].
    destruct (IH ss Hnd' Hin) as (s' & Hs & Hw); [now injection Hlen | ].
    exists s'. split; [now right | exact Hw].
Qed.

(** C3 as stated fails: two edits of one entity, then a flush whose
    write meets a version conflict and succeeds on the retry.  The flush
    returns [ok: true] with the status saved, and it has sent two remote
    writes for the entity, not one (both with the payload of the last
    edit). *)
Lemma one_conflict_two_writes :
  let first := JObj [("marker", JStr "first")] in
  let second := JObj [("marker", JStr "second")] in
  let remote := Some (mkRemote "v2" (Some [CvType.mk "type_1" first])) in
  let saved := Some (mkRemote "v3" (Some [CvType.mk "type_1" second])) in
  let w' := run (createSyncController None 100)
              (editTurns "type_1" [(100, first, "remote_a");
                                   (101, second, "remote_a")]
               ++ flushTurns 0 "manual"
                    [NetError "STATE_CONFLICT"; NetOk remote; NetOk saved]) in
  commandsOf (trace w')
  = [CV_UPDATE_TYPE "type_1" second "manual"; STATE_LOAD;
     CV_UPDATE_TYPE "type_1" second "manual"]
  /\ writesOf "type_1" (commandsOf (trace w')) = [second; second]
  /\ returnsOf (trace w')
     = [{| ok := true; reason := None; resultStatus := Saved |}]
  /\ status w' = Saved.
Proof.
  vm_compute. repeat split.
Qed.

(** C3, amended.  Take a controller, reached through ordinary
    identifiers, that is not flushing and not destroyed, whatever other
    drafts it holds.  However many edits of one entity with an ordinary
    identifier are made before the flush starts, the store then holds one
    draft of that entity, made by the last edit.  The flush that follows
    (asked for, or fired by the idle timer) and whose writes succeed, each
    at once or on the retry after one version conflict, sends for that
    entity the write with the payload of the last edit and no write with
    an earlier payload: once when the write succeeds at once, twice (the
    same write, before and after the reload) when it met a conflict.  The
    flush writes the other drafts of the store as well, oldest edit
    first, and ends with an empty store and the status saved. *)
Theorem rapid_edits_coalesce w k edits tN dN bN r trigger ss :
  ordinary w -> flushing w = false -> destroyed w = false ->
  k <> "" -> ordinaryId k = true ->
  trigger = EvFlush r \/ (trigger = EvIdleTimer /\ r = "idle") ->
  let w1 := run w (editTurns k (edits ++ [(tN, dN, bN)])) in
  let entries := sortByTime (Obj.values (drafts w1)) in
  List.length ss = List.length entries ->
  let t := nextTask w in
  let w' := run w1 ([trigger; EvStorageDone t]
                    ++ map (EvNetReply t) (flat_map repliesOf ss)
                    ++ [EvStorageDone t]) in
  drafts w1 = Obj.set k (mkDraft k dN tN bN true) (drafts w)
  /\ (exists s,
        In (mkDraft k dN tN bN true, s) (combine entries ss)
        /\ writesOf k (commandsOf (trace w'))
           = writesOf k (commandsOf (trace w))
             ++ match s with
                | AtOnce _ => [dN]
                | Recovered _ _ => [dN; dN]
                end)
  /\ commandsOf (trace w')
     = commandsOf (trace w)
       ++ flat_map (fun es => commandsFor r (fst es) (snd es))
            (combine entries ss)
  /\ returnsOf (trace w')
     = returnsOf (trace w)
       ++ [{| ok := true; reason := None; resultStatus := Saved |}]
  /\ drafts w' = []
  /\ status w' = Saved.
Proof.
  intros Ho Hf Hx Hk Hid Htrig w1 entries Hlen t w'.
  pose proof (ordinary_reachable w Ho) as Hr.
  destruct (burst_of_edits k tN dN bN edits w Hk)
    as (Hd1 & _ & Hi1 & Hf1 & _ & Hx1 & Hn1 & _ & _ & Hc1 & Hr1).
  fold w1 in Hd1, Hi1, Hf1, Hx1, Hn1, Hc1, Hr1.
  rewrite Hf in Hf1. rewrite Hx in Hx1.
  assert (Hreach : reachable w1) by now apply reachable_run.
  pose proof (wellKeyed_reachable w1 Hreach) as Hw1.
  assert (Hne : drafts w1 <> []) by (rewrite Hd1; apply set_not_nil).
  assert (Hlen1 : List.length ss = List.length (drafts w1)).
  { rewrite Hlen. unfold entries.
    rewrite <- (Permutation_length (sortByTime_perm (Obj.values (drafts w1)))).
    unfold Obj.values. apply length_map. }
  assert (Hrun : w' = run w1 (flushTurns (nextTask w1) r (flat_map repliesOf ss))).
  { unfold w', t, flushTurns. rewrite Hn1. cbn [app]. rewrite !run_cons.
    destruct Htrig as [-> | [-> ->]]; [reflexivity | ].
    now rewrite idle_timer_is_flush. }
  destruct (recovering_flush_run w1 r ss Hreach Hne Hf1 Hx1 Hlen1)
    as (Hc & Hd' & Hs & _ & Hret & _).
  rewrite <- Hrun in Hc, Hd', Hs, Hret. fold entries in Hc.
  rewrite Hc1 in Hc. rewrite Hr1 in Hret.
  split; [exact Hd1 | ].
  split; [ | split; [exact Hc | split; [exact Hret | split; assumption]]].
  assert (Hin : In (mkDraft k dN tN bN true) entries).
  { unfold entries. apply (sorted_values_In w1 k). apply ObjFacts.get_In.
    rewrite Hd1. apply ObjFacts.get_set_same. }
  destruct (writesOf_pass r (mkDraft k dN tN bN true) entries ss
              (sorted_values_NoDup w1 Hw1) Hin Hlen) as (s & Hs' & Hwr).
  exists s. split; [exact Hs' | ].
  rewrite Hc, writesOf_app. f_equal. exact Hwr.
Qed.

Lemma rapid_edits_coalesce_witness :
  let zero := JObj [("marker", JStr "other")] in
  let first := JObj [("marker", JStr "first")] in
  let second := JObj [("marker", JStr "second")] in
  let remote := Some (mkRemote "v2" (Some [CvType.mk "type_0" zero;
                                           CvType.mk "type_1" first])) in
  let saved := Some (mkRemote "v3" (Some [CvType.mk "type_0" zero;
                                          CvType.mk "type_1" second])) in
  let w := run (createSyncController (Some (mkStorage None None)) 50)
             [EvScheduleTypeSave "type_0" zero "remote_a"] in
  let k := "type_1" in
  let edits := [(100, first, "remote_a")] in
  let r := "idle" in
  let ss := [AtOnce remote; Recovered remote saved] in
  (ordinary w /\ flushing w = false /\ destroyed w = false
   /\ k <> "" /\ ordinaryId k = true
   /\ (EvIdleTimer = EvFlush r \/ (EvIdleTimer = EvIdleTimer /\ r = "idle"))
   /\ List.length ss
      = List.length
          (sortByTime
             (Obj.values
                (drafts (run w (editTurns k
                                  (edits ++ [(101, second, "remote_a")])))))))
  /\ let w1 := run w (editTurns k (edits ++ [(101, second, "remote_a")])) in
     let entries := sortByTime (Obj.values (drafts w1)) in
     let t := nextTask w in
     let w' := run w1 ([EvIdleTimer; EvStorageDone t]
                       ++ map (EvNetReply t) (flat_map repliesOf ss)
                       ++ [EvStorageDone t]) in
     drafts w1
     = Obj.set k (mkDraft k second 101 "remote_a" true) (drafts w)
     /\ (exists s,
           In (mkDraft k second 101 "remote_a" true, s) (combine entries ss)
           /\ writesOf k (commandsOf (trace w'))
              = writesOf k (commandsOf (trace w))
                ++ match s with
                   | AtOnce _ => [second]
                   | Recovered _ _ => [second; second]
                   end)
     /\ commandsOf (trace w')
        = commandsOf (trace w)
          ++ flat_map (fun es => commandsFor r (fst es) (snd es))
               (combine entries ss)
     /\ returnsOf (trace w')
        = returnsOf (trace w)
          ++ [{| ok := true; reason := None; resultStatus := Saved |}]
     /\ drafts w' = []
     /\ status w' = Saved.
Proof.
  intros zero first second remote saved w k edits r ss.
  assert (Ho : ordinary w)
    by (apply ordinary_run; [now apply ordinary_init | reflexivity]).
  assert (Hf : flushing w = false) by reflexivity.
  assert (Hx : destroyed w = false) by reflexivity.
  assert (Hk : k <> "") by discriminate.
  assert (Hid : ordinaryId k = true) by reflexivity.
  assert (Htrig : EvIdleTimer = EvFlush r
                  \/ (EvIdleTimer = EvIdleTimer /\ r = "idle"))
    by (right; split; reflexivity).
  assert (Hlen : List.length ss
                 = List.length
                     (sortByTime
                        (Obj.values
                           (drafts (run w (editTurns k
                              (edits ++ [(101, second, "remote_a")])))))))
    by (vm_compute; reflexivity).
  split; [repeat split; assumption | ].
  exact (rapid_edits_coalesce w k edits 101 second "remote_a" r EvIdleTimer ss
           Ho Hf Hx Hk Hid Htrig Hlen).
Defined.

(** ** A write that succeeded while a newer edit was waiting *)

Lemma flag_after_write w t r e e2 rest rc st :
  getTask t (tasks w) = Some (SyncWriting r e (e2 :: rest) rc) ->
  needsTrailingFlush (step w (EvNetReply t (NetOk st)))
  = needsTrailingFlush w || superseded e (drafts w).
Proof.
  intros Ht. unfold step. rewrite Ht. unfold writeSucceeded.
  rewrite settleDraft_eq. cbv zeta.
  destruct (superseded e (drafts w)), st as [s | ], (needsTrailingFlush w);
    norm; repeat (split_world; norm); reflexivity.
Qed.

(** C5 as stated fails: an edit of the entity in flight arrives during
    the network call, with a strictly newer timestamp, and the response to
    the write carries a remote state that does not list the entity.  The
    test of [syncEntry] leaves the newer draft in place and flags a
    trailing pass, but the state is absorbed in the same turn and prunes
    it: the trailing pass finds nothing, the flush returns [ok: true] with
    the status saved, and the newer edit has been discarded without ever
    being written. *)
Lemma newer_edit_discarded_by_response :
  let first := JObj [("marker", JStr "first")] in
  let second := JObj [("marker", JStr "second")] in
  let st := Some (mkRemote "v2" (Some [CvType.mk "type_2" first])) in
  let w := run (createSyncController None 100)
             [EvScheduleTypeSave "type_1" first "remote_a"; EvFlush "manual";
              EvStorageDone 0; EvClock 105;
              EvScheduleTypeSave "type_1" second "remote_a"] in
  let w' := run w [EvNetReply 0 (NetOk st); EvStorageDone 0] in
  getTask 0 (tasks w)
  = Some (SyncWriting "manual" (mkDraft "type_1" first 100 "remote_a" true)
            [] false)
  /\ Obj.get "type_1" (drafts w)
     = Some (mkDraft "type_1" second 105 "remote_a" true)
  /\ drafts (settleDraft (mkDraft "type_1" first 100 "remote_a" true) w)
     = drafts w
  /\ drafts w' = []
  /\ status w' = Saved
  /\ returnsOf (trace w')
     = [{| ok := true; reason := None; resultStatus := Saved |}]
  /\ commandsOf (trace w') = [CV_UPDATE_TYPE "type_1" first "manual"]
  /\ ~ In (CV_UPDATE_TYPE "type_1" second "manual") (commandsOf (trace w')).
Proof.
  vm_compute. repeat split. intros [H | []]. discriminate H.
Qed.

(** C5, amended.  In a state reached through ordinary identifiers, when
    the write of an entry succeeds, the test of [syncEntry] removes its
    entity's draft exactly when the store holds no draft of that entity
    with a strictly newer timestamp.  A strictly newer draft is left in
    place by the test, the store as a whole is untouched and a trailing
    pass is flagged.  The state of the response is then absorbed in the
    same turn, so after the turn the newer draft is in the store if the
    response carries no state or a state that lists the entity (or has no
    [cvTypes] array), and has been pruned otherwise.  The trailing pass
    stays flagged while the pass has entries left and starts in the same
    turn when it has none: it covers the newer draft when that was kept,
    and finds an empty store only when it was pruned. *)
Theorem newer_draft_survives_write w t r e rest rc st :
  ordinary w ->
  getTask t (tasks w) = Some (SyncWriting r e rest rc) ->
  let k := cvTypeId e in
  let w1 := settleDraft e w in
  let w' := step w (EvNetReply t (NetOk st)) in
  (forall d, Obj.get k (drafts w) = Some d ->
             localUpdatedAtMs e < localUpdatedAtMs d ->
             drafts w1 = drafts w
             /\ needsTrailingFlush w1 = true
             /\ Obj.get k (drafts w') = (if lists st k then Some d else None)
             /\ match rest with
                | _ :: _ => needsTrailingFlush w' = true
                | [] =>
                    match sortByTime (Obj.values (drafts w')) with
                    | e' :: rest' =>
                        getTask t (tasks w')
                        = Some (SyncWriting r e' rest' false)
                        /\ (lists st k = true -> In d (e' :: rest'))
                    | [] =>
                        getTask t (tasks w') = Some (FlushFinishing r)
                        /\ lists st k = false
                    end
                end)
  /\ ((forall d, Obj.get k (drafts w) = Some d ->
                 localUpdatedAtMs d <= localUpdatedAtMs e) ->
      Obj.get k (drafts w1) = None
      /\ needsTrailingFlush w1 = needsTrailingFlush w
      /\ Obj.get k (drafts w') = None)
  /\ (forall k', k' <> k -> Obj.get k' (drafts w1) = Obj.get k' (drafts w)).
Proof.
  intros Ho Ht k w1 w'.
  pose proof (ordinary_reachable w Ho) as Hr.
  pose proof (wellKeyed_reachable w Hr) as [Hnd _].
  assert (Hd' : drafts w' =
                match st with
                | Some s => pruneDraftsAgainstRemote (drafts w1) (Some s)
                | None => drafts w1
                end) by (eapply drafts_after_write; eauto).
  unfold w1 in *. rewrite settleDraft_eq in *. fields. cbn [drafts] in Hd'.
  split; [ | split].
  - intros d Hg Hlt. pose proof (superseded_newer e _ d Hg Hlt) as Hsup.
    rewrite Hsup in *.
    assert (Hkept : Obj.get k (drafts w')
                    = if lists st k then Some d else None).
    { rewrite Hd'. destruct st as [s | ]; [ | exact Hg].
      rewrite get_prune by assumption. fold k. now rewrite Hg. }
    split; [reflexivity | ]. split; [reflexivity | ]. split; [exact Hkept | ].
    destruct rest as [ | e2 rest'].
    + pose proof (pass_end w t r e rc st Ht) as Hend. cbv zeta in Hend.
      fold w' in Hend. rewrite Hsup, Bool.orb_true_r in Hend.
      destruct (sortByTime (Obj.values (drafts w'))) as [ | e' rest'] eqn:Hsort.
      * destruct Hend as (Hg' & _). split; [exact Hg' | ].
        apply sorted_nil in Hsort. rewrite Hsort in Hkept.
        destruct (lists st k); [discriminate Hkept | reflexivity].
      * destruct Hend as (Hg' & _). split; [exact Hg' | ].
        intros Hl. rewrite Hl in Hkept. rewrite <- Hsort.
        apply (sorted_values_In w' k). now apply ObjFacts.get_In.
    + unfold w'. rewrite (flag_after_write w t r e e2 rest' rc st Ht).
      rewrite Hsup. apply Bool.orb_true_r.
  - intros Hold. rewrite (superseded_not_newer e _ Hold) in *.
    assert (Hgone : Obj.get k (Obj.remove (cvTypeId e) (drafts w)) = None)
      by now apply ObjFacts.get_remove_same.
    repeat split; auto. rewrite Hd'. destruct st as [s | ]; [ | exact Hgone].
    rewrite get_prune by now apply ObjFacts.NoDup_keys_remove.
    fold k in Hgone |- *. rewrite Hgone. now destruct (lists (Some s) k).
  - intros k' Hk'. destruct (superseded e (drafts w)); auto.
    now apply ObjFacts.get_remove_other.
Qed.

Lemma newer_draft_survives_write_witness :
  let first := mkDraft "type_1" (JStr "first") 100 "remote_a" true in
  let second := mkDraft "type_1" (JStr "second") 105 "remote_a" true in
  let w := run (createSyncController None 100)
             [EvScheduleTypeSave "type_1" (JStr "first") "remote_a";
              EvFlush "manual"; EvStorageDone 0; EvClock 105;
              EvScheduleTypeSave "type_1" (JStr "second") "remote_a"] in
  let st := Some (mkRemote "v2" (Some [CvType.mk "type_1" (JStr "first")])) in
  (ordinary w
   /\ getTask 0 (tasks w) = Some (SyncWriting "manual" first [] false))
  /\ Obj.get "type_1" (drafts (step w (EvNetReply 0 (NetOk st)))) = Some second
  /\ needsTrailingFlush (settleDraft first w) = true.
Proof.
  intros first second w st.
  assert (Hr : ordinary w)
    by (apply ordinary_run; [now apply ordinary_init | reflexivity]).
  assert (Ht : getTask 0 (tasks w) = Some (SyncWriting "manual" first [] false))
    by reflexivity.
  split; [split; assumption | ].
  destruct (newer_draft_survives_write w 0 "manual" first [] false st Hr Ht)
    as (Hnew & _ & _).
  destruct (Hnew second eq_refl eq_refl) as (_ & Hflag & Hkept & _).
  split; [exact Hkept | exact Hflag].
Defined.

(** ** Restoring drafts after a reload *)

(** What a restore finds under an identifier: the stored draft,
    normalised, if the remote state lists the entity. *)
Lemma get_restored clock sd r types k :
  wellKeyed sd -> cvTypes r = Some types ->
  Obj.get k
    (pruneDraftsAgainstRemote (normalizeDraftMap clock (Some sd)) (Some r))
  = if hasId (knownTypeIds types) k
    then option_map (normalizeDraft clock k) (Obj.get k sd) else None.
Proof.
  intros Hw Ht. rewrite get_prune by apply wellKeyed_normalizeDraftMap.
  destruct r as [u c]. cbn [cvTypes] in Ht. subst c. cbn [lists].
  rewrite normalizeDraftMap_keyed by assumption.
  now rewrite (get_map_values (normalizeDraft clock)).
Qed.

(** The types of the merged state, one by one. *)
Lemma merged_types restored sd clock types :
  (forall c, In c types ->
     Obj.get (CvType.id c) restored
     = option_map (normalizeDraft clock (CvType.id c))
         (Obj.get (CvType.id c) sd)) ->
  map (applyDraft restored) (map cloneType types)
  = map (fun c => CvType.mk (CvType.id c)
                    (match Obj.get (CvType.id c) sd with
                     | Some d => data d
                     | None => CvType.data c
                     end)) types.
Proof.
  intros H. rewrite map_map. apply map_ext_in. intros c Hc.
  unfold applyDraft, cloneType. cbn [CvType.id CvType.data].
  rewrite (H c Hc). destruct (Obj.get (CvType.id c) sd) as [d | ];
    cbn [option_map normalizeDraft data]; now rewrite !deepClone_id.
Qed.



(** ** The trailing pass *)

(** A successful write tells the callers of [flush] nothing. *)
Lemma write_returns w t r e rest rc st :
  getTask t (tasks w) = Some (SyncWriting r e rest rc) ->
  returnsOf (trace (step w (EvNetReply t (NetOk st)))) = returnsOf (trace w).
Proof.
  intros Ht. unfold step. rewrite Ht. unfold writeSucceeded. cbv zeta.
  destruct st as [s | ]; norm; repeat (split_world; norm); fields;
    split_values; trace_facts; now rewrite ?app_nil_r.
Qed.

(** An edit that is waiting in the store outlives the successful write
    of an entry, when the response lists its entity and, if the entry is
    of that entity, the edit is strictly later. *)
Lemma edit_survives_write w t r e rest rc st k nd :
  NoDup (Obj.keys (drafts w)) ->
  getTask t (tasks w) = Some (SyncWriting r e rest rc) ->
  Obj.get k (drafts w) = Some nd ->
  (cvTypeId e = k -> localUpdatedAtMs e < localUpdatedAtMs nd) ->
  lists st k = true ->
  Obj.get k (drafts (step w (EvNetReply t (NetOk st)))) = Some nd.
Proof.
  intros Hnd Ht Hg Hlt Hl.
  rewrite (drafts_after_write w t r e rest rc st Ht).
  assert (Hs : Obj.get k (drafts (settleDraft e w)) = Some nd).
  { rewrite settleDraft_eq. fields.
    destruct (String.eqb k (cvTypeId e)) eqn:E.
    - apply String.eqb_eq in E. subst k.
      now rewrite (superseded_newer e _ nd Hg (Hlt eq_refl)).
    - apply String.eqb_neq in E.
      destruct (superseded e (drafts w)); auto.
      now rewrite ObjFacts.get_remove_other. }
  destruct st as [s | ]; [ | exact Hs].
  rewrite get_prune by now apply NoDup_settle. now rewrite Hl.
Qed.

(** The pass in flight runs to its end while an edit is waiting: the
    trailing pass starts over a store that holds the edit. *)
Lemma pass_keeps_edit t r k nd : forall rest e rc sts w,
  reachable w ->
  getTask t (tasks w) = Some (SyncWriting r e rest rc) ->
  needsTrailingFlush w = true ->
  Obj.get k (drafts w) = Some nd ->
  (forall x, In x (e :: rest) -> cvTypeId x = k ->
             localUpdatedAtMs x < localUpdatedAtMs nd) ->
  List.length sts = S (List.length rest) ->
  Forall (fun st => lists st k = true) sts ->
  let w' := run w (map (EvNetReply t) (map NetOk sts)) in
  reachable w'
  /\ Obj.get k (drafts w') = Some nd
  /\ needsTrailingFlush w' = false /\ flushing w' = true
  /\ returnsOf (trace w') = returnsOf (trace w)
  /\ exists e' rest',
       getTask t (tasks w') = Some (SyncWriting r e' rest' false)
       /\ sortByTime (Obj.values (drafts w')) = e' :: rest'
       /\ commandsOf (trace w')
          = commandsOf (trace w)
            ++ map (fun x => CV_UPDATE_TYPE (cvTypeId x) (data x) r) rest
            ++ [CV_UPDATE_TYPE (cvTypeId e') (data e') r].
Proof.
  induction rest as [ | e2 rest IH];
    intros e rc sts w Hr Ht Hn Hg Hlt Hlen Hall;
    (destruct sts as [ | st sts]; [discriminate Hlen | ]);
    cbn [map]; rewrite run_cons;
    inversion Hall as [ | ? ? Hst Hall']; subst;
    pose proof (wellKeyed_reachable w Hr) as [Hnd _];
    pose proof (reachable_step w (EvNetReply t (NetOk st)) Hr) as Hr1;
    pose proof (edit_survives_write w t r e _ rc st k nd Hnd Ht Hg
                  (Hlt e (or_introl eq_refl)) Hst) as Hg1;
    pose proof (write_returns w t r e _ rc st Ht) as Hret1.
  - destruct sts; [ | discriminate Hlen]. cbn [map]. rewrite run_nil.
    pose proof (pass_end w t r e rc st Ht) as Hend. cbv zeta in Hend.
    rewrite Hn in Hend. cbn [orb] in Hend.
    destruct (oneDrain_reachable w Hr) as [Hidle _].
    assert (Hf : flushing w = true).
    { destruct (flushing w) eqn:E; auto.
      specialize (Hidle eq_refl _ _ Ht). discriminate Hidle. }
    destruct (sortByTime
                (Obj.values (drafts (step w (EvNetReply t (NetOk st))))))
      as [ | e' rest'] eqn:Hsort.
    + apply sorted_nil in Hsort. rewrite Hsort in Hg1. discriminate Hg1.
    + destruct Hend as (Hg' & Hc & Hn' & Hfl).
      split; [exact Hr1 | ]. split; [exact Hg1 | ]. split; [exact Hn' | ].
      split; [congruence | ]. split; [exact Hret1 | ].
      exists e', rest'. split; [exact Hg' | ]. split; [reflexivity | ].
      exact Hc.
  - destruct (pass_continues w t r e e2 rest rc st Ht) as (Hg' & Hc & Hfl).
    pose proof (flag_after_write w t r e e2 rest rc st Ht) as Hflag.
    rewrite Hn in Hflag. cbn [orb] in Hflag.
    destruct (IH e2 false sts (step w (EvNetReply t (NetOk st))))
      as (Hr2 & Hg2 & Hn2 & Hf2 & Hret2 & e' & rest' & Ht2 & Hsort2 & Hc2);
      auto.
    + intros x Hx. apply Hlt. now right.
    + split; [exact Hr2 | ]. split; [exact Hg2 | ]. split; [exact Hn2 | ].
      split; [exact Hf2 | ]. split; [congruence | ].
      exists e', rest'. split; [exact Ht2 | ]. split; [exact Hsort2 | ].
      rewrite Hc2, Hc. cbn [map]. now rewrite <- !app_assoc.
Qed.

Lemma writesOf_writes r nd : forall entries,
  NoDup (map cvTypeId entries) -> In nd entries ->
  writesOf (cvTypeId nd)
    (map (fun x => CV_UPDATE_TYPE (cvTypeId x) (data x) r) entries)
  = [data nd].
Proof.
  induction entries as [ | x xs IH]; intros Hnd Hin; [contradiction | ].
  inversion Hnd as [ | ? ? Hnotin Hnd']; subst.
  cbn [map writesOf flat_map]. fold (writesOf (cvTypeId nd)).
  destruct Hin as [-> | Hin].
  - rewrite String.eqb_refl. cbn [app]. f_equal.
    assert (Hno : forall ys,
               (forall y, In y ys -> cvTypeId y <> cvTypeId nd) ->
               writesOf (cvTypeId nd)
                 (map (fun x => CV_UPDATE_TYPE (cvTypeId x) (data x) r) ys)
               = []).
    { induction ys as [ | y ys IHy]; intros Hys; [reflexivity | ].
      cbn [map writesOf flat_map]. fold (writesOf (cvTypeId nd)).
      assert (E : String.eqb (cvTypeId y) (cvTypeId nd) = false)
        by (apply String.eqb_neq, Hys; now left).
      rewrite E. cbn [app]. apply IHy. intros z Hz. apply Hys. now right. }
    apply Hno. intros y Hy E. apply Hnotin. rewrite <- E. now apply in_map.
  - assert (E : String.eqb (cvTypeId x) (cvTypeId nd) = false).
    { apply String.eqb_neq. intros E. apply Hnotin. rewrite E.
      now apply in_map. }
    rewrite E. cbn [app]. now apply IH.
Qed.

(** An edit arrives while a write of a pass is in flight; the rest of
    the pass and the trailing pass succeed. *)
Lemma midflight_edit_run w t r e rest rc k edits tN dN bN sts1 :
  reachable w ->
  getTask t (tasks w) = Some (SyncWriting r e rest rc) ->
  k <> "" ->
  (forall x, In x (e :: rest) -> cvTypeId x = k -> localUpdatedAtMs x < tN) ->
  List.length sts1 = S (List.length rest) ->
  Forall (fun st => lists st k = true) sts1 ->
  let nd := mkDraft k dN tN bN true in
  let w1 := run w (editTurns k (edits ++ [(tN, dN, bN)])
                   ++ map (EvNetReply t) (map NetOk sts1)) in
  exists e' rest',
    sortByTime (Obj.values (drafts w1)) = e' :: rest'
    /\ In nd (e' :: rest')
    /\ getTask t (tasks w1) = Some (SyncWriting r e' rest' false)
    /\ needsTrailingFlush w1 = false
    /\ commandsOf (trace w1)
       = commandsOf (trace w)
         ++ map (fun x => CV_UPDATE_TYPE (cvTypeId x) (data x) r) rest
         ++ [CV_UPDATE_TYPE (cvTypeId e') (data e') r]
    /\ forall sts2,
         List.length sts2 = S (List.length rest') ->
         let w2 := run w1 (map (EvNetReply t) (map NetOk sts2)
                           ++ [EvStorageDone t]) in
         commandsOf (trace w2)
         = commandsOf (trace w)
           ++ map (fun x => CV_UPDATE_TYPE (cvTypeId x) (data x) r) rest
           ++ map (fun x => CV_UPDATE_TYPE (cvTypeId x) (data x) r)
                (e' :: rest')
         /\ writesOf k
              (map (fun x => CV_UPDATE_TYPE (cvTypeId x) (data x) r)
                 (e' :: rest'))
            = [dN]
         /\ drafts w2 = [] /\ status w2 = Saved /\ flushing w2 = false
         /\ returnsOf (trace w2)
            = returnsOf (trace w)
              ++ [{| ok := true; reason := None; resultStatus := Saved |}].
Proof.
  intros Hr Ht Hk Hlt Hlen Hall nd w1. subst w1. rewrite run_app.
  destruct (burst_of_edits k tN dN bN edits w Hk)
    as (Hd1 & _ & _ & Hf1 & Hn1 & _ & _ & Ht1 & _ & Hc1 & Hr1).
  set (wb := run w (editTurns k (edits ++ [(tN, dN, bN)]))) in *.
  destruct (oneDrain_reachable w Hr) as [Hidle _].
  assert (Hf : flushing w = true).
  { destruct (flushing w) eqn:E; auto.
    specialize (Hidle eq_refl _ _ Ht). discriminate Hidle. }
  rewrite Hf in Hn1. cbn [orb] in Hn1.
  assert (Hrb : reachable wb) by now apply reachable_run.
  assert (Hgb : Obj.get k (drafts wb) = Some nd)
    by (rewrite Hd1; apply ObjFacts.get_set_same).
  rewrite <- Ht1 in Ht.
  destruct (pass_keeps_edit t r k nd rest e rc sts1 wb Hrb Ht Hn1 Hgb Hlt
              Hlen Hall)
    as (Hr2 & Hg2 & Hn2 & Hf2 & Hret2 & e' & rest' & Ht2 & Hsort2 & Hc2).
  set (w1 := run wb (map (EvNetReply t) (map NetOk sts1))) in *.
  pose proof (wellKeyed_reachable w1 Hr2) as Hw1.
  pose proof (sorted_values_NoDup w1 Hw1) as Hnd1. rewrite Hsort2 in Hnd1.
  assert (Hin : In nd (e' :: rest')).
  { rewrite <- Hsort2. apply (sorted_values_In w1 k).
    now apply ObjFacts.get_In. }
  exists e', rest'. split; [exact Hsort2 | ]. split; [exact Hin | ].
  split; [exact Ht2 | ]. split; [exact Hn2 | ].
  split; [now rewrite Hc2, Hc1 | ].
  intros sts2 Hlen2 w2. subst w2. rewrite run_app.
  destruct (drain_pass t r rest' e' false sts2 w1)
    as (Hd3 & Hg3 & Hf3 & Hs3 & Hc3 & Hr3 & _); auto.
  { intros k0 d0 Hkd. rewrite <- Hsort2. now apply (sorted_values_In w1 k0). }
  set (w2 := run w1 (map (EvNetReply t) (map NetOk sts2))) in *.
  rewrite run_cons, run_nil.
  destruct (flush_finishes w2 t r Hg3) as (Hd4 & Hs4 & Hf4 & Hc4 & _ & Hr4).
  rewrite Hd4, Hs4, Hf4, Hc4, Hr4, Hd3, Hs3, Hf3, Hc3, Hr3, Hc2, Hc1, Hret2,
    Hr1.
  split; [cbn [map]; now rewrite <- !app_assoc | ].
  split; [exact (writesOf_writes r nd (e' :: rest') Hnd1 Hin) | ].
  repeat split; reflexivity.
Qed.

(** C1 as stated fails: an edit of a second entity arrives while the
    write of the first is in flight, and the response to that write
    carries a remote state that lists the first entity only.  The trailing
    pass runs over an emptied store: the flush returns [ok: true] with the
    status saved, and the edit of the second entity has not been written. *)
Lemma midflight_edit_pruned_not_written :
  let first := JObj [("marker", JStr "first")] in
  let second := JObj [("marker", JStr "second")] in
  let st := Some (mkRemote "v2" (Some [CvType.mk "type_1" first])) in
  let w := run (createSyncController None 100)
             [EvScheduleTypeSave "type_1" first "remote_a"; EvFlush "manual";
              EvStorageDone 0] in
  let w1 := run w [EvClock 105;
                   EvScheduleTypeSave "type_2" second "remote_a"] in
  let w' := run w1 [EvNetReply 0 (NetOk st); EvStorageDone 0] in
  flushing w = true
  /\ Obj.get "type_2" (drafts w1)
     = Some (mkDraft "type_2" second 105 "remote_a" true)
  /\ needsTrailingFlush w1 = true
  /\ returnsOf (trace w')
     = [{| ok := true; reason := None; resultStatus := Saved |}]
  /\ tasks w' = []
  /\ drafts w' = []
  /\ commandsOf (trace w') = [CV_UPDATE_TYPE "type_1" first "manual"]
  /\ ~ In (CV_UPDATE_TYPE "type_2" second "manual") (commandsOf (trace w')).
Proof.
  vm_compute. repeat split. intros [H | []]. discriminate H.
Qed.

(** The test of [syncEntry] compares timestamps: an edit of the entity
    in flight that reads the same time as the draft being written is not
    seen as newer, and is removed together with it. *)
Example equal_timestamp_edit_removed :
  let first := JObj [("marker", JStr "first")] in
  let second := JObj [("marker", JStr "second")] in
  let st := Some (mkRemote "v2" (Some [CvType.mk "type_1" first])) in
  let w := run (createSyncController None 100)
             [EvScheduleTypeSave "type_1" first "remote_a"; EvFlush "manual";
              EvStorageDone 0;
              EvScheduleTypeSave "type_1" second "remote_a"] in
  let w' := run w [EvNetReply 0 (NetOk st); EvStorageDone 0] in
  Obj.get "type_1" (drafts w)
  = Some (mkDraft "type_1" second 100 "remote_a" true)
  /\ drafts w' = []
  /\ status w' = Saved
  /\ commandsOf (trace w') = [CV_UPDATE_TYPE "type_1" first "manual"].
Proof. vm_compute. repeat split. Qed.

(** C1, amended.  A call of [flush] made while a drain is in flight, and
    more generally any flush that reaches [performFlush] then, sends
    nothing, leaves the running flush alone and only raises the
    trailing-pass flag; never more than one call is draining.  When the
    last write of a pass succeeds, the running flush starts one more pass
    over all drafts then in the store if the flag was raised during the
    pass, however often, and clears the flag; otherwise it finishes.
    Within a pass the entries are written one after the other.  An edit,
    or a burst of edits, of an entity with an ordinary identifier that
    arrives while a write of a pass is in flight is written in that one
    additional pass, once and with its last payload, provided the writes
    left in the current pass succeed, every remote state absorbed from
    their responses lists the entity (or has no [cvTypes] array), and the
    edit is strictly later than the entry of that entity in what is left
    of the current pass, if there is one.  The additional pass writes
    every draft then in the store and, its writes succeeding, the flush
    returns [ok: true] with an empty store and the status saved; no
    further pass follows. *)
Theorem trailing_pass :
  (forall w r,
     flushing w = true -> destroyed w = false ->
     let t := nextTask w in
     let w' := run w [EvFlush r; EvStorageDone t] in
     needsTrailingFlush w' = true
     /\ commandsOf (trace w') = commandsOf (trace w)
     /\ drafts w' = drafts w
     /\ status w' = status w
     /\ flushing w' = true
     /\ (forall t', t' <> t -> getTask t' (tasks w') = getTask t' (tasks w))
     /\ returnsOf (trace w')
        = returnsOf (trace w)
          ++ [{| ok := negb (Status_eqb (status w) Error);
                 reason := None;
                 resultStatus := status w |}])
  /\ (forall w t r,
     getTask t (tasks w) = Some (FlushPersisting r) -> flushing w = true ->
     let w' := step w (EvStorageDone t) in
     needsTrailingFlush w' = true
     /\ commandsOf (trace w') = commandsOf (trace w)
     /\ drafts w' = drafts w
     /\ status w' = status w
     /\ flushing w' = true
     /\ tasks w' = dropTask t (tasks w))
  /\ (forall w t1 t2 pc1 pc2,
        ordinary w ->
        getTask t1 (tasks w) = Some pc1 -> getTask t2 (tasks w) = Some pc2 ->
        draining pc1 = true -> draining pc2 = true ->
        t1 = t2 /\ flushing w = true)
  /\ (forall w t r e rc st,
        ordinary w ->
        getTask t (tasks w) = Some (SyncWriting r e [] rc) ->
        let w' := step w (EvNetReply t (NetOk st)) in
        let requested := needsTrailingFlush w || superseded e (drafts w) in
        match (if requested then sortByTime (Obj.values (drafts w')) else [])
        with
        | e' :: rest' =>
            getTask t (tasks w') = Some (SyncWriting r e' rest' false)
            /\ commandsOf (trace w')
               = commandsOf (trace w)
                 ++ [CV_UPDATE_TYPE (cvTypeId e') (data e') r]
            /\ needsTrailingFlush w' = false
            /\ flushing w' = flushing w
        | [] =>
            getTask t (tasks w') = Some (FlushFinishing r)
            /\ commandsOf (trace w') = commandsOf (trace w)
            /\ flushing w' = false
        end)
  /\ (forall w t r e e2 rest rc st,
        ordinary w ->
        getTask t (tasks w) = Some (SyncWriting r e (e2 :: rest) rc) ->
        let w' := step w (EvNetReply t (NetOk st)) in
        getTask t (tasks w') = Some (SyncWriting r e2 rest false)
        /\ commandsOf (trace w')
           = commandsOf (trace w)
             ++ [CV_UPDATE_TYPE (cvTypeId e2) (data e2) r]
        /\ flushing w' = flushing w)
  /\ (forall w k1 t1 d1 b1 r k2 edits tN dN bN st1 st2,
        drafts w = [] -> flushing w = false -> destroyed w = false ->
        k1 <> "" -> k2 <> "" ->
        ordinaryId k1 = true -> ordinaryId k2 = true ->
        (k2 = k1 -> t1 < tN) ->
        lists st1 k2 = true ->
        let t := nextTask w in
        let w' := run w ([EvClock t1; EvScheduleTypeSave k1 d1 b1; EvFlush r;
                          EvStorageDone t]
                         ++ editTurns k2 (edits ++ [(tN, dN, bN)])
                         ++ [EvNetReply t (NetOk st1);
                             EvNetReply t (NetOk st2); EvStorageDone t]) in
        commandsOf (trace w')
        = commandsOf (trace w)
          ++ [CV_UPDATE_TYPE k1 d1 r; CV_UPDATE_TYPE k2 dN r]
        /\ returnsOf (trace w')
           = returnsOf (trace w)
             ++ [{| ok := true; reason := None; resultStatus := Saved |}]
        /\ status w' = Saved
        /\ drafts w' = [])
  /\ (forall w t r e rest rc k edits tN dN bN sts1,
        ordinary w ->
        getTask t (tasks w) = Some (SyncWriting r e rest rc) ->
        k <> "" -> ordinaryId k = true ->
        (forall x, In x (e :: rest) -> cvTypeId x = k ->
                   localUpdatedAtMs x < tN) ->
        List.length sts1 = S (List.length rest) ->
        Forall (fun st => lists st k = true) sts1 ->
        let nd := mkDraft k dN tN bN true in
        let w1 := run w (editTurns k (edits ++ [(tN, dN, bN)])
                         ++ map (EvNetReply t) (map NetOk sts1)) in
        exists e' rest',
          sortByTime (Obj.values (drafts w1)) = e' :: rest'
          /\ In nd (e' :: rest')
          /\ getTask t (tasks w1) = Some (SyncWriting r e' rest' false)
          /\ needsTrailingFlush w1 = false
          /\ commandsOf (trace w1)
             = commandsOf (trace w)
               ++ map (fun x => CV_UPDATE_TYPE (cvTypeId x) (data x) r) rest
               ++ [CV_UPDATE_TYPE (cvTypeId e') (data e') r]
          /\ forall sts2,
               List.length sts2 = S (List.length rest') ->
               let w2 := run w1 (map (EvNetReply t) (map NetOk sts2)
                                 ++ [EvStorageDone t]) in
               commandsOf (trace w2)
               = commandsOf (trace w)
                 ++ map (fun x => CV_UPDATE_TYPE (cvTypeId x) (data x) r) rest
                 ++ map (fun x => CV_UPDATE_TYPE (cvTypeId x) (data x) r)
                      (e' :: rest')
               /\ writesOf k
                    (map (fun x => CV_UPDATE_TYPE (cvTypeId x) (data x) r)
                       (e' :: rest'))
                  = [dN]
               /\ drafts w2 = [] /\ status w2 = Saved /\ flushing w2 = false
               /\ returnsOf (trace w2)
                  = returnsOf (trace w)
                    ++ [{| ok := true; reason := None;
                           resultStatus := Saved |}]).
Proof.
  split; [exact flush_called_while_flushing | ].
  split; [exact flush_while_flushing | ].
  split; [ | split; [ | split; [ | split]]].
  - intros w t1 t2 pc1 pc2 Ho H1 H2 Hd1 Hd2.
    destruct (oneDrain_reachable w (ordinary_reachable w Ho)) as [Hidle Hone].
    split.
    + exact (Hone t1 t2 pc1 pc2 H1 H2 Hd1 Hd2).
    + destruct (flushing w) eqn:Ef; [reflexivity | ].
      rewrite (Hidle eq_refl t1 pc1 H1) in Hd1. discriminate Hd1.
  - intros w t r e rc st _. apply pass_end.
  - intros w t r e e2 rest rc st _. apply pass_continues.
  - intros w k1 t1 d1 b1 r k2 edits tN dN bN st1 st2 Hd Hf Hx Hk1 Hk2 _ _.
    now apply trailing_run.
  - intros w t r e rest rc k edits tN dN bN sts1 Ho Ht Hk _.
    apply (midflight_edit_run w t r e rest rc k edits tN dN bN sts1);
      [now apply ordinary_reachable | exact Ht | exact Hk].
Qed.

Lemma trailing_pass_witness :
  let first := JObj [("marker", JStr "first")] in
  let second := JObj [("marker", JStr "second")] in
  let third := JObj [("marker", JStr "third")] in
  let w := run (createSyncController None 100)
             [EvScheduleTypeSave "type_1" first "remote_a"; EvClock 101;
              EvScheduleTypeSave "type_2" second "remote_a";
              EvFlush "manual"; EvStorageDone 0] in
  let t := 0%nat in
  let r := "manual" in
  let e := mkDraft "type_1" first 100 "remote_a" true in
  let rest := [mkDraft "type_2" second 101 "remote_a" true] in
  let k := "type_2" in
  let st := Some (mkRemote "v2" (Some [CvType.mk "type_1" first;
                                       CvType.mk "type_2" second])) in
  let sts1 := [st; st] in
  (ordinary w
   /\ getTask t (tasks w) = Some (SyncWriting r e rest false)
   /\ k <> "" /\ ordinaryId k = true
   /\ (forall x, In x (e :: rest) -> cvTypeId x = k ->
                 localUpdatedAtMs x < 105)
   /\ List.length sts1 = S (List.length rest)
   /\ Forall (fun st => lists st k = true) sts1)
  /\ let nd := mkDraft k third 105 "remote_b" true in
     let w1 := run w (editTurns k ([] ++ [(105, third, "remote_b")])
                      ++ map (EvNetReply t) (map NetOk sts1)) in
     exists e' rest',
       sortByTime (Obj.values (drafts w1)) = e' :: rest'
       /\ In nd (e' :: rest')
       /\ getTask t (tasks w1) = Some (SyncWriting r e' rest' false)
       /\ needsTrailingFlush w1 = false
       /\ commandsOf (trace w1)
          = commandsOf (trace w)
            ++ map (fun x => CV_UPDATE_TYPE (cvTypeId x) (data x) r) rest
            ++ [CV_UPDATE_TYPE (cvTypeId e') (data e') r]
       /\ forall sts2,
            List.length sts2 = S (List.length rest') ->
            let w2 := run w1 (map (EvNetReply t) (map NetOk sts2)
                              ++ [EvStorageDone t]) in
            commandsOf (trace w2)
            = commandsOf (trace w)
              ++ map (fun x => CV_UPDATE_TYPE (cvTypeId x) (data x) r) rest
              ++ map (fun x => CV_UPDATE_TYPE (cvTypeId x) (data x) r)
                   (e' :: rest')
            /\ writesOf k
                 (map (fun x => CV_UPDATE_TYPE (cvTypeId x) (data x) r)
                    (e' :: rest'))
               = [third]
            /\ drafts w2 = [] /\ status w2 = Saved /\ flushing w2 = false
            /\ returnsOf (trace w2)
               = returnsOf (trace w)
                 ++ [{| ok := true; reason := None; resultStatus := Saved |}].
Proof.
  intros first second third w t r e rest k st sts1.
  assert (Ho : ordinary w)
    by (apply ordinary_run; [now apply ordinary_init | reflexivity]).
  assert (Ht : getTask t (tasks w) = Some (SyncWriting r e rest false))
    by reflexivity.
  assert (Hk : k <> "") by discriminate.
  assert (Hid : ordinaryId k = true) by reflexivity.
  assert (Hlt : forall x, In x (e :: rest) -> cvTypeId x = k ->
                          localUpdatedAtMs x < 105).
  { intros x [<- | [<- | []]] _; reflexivity. }
  assert (Hlen : List.length sts1 = S (List.length rest)) by reflexivity.
  assert (Hall : Forall (fun st => lists st k = true) sts1)
    by (repeat constructor).
  split; [repeat split; assumption | ].
  destruct trailing_pass as (_ & _ & _ & _ & _ & _ & Hmid).
  exact (Hmid w t r e rest false k [] 105 third "remote_b" sts1
           Ho Ht Hk Hid Hlt Hlen Hall).
Defined.

(** ** A pass that fails part way *)

Lemma replies_at_once sts : flat_map repliesOf (map AtOnce sts) = map NetOk sts.
Proof.
  induction sts as [ | st sts IH]; [reflexivity | ].
  cbn [map flat_map repliesOf app]. now rewrite IH.
Qed.

Lemma absorbed_at_once sts : map absorbedOf (map AtOnce sts) = sts.
Proof.
  induction sts as [ | st sts IH]; [reflexivity | ].
  cbn [map absorbedOf]. now rewrite IH.
Qed.

Lemma commands_at_once r : forall (pre : list Draft) sts,
  List.length sts = List.length pre ->
  flat_map (fun es => commandsFor r (fst es) (snd es))
    (combine pre (map AtOnce sts))
  = map (fun x => CV_UPDATE_TYPE (cvTypeId x) (data x) r) pre.
Proof.
  induction pre as [ | p pre IH]; intros sts Hlen; [reflexivity | ].
  destruct sts as [ | st sts]; [discriminate Hlen | ].
  cbn [map combine flat_map fst snd commandsFor app]. f_equal.
  apply IH. now injection Hlen.
Qed.

(** X13.  A pass stops at the first write that fails.  When the first
    writes of a flush of a controller that is neither flushing nor
    destroyed, reached through ordinary identifiers, succeed and the next
    one fails with an error that is not
    a version conflict, the entries after it are not attempted: the
    commands sent are the writes up to the failing one, in order.  The
    drafts that were written are gone from the store.  The draft whose
    write failed and the drafts that were not attempted are still there,
    unchanged, when the state of every successful response lists their
    entity (or has no [cvTypes] array); a draft whose entity one of these
    states does not list has been pruned.  The status is error, [onError]
    gets the error, and the call returns not ok. *)
Theorem failed_pass_stops w r pre e post sts c :
  ordinary w ->
  flushing w = false -> destroyed w = false ->
  sortByTime (Obj.values (drafts w)) = pre ++ e :: post ->
  List.length sts = List.length pre ->
  String.eqb c "STATE_CONFLICT" = false ->
  let w' := run w (flushTurns (nextTask w) r (map NetOk sts ++ [NetError c])) in
  commandsOf (trace w')
  = commandsOf (trace w)
    ++ map (fun x => CV_UPDATE_TYPE (cvTypeId x) (data x) r) (pre ++ [e])
  /\ (forall x, In x pre -> Obj.get (cvTypeId x) (drafts w') = None)
  /\ (forall x, In x (e :: post) ->
                Obj.get (cvTypeId x) (drafts w')
                = if listedBy sts (cvTypeId x) then Some x else None)
  /\ status w' = Error
  /\ errorsOf (trace w') = errorsOf (trace w) ++ [c]
  /\ returnsOf (trace w')
     = returnsOf (trace w)
       ++ [{| ok := false; reason := None; resultStatus := Error |}].
Proof.
  intros Ho Hf Hx Hsort Hlen Hc w'.
  pose proof (ordinary_reachable w Ho) as Hr.
  pose proof (wellKeyed_reachable w Hr) as Hw.
  pose proof (sorted_values_NoDup w Hw) as Hnd. rewrite Hsort in Hnd.
  assert (Hlen' : List.length (map AtOnce sts) = List.length pre)
    by now rewrite length_map.
  assert (Hfail : isFailure (WriteFails c) = true)
    by (cbn [isFailure]; now rewrite Hc).
  destruct (failed_flush_run w r pre e post (map AtOnce sts) (WriteFails c)
              Hr Hf Hx Hsort Hlen' Hfail)
    as (Hcmd & Hget & Hs & _ & He & Hret & _).
  rewrite replies_at_once, absorbed_at_once in *.
  rewrite (commands_at_once r pre sts Hlen) in Hcmd.
  cbn [failureReplies failureCommands failureCode] in *.
  fold w' in Hcmd, Hget, Hs, He, Hret.
  split; [now rewrite map_app | ].
  split; [ | split; [ | split; [exact Hs | split; [exact He | exact Hret]]]].
  - intros x Hin. rewrite Hget.
    assert (Hid : hasId (map cvTypeId pre) (cvTypeId x) = true)
      by (apply hasId_In; now apply in_map).
    now rewrite Hid.
  - intros x Hin. rewrite Hget, (not_in_prefix pre e post x Hnd Hin).
    destruct (listedBy sts (cvTypeId x)); auto.
    apply sorted_values_get; [exact Hw | ]. rewrite Hsort.
    apply in_or_app. now right.
Qed.

Lemma failed_pass_stops_witness :
  let d1 := JObj [("name", JStr "first")] in
  let d2 := JObj [("name", JStr "second")] in
  let d3 := JObj [("name", JStr "third")] in
  let w := run (createSyncController None 100)
             [EvClock 30; EvScheduleTypeSave "type_c" d3 "v1";
              EvClock 10; EvScheduleTypeSave "type_a" d1 "v1";
              EvClock 20; EvScheduleTypeSave "type_b" d2 "v1"] in
  let r := "manual" in
  let pre := [mkDraft "type_a" d1 10 "v1" true] in
  let e := mkDraft "type_b" d2 20 "v1" true in
  let post := [mkDraft "type_c" d3 30 "v1" true] in
  let sts := [Some (mkRemote "v2" (Some [CvType.mk "type_a" d1;
                                         CvType.mk "type_b" d2]))] in
  let c := "OFFLINE" in
  (ordinary w /\ flushing w = false /\ destroyed w = false
   /\ sortByTime (Obj.values (drafts w)) = pre ++ e :: post
   /\ List.length sts = List.length pre
   /\ String.eqb c "STATE_CONFLICT" = false)
  /\ let w' := run w (flushTurns (nextTask w) r
                        (map NetOk sts ++ [NetError c])) in
     commandsOf (trace w')
     = commandsOf (trace w)
       ++ map (fun x => CV_UPDATE_TYPE (cvTypeId x) (data x) r) (pre ++ [e])
     /\ (forall x, In x pre -> Obj.get (cvTypeId x) (drafts w') = None)
     /\ (forall x, In x (e :: post) ->
                   Obj.get (cvTypeId x) (drafts w')
                   = if listedBy sts (cvTypeId x) then Some x else None)
     /\ status w' = Error
     /\ errorsOf (trace w') = errorsOf (trace w) ++ [c]
     /\ returnsOf (trace w')
        = returnsOf (trace w)
          ++ [{| ok := false; reason := None; resultStatus := Error |}].
Proof.
  intros d1 d2 d3 w r pre e post sts c.
  assert (Ho : ordinary w)
    by (apply ordinary_run; [now apply ordinary_init | reflexivity]).
  assert (Hf : flushing w = false) by (vm_compute; reflexivity).
  assert (Hx : destroyed w = false) by (vm_compute; reflexivity).
  assert (Hsort : sortByTime (Obj.values (drafts w)) = pre ++ e :: post)
    by (vm_compute; reflexivity).
  assert (Hlen : List.length sts = List.length pre) by reflexivity.
  assert (Hc : String.eqb c "STATE_CONFLICT" = false) by reflexivity.
  split; [repeat split; assumption | ].
  exact (failed_pass_stops w r pre e post sts c Ho Hf Hx Hsort Hlen Hc).
Defined.
